(** * Research agent: orchestration, result cache and verification engine

    A shallow embedding of the research agent's core (the orchestrator
    [ResearchAgent], the [SearchPlugin] post-processing and the
    [VerificationPlugin] heuristics) together with the properties that the
    design document states about them, followed by the heuristics of the
    [AnalysisPlugin], the engines of the [SearchPlugin], the level filter
    of the [Logger] and the merge of configurations, with further
    properties of the code (X1, X2, ...).

    Conventions of the embedding.
    - A JavaScript string is a [string]: a sequence of code units, here
      restricted to the 8-bit range (ASCII and Latin-1).
    - A JavaScript number is an exact rational [Q]; the rounding of IEEE
      doubles is not modelled (the documented examples of the confidence
      are computed once more on binary64 numbers).  Truthiness of a number
      is [x <> 0].
    - An absent property ([undefined]) is [None].
    - A [throw] is the [Throw] constructor of [result]; [async] functions are
      run to completion, one after the other, as the source awaits each call.
    - [Date.now()] is the [now] field of the world; identifiers drawn from
      [uuidv4()] are drawn from a counter. *)

From Stdlib Require Import Ascii String QArith Qminmax Lqa PrimFloat Sorted.
From stdpp Require Import gmap strings list pretty.

Set Warnings "-register-all,-clear-no-such-hyp,-level-tolerance,-inexact-float".

Local Open Scope string_scope.
Local Open Scope list_scope.

(** ** JavaScript string primitives *)

Module Js.

(** The character named by its decimal code. *)
Definition chr (n : nat) : ascii := ascii_of_nat n.
Definition code (c : ascii) : nat := nat_of_ascii c.

Definition dquote : ascii := chr 34.
Definition backslash : ascii := chr 92.

(** [\s] of a regular expression and the white space removed by [trim], on
    8-bit code units: TAB, LF, VT, FF, CR, space and NBSP. *)
Definition is_space (c : ascii) : bool :=
  let n := code c in
  (((9 <=? n) && (n <=? 13)) || (n =? 32) || (n =? 160))%nat.

(** [\w] of a regular expression: [[A-Za-z0-9_]]. *)
Definition is_word (c : ascii) : bool :=
  let n := code c in
  (((48 <=? n) && (n <=? 57)) || ((65 <=? n) && (n <=? 90))
   || ((97 <=? n) && (n <=? 122)) || (n =? 95))%nat.

Definition is_digit (c : ascii) : bool :=
  let n := code c in ((48 <=? n) && (n <=? 57))%nat.

(** [String.prototype.toLowerCase] on one code unit: A-Z, and the Latin-1
    capitals other than the multiplication sign. *)
Definition lower (c : ascii) : ascii :=
  let n := code c in
  if (((65 <=? n) && (n <=? 90))
      || ((192 <=? n) && (n <=? 222) && negb (n =? 215)))%nat
  then chr (n + 32) else c.

Fixpoint map_chars (f : ascii -> ascii) (s : string) : string :=
  match s with
  | EmptyString => EmptyString
  | String c s' => String (f c) (map_chars f s')
  end.

Fixpoint filter_chars (p : ascii -> bool) (s : string) : string :=
  match s with
  | EmptyString => EmptyString
  | String c s' => if p c then String c (filter_chars p s') else filter_chars p s'
  end.

Definition toLowerCase : string -> string := map_chars lower.

(** The complement of a character class. *)
Definition non (p : ascii -> bool) (c : ascii) : bool := negb (p c).

Fixpoint trimStart (s : string) : string :=
  match s with
  | String c s' => if is_space c then trimStart s' else s
  | EmptyString => EmptyString
  end.

Fixpoint trimEnd (s : string) : string :=
  match s with
  | EmptyString => EmptyString
  | String c s' =>
      match trimEnd s' with
      | EmptyString => if is_space c then EmptyString else String c EmptyString
      | r => String c r
      end
  end.

Definition trim (s : string) : string := trimEnd (trimStart s).

(** [s.includes(sub)]. *)
Fixpoint includes (s sub : string) : bool :=
  String.prefix sub s ||
  match s with
  | EmptyString => false
  | String _ s' => includes s' sub
  end.

(** [s.split(/[...]+/)] for a character class [delim]: the pieces between
    the maximal runs of delimiters, with the empty piece before a leading
    run and after a trailing run, as [split] returns them.  [cur] is the
    piece being read, reversed; [in_run] tells that the previous code unit
    was a delimiter. *)
Fixpoint split_runs (delim : ascii -> bool) (s : string)
    (cur : string) (in_run : bool) : list string :=
  match s with
  | EmptyString => [String.rev cur]
  | String c s' =>
      if delim c then
        if in_run then split_runs delim s' EmptyString true
        else String.rev cur :: split_runs delim s' EmptyString true
      else split_runs delim s' (String c cur) false
  end.

Definition split (delim : ascii -> bool) (s : string) : list string :=
  split_runs delim s EmptyString false.

(** [s.replace(/[...]+/g, r)] where the class is [p]: every maximal run
    of matching code units is replaced by [r]. *)
Fixpoint replace_runs (p : ascii -> bool) (r : string) (s : string)
    (in_run : bool) : string :=
  match s with
  | EmptyString => EmptyString
  | String c s' =>
      if p c then
        if in_run then replace_runs p r s' true
        else r +:+ replace_runs p r s' true
      else String c (replace_runs p r s' false)
  end.

(** Truthiness of a string and of an optional string property. *)
Definition truthy_str (s : string) : bool :=
  match s with EmptyString => false | _ => true end.

(** [x || d] for an optional string property [x]. *)
Definition or_else (x : option string) (d : string) : string :=
  match x with
  | Some s => if truthy_str s then s else d
  | None => d
  end.

(** Truthiness of a number. *)
Definition truthy_num (x : Q) : bool := negb (Qeq_bool x 0).

(** [xs.slice(0, e)] for an integer [e]: a negative [e] counts from the
    end of the array. *)
Definition slice0 {A} (xs : list A) (e : Z) : list A :=
  if (e <? 0)%Z then take (Z.to_nat (Z.of_nat (length xs) + e)) xs
  else take (Z.to_nat e) xs.

End Js.

(** ** Search results *)

Module Source.
(** A search result as the engines build it.  [title] and [snippet] may
    be absent; every producer in the program sets [url]. *)
Record t := {
  id : nat;
  title : option string;
  url : string;
  snippet : option string;
  source : string;
  quality : option Q;
  relevance : option Q;
}.
End Source.

Module SearchPlugin.

(** The filter callback of [deduplicateResults], with the two [Set]s it
    closes over threaded through the traversal. *)
Fixpoint dedup_from (seenUrls : gset string) (seenTitles : gset (option string))
    (results : list Source.t) : list Source.t :=
  match results with
  | [] => []
  | result :: rest =>
      if bool_decide (Source.url result ∈ seenUrls) || bool_decide (Source.title result ∈ seenTitles)
      then dedup_from seenUrls seenTitles rest
      else result :: dedup_from ({[Source.url result]} ∪ seenUrls)
                                ({[Source.title result]} ∪ seenTitles) rest
  end.

Definition deduplicateResults (results : list Source.t) : list Source.t :=
  dedup_from ∅ ∅ results.

End SearchPlugin.

(** ** Extracted content, analysis scores and analysed results *)

Module Content.
(** What [extractContent] returns for a source. *)
Record t := {
  title : string;
  content : string;
  url : string;
  extractedAt : Z;
}.
End Content.

Module Analysis.
(** The scores an analysis assigns, without the extracted entities.  The
    built-in plugin sets every field; the orchestrator's fallback sets
    neither [bias] nor [readability]. *)
Record t := {
  relevance : option Q;
  sentiment : option string;
  topics : list string;
  quality : option Q;
  bias : option string;
  readability : option Q;
}.
End Analysis.

Module Result.
(** An entry of [researchContext.results]. *)
Record t := {
  source : Source.t;
  content : Content.t;
  analysis : option Analysis.t;
}.
End Result.

(** ** Verification plugin *)

Module VerificationPlugin.

(** An entry of the array kept under a normalised claim. *)
Record ClaimRef := {
  ref_source : option string;
  ref_url : string;
  ref_content : string;
}.

Record CrossRef := {
  claim : string;
  sources : list ClaimRef;
  count : nat;
}.

Record FactCheck := {
  fc_claim : string;
  fc_source : option string;
  fc_url : string;
  fc_status : string;
  fc_confidence : Q;
  checkedAt : Z;
}.

Record Credibility := {
  cred_source : option string;
  cred_url : string;
  credibility : Q;
  calculatedAt : Z;
}.

Record Verification := {
  status : string;
  confidence : Q;
  cross_references : list CrossRef;
  fact_checks : list FactCheck;
  credibility_scores : list Credibility;
}.

(** The class [[.!?]] of the sentence splitter. *)
Definition is_terminator (c : ascii) : bool :=
  let n := Js.code c in ((n =? 46) || (n =? 33) || (n =? 63))%nat.

(** [content.split(/[.!?]+/).map(s => s.trim()).filter(s => s.length > 10)] *)
Definition sentences (content : string) : list string :=
  filter (fun s => (10 < String.length s)%nat)
         (map Js.trim (Js.split is_terminator content)).

(** [normalizeClaim]: lower case, runs of white space to one space, every
    code unit that is neither a word character nor white space removed,
    then trimmed. *)
Definition normalizeClaim (claim : string) : string :=
  Js.trim
    (Js.filter_chars (fun c => Js.is_word c || Js.is_space c)
       (Js.replace_runs Js.is_space " " (Js.toLowerCase claim) false)).

(** The [Map] from normalised claim to its references, in insertion order:
    [has]/[set] of a new key appends an entry, [get(k).push(r)] extends the
    array of an existing one. *)
Fixpoint push_claim (claimsMap : list (string * list ClaimRef))
    (normalized : string) (r : ClaimRef) : list (string * list ClaimRef) :=
  match claimsMap with
  | [] => [(normalized, [r])]
  | (k, rs) :: rest =>
      if String.eqb k normalized then (k, rs ++ [r]) :: rest
      else (k, rs) :: push_claim rest normalized r
  end.

Definition collect_result (claimsMap : list (string * list ClaimRef))
    (result : Result.t) : list (string * list ClaimRef) :=
  fold_left
    (fun m sentence =>
       push_claim m (normalizeClaim sentence)
         {| ref_source := Source.title (Result.source result);
            ref_url := Source.url (Result.source result);
            ref_content := sentence |})
    (sentences (Content.content (Result.content result)))
    claimsMap.

Definition collect_claims (results : list Result.t) : list (string * list ClaimRef) :=
  fold_left collect_result results [].

(** [crossRefs.sort((a, b) => b.count - a.count)]: a stable sort, larger
    counts first. *)
Fixpoint insert_by_count (x : CrossRef) (l : list CrossRef) : list CrossRef :=
  match l with
  | [] => [x]
  | y :: l' =>
      if (count x <? count y)%nat then y :: insert_by_count x l'
      else x :: y :: l'
  end.

Definition sort_by_count (l : list CrossRef) : list CrossRef :=
  foldr insert_by_count [] l.

Definition performCrossReferencing (results : list Result.t) : list CrossRef :=
  let claimsMap := collect_claims results in
  let crossRefs :=
    omap (fun '(claim, sources) =>
            if (1 <? length sources)%nat
            then Some {| claim := claim; sources := sources;
                         count := length sources |}
            else None)
         claimsMap in
  sort_by_count crossRefs.

(** The number of distinct sources (by title and URL, as the references
    record them) that support a cross-reference. *)
Definition distinct_sources (c : CrossRef) : nat :=
  length (remove_dups (map (fun r => (ref_source r, ref_url r)) (sources c))).

(** [/\d{4}|\d+/.test(sentence)]: some digit occurs. *)
Fixpoint hasNumber (s : string) : bool :=
  match s with
  | EmptyString => false
  | String c s' => Js.is_digit c || hasNumber s'
  end.

Definition assertion_words : list string :=
  ["found"; "discovered"; "research"; "study"; "shows"; "indicates";
   "reveals"; "demonstrates"].

Definition hasSpecificClaim (s : string) : bool :=
  existsb (Js.includes s) assertion_words.

Definition performFactChecking (now : Z) (results : list Result.t) : list FactCheck :=
  flat_map
    (fun result =>
       omap (fun sentence =>
               if hasNumber sentence || hasSpecificClaim sentence
               then Some {| fc_claim := sentence;
                            fc_source := Source.title (Result.source result);
                            fc_url := Source.url (Result.source result);
                            fc_status := "unchecked";
                            fc_confidence := 0.5;
                            checkedAt := now |}
               else None)
            (sentences (Content.content (Result.content result))))
    results.

(** The body of the loop of [calculateCredibility]: the score of one
    analysed result. *)
Definition domain_bonus (url : string) : Q :=
  if Js.includes url "edu" || Js.includes url "org" || Js.includes url "gov"
  then 0.2%Q
  else if Js.includes url "com" then 0.1%Q else 0%Q.

Definition with_quality (analysis : option Analysis.t) (score : Q) : Q :=
  match analysis with
  | Some a =>
      match Analysis.quality a with
      | Some q => if Js.truthy_num q then ((score + q) / 2)%Q else score
      | None => score
      end
  | None => score
  end.

Definition bias_penalty (analysis : option Analysis.t) : Q :=
  match analysis with
  | Some a =>
      match Analysis.bias a with
      | Some b =>
          if String.eqb b "high" then 0.2%Q
          else if String.eqb b "medium" then 0.1%Q else 0%Q
      | None => 0%Q
      end
  | None => 0%Q
  end.

Definition readability_bonus (analysis : option Analysis.t) : Q :=
  match analysis with
  | Some a =>
      match Analysis.readability a with
      | Some r =>
          if Js.truthy_num r then
            if Qlt_le_dec r 0.2 then (- 0.1)%Q
            else if Qlt_le_dec 0.7 r then 0.1%Q else 0%Q
          else 0%Q
      | None => 0%Q
      end
  | None => 0%Q
  end.

Definition clamp01 (score : Q) : Q := Qmax 0 (Qmin 1 score)%Q.

Definition credibilityScore (result : Result.t) : Q :=
  let score := 0.5%Q in
  let score := (score + domain_bonus (Source.url (Result.source result)))%Q in
  let score := with_quality (Result.analysis result) score in
  let score := (score - bias_penalty (Result.analysis result))%Q in
  let score := (score + readability_bonus (Result.analysis result))%Q in
  clamp01 score.

Definition calculateCredibility (now : Z) (results : list Result.t) : list Credibility :=
  map (fun result =>
         {| cred_source := Source.title (Result.source result);
            cred_url := Source.url (Result.source result);
            credibility := credibilityScore result;
            calculatedAt := now |})
      results.

(** [calculateOverallConfidence], on the two fields it reads. *)
Definition overallConfidence (cross_references : list CrossRef)
    (credibility_scores : list Credibility) : Q :=
  let crossRefConfidence :=
    Qmin 1 (inject_Z (Z.of_nat (length cross_references)) * 0.3)%Q in
  let avgCredibility :=
    if (0 <? length credibility_scores)%nat
    then (fold_left (fun sum score => sum + credibility score) credibility_scores 0
          / inject_Z (Z.of_nat (length credibility_scores)))%Q
    else 0.5%Q in
  (crossRefConfidence * 0.6 + avgCredibility * 0.4)%Q.

Definition calculateOverallConfidence (verification : Verification) : Q :=
  overallConfidence (cross_references verification) (credibility_scores verification).

(** [verify]: the fields are filled in the order of the source; the
    summary text, a template over the four lengths, is left out. *)
Definition verify (now : Z) (results : list Result.t) : Verification :=
  let verification :=
    {| status := "completed";
       confidence := 0;
       cross_references := performCrossReferencing results;
       fact_checks := performFactChecking now results;
       credibility_scores := calculateCredibility now results |} in
  {| status := status verification;
     confidence := calculateOverallConfidence verification;
     cross_references := cross_references verification;
     fact_checks := fact_checks verification;
     credibility_scores := credibility_scores verification |}.

End VerificationPlugin.

(** ** JSON values and [JSON.stringify] *)

Module Json.

(** A JSON-serialisable value.  The fields of an object are listed in the
    order in which the object enumerates its own properties; numbers are
    the integer-valued ones. *)
Inductive json :=
| JNull
| JBool (b : bool)
| JNum (z : Z)
| JStr (s : string)
| JArr (items : list json)
| JObj (fields : list (string * json)).

Definition hex_digit (n : nat) : ascii :=
  if (n <? 10)%nat then Js.chr (48 + n) else Js.chr (87 + n).

(** The escape of one code unit inside a quoted string. *)
Definition escape_char (c : ascii) : string :=
  let n := Js.code c in
  if (n =? 34)%nat then String Js.backslash (String Js.dquote EmptyString)
  else if (n =? 92)%nat then String Js.backslash (String Js.backslash EmptyString)
  else if (n =? 8)%nat then String Js.backslash "b"
  else if (n =? 12)%nat then String Js.backslash "f"
  else if (n =? 10)%nat then String Js.backslash "n"
  else if (n =? 13)%nat then String Js.backslash "r"
  else if (n =? 9)%nat then String Js.backslash "t"
  else if (n <? 32)%nat then
    String Js.backslash
      ("u00" +:+ String (hex_digit (n / 16)) (String (hex_digit (n mod 16)) EmptyString))
  else String c EmptyString.

Fixpoint escape (s : string) : string :=
  match s with
  | EmptyString => EmptyString
  | String c s' => escape_char c +:+ escape s'
  end.

Definition quote (s : string) : string :=
  String Js.dquote (escape s +:+ String Js.dquote EmptyString).

Fixpoint join (sep : string) (parts : list string) : string :=
  match parts with
  | [] => EmptyString
  | [p] => p
  | p :: rest => p +:+ sep +:+ join sep rest
  end.

(** [JSON.stringify(v)] without indentation. *)
Fixpoint stringify (v : json) : string :=
  match v with
  | JNull => "null"
  | JBool true => "true"
  | JBool false => "false"
  | JNum z => pretty z
  | JStr s => quote s
  | JArr items => "[" +:+ join "," (map stringify items) +:+ "]"
  | JObj fields =>
      "{" +:+ join "," (map (fun kv => quote (fst kv) +:+ ":" +:+ stringify (snd kv)) fields)
      +:+ "}"
  end.

(** Property lookup [o[k]] in a list of fields. *)
Fixpoint field (k : string) (fields : list (string * json)) : option json :=
  match fields with
  | [] => None
  | (k', v) :: rest => if String.eqb k' k then Some v else field k rest
  end.

(** Semantic equality: the same scalars, arrays equal item by item,
    objects with the same keys bound to semantically equal values, in any
    order.  (Objects have no repeated key.) *)
Fixpoint sem_eqb (a b : json) : bool :=
  match a, b with
  | JNull, JNull => true
  | JBool x, JBool y => Bool.eqb x y
  | JNum x, JNum y => (x =? y)%Z
  | JStr x, JStr y => String.eqb x y
  | JArr xs, JArr ys =>
      (fix all2 (l : list json) (r : list json) : bool :=
         match l, r with
         | [], [] => true
         | x :: l', y :: r' => sem_eqb x y && all2 l' r'
         | _, _ => false
         end) xs ys
  | JObj xs, JObj ys =>
      (length xs =? length ys)%nat &&
      (fix all (l : list (string * json)) : bool :=
         match l with
         | [] => true
         | kv :: l' =>
             match field (fst kv) ys with
             | Some w => sem_eqb (snd kv) w
             | None => false
             end && all l'
         end) xs
  | _, _ => false
  end.

(** [{ ...a, ...b }]: the keys of [a] keep their place and take the value
    [b] gives them; the new keys of [b] follow in [b]'s order. *)
Fixpoint set_field (fields : list (string * json)) (k : string) (v : json)
    : list (string * json) :=
  match fields with
  | [] => [(k, v)]
  | (k', v') :: rest =>
      if String.eqb k' k then (k', v) :: rest else (k', v') :: set_field rest k v
  end.

Definition spread (a b : list (string * json)) : list (string * json) :=
  fold_left (fun acc kv => set_field acc (fst kv) (snd kv)) b a.

(** *** Reading a serialisation back *)

(** What a JSON text holds, as its first code unit tells. *)
Inductive kind := KNull | KTrue | KFalse | KNum | KStr | KArr | KObj.

Definition kind_of (v : json) : kind :=
  match v with
  | JNull => KNull
  | JBool true => KTrue
  | JBool false => KFalse
  | JNum _ => KNum
  | JStr _ => KStr
  | JArr _ => KArr
  | JObj _ => KObj
  end.

(** The code units of a serialised number: the digits and the sign. *)
Definition number_char (c : ascii) : bool :=
  Js.is_digit c || (Js.code c =? 45)%nat.

Definition first_kind (s : string) : option kind :=
  match s with
  | EmptyString => None
  | String c _ =>
      let n := Js.code c in
      if (n =? 110)%nat then Some KNull
      else if (n =? 116)%nat then Some KTrue
      else if (n =? 102)%nat then Some KFalse
      else if number_char c then Some KNum
      else if (n =? 34)%nat then Some KStr
      else if (n =? 91)%nat then Some KArr
      else if (n =? 123)%nat then Some KObj
      else None
  end.

(** What may follow a value inside a JSON text: nothing, a comma, or a
    closing bracket or brace. *)
Definition closes (r : string) : bool :=
  match r with
  | EmptyString => true
  | String c _ =>
      let n := Js.code c in ((n =? 44) || (n =? 93) || (n =? 125))%nat
  end.

Fixpoint all_chars (p : ascii -> bool) (s : string) : bool :=
  match s with
  | EmptyString => true
  | String c s' => p c && all_chars p s'
  end.

Definition hex_value (c : ascii) : nat :=
  if Js.is_digit c then Js.code c - 48 else Js.code c - 87.

(** The first code unit of the content of a quoted string, read back from
    its escape, with the text that follows it. *)
Definition unescape_char (s : string) : option (ascii * string) :=
  match s with
  | EmptyString => None
  | String c rest =>
      if (Js.code c =? 92)%nat then
        match rest with
        | EmptyString => None
        | String t rest' =>
            let n := Js.code t in
            if (n =? 34)%nat then Some (Js.dquote, rest')
            else if (n =? 92)%nat then Some (Js.backslash, rest')
            else if (n =? 98)%nat then Some (Js.chr 8, rest')
            else if (n =? 102)%nat then Some (Js.chr 12, rest')
            else if (n =? 110)%nat then Some (Js.chr 10, rest')
            else if (n =? 114)%nat then Some (Js.chr 13, rest')
            else if (n =? 116)%nat then Some (Js.chr 9, rest')
            else if (n =? 117)%nat then
              match rest' with
              | String _ (String _ (String h (String l rest''))) =>
                  Some (Js.chr (16 * hex_value h + hex_value l), rest'')
              | _ => None
              end
            else None
        end
      else Some (c, rest)
  end.
End Json.

(** ** The orchestrator *)

Module Synthesis.
(** What [generateAnalysis] returns. *)
Record t := {
  summary : string;
  keyPoints : list string;
  trends : list string;
  gaps : list string;
  generatedAt : Z;
}.
End Synthesis.

Module Citation.
(** A citation; its text is a template over the title and the date. *)
Record t := {
  title : option string;
  url : string;
  style : option string;
  generatedAt : Z;
}.
End Citation.

Module Report.
(** What [generateReport] returns. *)
Record t := {
  content : string;
  citations : list Citation.t;
  format : option Json.json;
  generatedAt : Z;
}.
End Report.

Module Context.
(** The [researchContext] object of one call. *)
Record t := {
  topic : string;
  options : list (string * Json.json);
  results : list Result.t;
  sources : list Source.t;
  analysis : option Synthesis.t;
  citations : list Citation.t;
  verification : option VerificationPlugin.Verification;
  report : option Report.t;
}.
End Context.

Module Config.
(** The part of the merged configuration that the core reads. *)
Record t := {
  sessionId : string;
  cacheEnabled : bool;
  cacheTtl : Z;
  cacheDir : string;
  persistResults : bool;
  resultStoragePath : string;
  maxSources : Z;
  verificationEnabled : bool;
  citationStyle : string;
  provider : string;
  apiKey : string;
  customization : list (string * Json.json);
}.
End Config.

Module ResearchAgent.

(** The outcome of a call that may [throw]; the error is its message. *)
Inductive result (A : Type) :=
| Ok (a : A)
| Throw (e : string).
Arguments Ok {A} a.
Arguments Throw {A} e.

(** A JavaScript value passed as the topic. *)
Inductive js_value :=
| VUndefined
| VNull
| VBool (b : bool)
| VNum (n : Q)
| VStr (s : string)
| VObj (fields : list (string * Json.json)).

(** What the synthesis transport is sent: the prompt is a text template
    over the context. *)
Inductive Prompt :=
| AnalysisPrompt (ctx : Context.t)
| ReportPrompt (ctx : Context.t).

(** The capabilities held in [this.plugins], each absent or an opaque
    implementation that reads the clock and may throw, and the HTTP
    transport behind [queryLLM]. *)
Record Plugins := {
  search : option (Z -> string -> list (string * Json.json) -> result (list Source.t));
  analysis : option (Z -> Content.t -> string -> result Analysis.t);
  verification : option (Z -> Context.t -> result VerificationPlugin.Verification);
  citation : option (Z -> list Result.t -> string -> result (list Citation.t));
  http_post : Z -> Prompt -> result string;
}.

Inductive Capability := Search | Analyze | Verify | Cite | Synthesize.

(** What a call leaves in the trace: the events it emits and the
    capability invocations it makes, with the error of those that threw. *)
Inductive Event :=
| Emitted (name : string)
| Invoked (cap : Capability) (failure : option string).

Record CacheEntry := {
  data : Context.t;
  timestamp : Z;
}.

(** The parsed content of a file of the cache or result directory. *)
Inductive FileBody :=
| Unparsable
| CacheFile (data : Context.t) (timestamp : Z)
| ResultFile (ctx : Context.t).

Record HistoryEntry := {
  h_id : nat;
  h_topic : string;
  h_timestamp : Z;
  h_results : Context.t;
}.

(** The agent's mutable state and its environment. *)
Record World := {
  now : Z;
  cache : gmap string CacheEntry;
  disk : gmap string FileBody;
  disk_writable : bool;
  researchHistory : list HistoryEntry;
  next_id : nat;
  trace : list Event;
}.

Definition set_cache (c : gmap string CacheEntry) (w : World) : World :=
  {| now := now w; cache := c; disk := disk w; disk_writable := disk_writable w;
     researchHistory := researchHistory w; next_id := next_id w; trace := trace w |}.
Definition set_disk (d : gmap string FileBody) (w : World) : World :=
  {| now := now w; cache := cache w; disk := d; disk_writable := disk_writable w;
     researchHistory := researchHistory w; next_id := next_id w; trace := trace w |}.
Definition set_history (h : list HistoryEntry) (w : World) : World :=
  {| now := now w; cache := cache w; disk := disk w; disk_writable := disk_writable w;
     researchHistory := h; next_id := next_id w; trace := trace w |}.
Definition set_next_id (n : nat) (w : World) : World :=
  {| now := now w; cache := cache w; disk := disk w; disk_writable := disk_writable w;
     researchHistory := researchHistory w; next_id := n; trace := trace w |}.
Definition record (e : Event) (w : World) : World :=
  {| now := now w; cache := cache w; disk := disk w; disk_writable := disk_writable w;
     researchHistory := researchHistory w; next_id := next_id w;
     trace := trace w ++ [e] |}.

(** *** The monad of calls: state and exceptions *)

Definition M (A : Type) : Type := World -> result A * World.

#[export] Instance M_ret : MRet M := fun A a w => (Ok a, w).
#[export] Instance M_bind : MBind M := fun A B k m w =>
  match m w with
  | (Ok a, w') => k a w'
  | (Throw e, w') => (Throw e, w')
  end.

Definition throw {A} (e : string) : M A := fun w => (Throw e, w).

(** [try { body } catch (error) { handler }] *)
Definition try_catch {A} (body : M A) (handler : string -> M A) : M A := fun w =>
  match body w with
  | (Ok a, w') => (Ok a, w')
  | (Throw e, w') => handler e w'
  end.

Definition modify (f : World -> World) : M unit := fun w => (Ok tt, f w).

Definition emit (name : string) : M unit := modify (record (Emitted name)).

(** The invocation of a capability: the call is recorded with its outcome. *)
Definition invoke {A} (cap : Capability) (call : Z -> result A) : M A := fun w =>
  match call (now w) with
  | Ok a => (Ok a, record (Invoked cap None) w)
  | Throw e => (Throw e, record (Invoked cap (Some e)) w)
  end.

Definition clock : M Z := fun w => (Ok (now w), w).
Definition uuidv4 : M nat := fun w => (Ok (next_id w), set_next_id (S (next_id w)) w).

(** *** Files *)

Definition path_join (dir name : string) : string := dir +:+ "/" +:+ name.

Definition readFile (path : string) : M FileBody := fun w =>
  match disk w !! path with
  | Some body => (Ok body, w)
  | None => (Throw "ENOENT", w)
  end.

Definition writeFile (path : string) (body : FileBody) : M unit := fun w =>
  if disk_writable w then (Ok tt, set_disk (<[path := body]> (disk w)) w)
  else (Throw "EACCES", w).

Definition unlink (path : string) : M unit := fun w =>
  if disk_writable w then (Ok tt, set_disk (delete path (disk w)) w)
  else (Throw "EACCES", w).

Section Agent.

Variable config : Config.t.
Variable plugins : Plugins.

(** *** Cache *)

Definition generateCacheKey (topic : string) (options : Json.json) : string :=
  let stringifiedOptions := Json.stringify options in
  topic +:+ "_" +:+ stringifiedOptions.

Definition cacheFileOf (cacheKey : string) : string :=
  path_join (Config.cacheDir config) (cacheKey +:+ ".json").

(** [Date.now() - t < cacheTtl * 1000] *)
Definition fresh (now t : Z) : bool := (now - t <? Config.cacheTtl config * 1000)%Z.

(** The in-memory tier: a fresh entry is returned, an expired one is
    deleted. *)
Definition memoryLookup (cacheKey : string) : M (option Context.t) := fun w =>
  match cache w !! cacheKey with
  | Some cached =>
      if fresh (now w) (timestamp cached) then (Ok (Some (data cached)), w)
      else (Ok None, set_cache (delete cacheKey (cache w)) w)
  | None => (Ok None, w)
  end.

(** The file tier: the [try] block of [getCachedResult]. *)
Definition fileLookup (cacheKey : string) : M (option Context.t) :=
  try_catch
    (let cacheFile := cacheFileOf cacheKey in
     body ← readFile cacheFile;
     t ← clock;
     match body with
     | Unparsable => throw "SyntaxError"
     | CacheFile d ts =>
         if fresh t ts then mret (Some d)
         else unlink cacheFile ;; mret None
     | ResultFile _ => unlink cacheFile ;; mret None
     end)
    (fun _ => mret None).

Definition getCachedResult (cacheKey : string) : M (option Context.t) :=
  hit ← memoryLookup cacheKey;
  match hit with
  | Some d => mret (Some d)
  | None => if Config.cacheEnabled config then fileLookup cacheKey else mret None
  end.

Definition setCachedResult (cacheKey : string) (d : Context.t) : M unit :=
  t ← clock;
  modify (fun w => set_cache (<[cacheKey := {| data := d; timestamp := t |}]> (cache w)) w) ;;
  if Config.cacheEnabled config then
    try_catch (writeFile (cacheFileOf cacheKey) (CacheFile d t)) (fun _ => mret tt)
  else mret tt.

Definition persistResults (researchContext : Context.t) : M unit :=
  try_catch
    (t ← clock;
     let filename := "research_" +:+ Config.sessionId config +:+ "_" +:+ pretty t +:+ ".json" in
     writeFile (path_join (Config.resultStoragePath config) filename) (ResultFile researchContext))
    (fun _ => mret tt).

(** *** Stages *)

Definition fallbackSearch (topic : string) : M (list Source.t) :=
  i ← uuidv4;
  mret [ {| Source.id := i;
            Source.title := Some ("General search results for: " +:+ topic);
            Source.url := "#";
            Source.snippet := Some ("Search results for " +:+ topic);
            Source.source := "fallback";
            Source.quality := Some 0.8%Q;
            Source.relevance := Some 0.9%Q |} ].

Definition performSearch (topic : string) (options : list (string * Json.json))
    : M (list Source.t) :=
  match search plugins with
  | Some searchPlugin => invoke Search (fun t => searchPlugin t topic options)
  | None => fallbackSearch topic
  end.

(** [extractContent] returns an object; [None] stands for a falsy
    return value, which the caller tests for. *)
Definition extractContent (source : Source.t) : M (option Content.t) :=
  t ← clock;
  mret (Some {| Content.title := Js.or_else (Source.title source) "Untitled";
                Content.content := Js.or_else (Source.snippet source) "Content not available";
                Content.url := Source.url source;
                Content.extractedAt := t |}).

Definition analyzeContent (content : Content.t) (topic : string) : M Analysis.t :=
  match analysis plugins with
  | Some analysisPlugin => invoke Analyze (fun t => analysisPlugin t content topic)
  | None =>
      mret {| Analysis.relevance := Some 0.8%Q;
              Analysis.sentiment := Some "neutral";
              Analysis.topics := [topic];
              Analysis.quality := Some 0.7%Q;
              Analysis.bias := None;
              Analysis.readability := None |}
  end.

Definition verifyInformation (researchContext : Context.t)
    : M VerificationPlugin.Verification :=
  match verification plugins with
  | Some verificationPlugin =>
      invoke Verify (fun t => verificationPlugin t researchContext)
  | None =>
      mret {| VerificationPlugin.status := "not_verified";
              VerificationPlugin.confidence := 0.5%Q;
              VerificationPlugin.cross_references := [];
              VerificationPlugin.fact_checks := [];
              VerificationPlugin.credibility_scores := [] |}
  end.

(** [queryLLM] returns an object whose only property is [content]. *)
Definition queryLLM (prompt : Prompt) : M string :=
  if Js.truthy_str (Config.apiKey config) then
    if String.eqb (Config.provider config) "openai"
    then invoke Synthesize (fun t => http_post plugins t prompt)
    else throw ("Unsupported LLM provider: " +:+ Config.provider config)
  else throw "API key is required for LLM queries".

Definition generateAnalysis (researchContext : Context.t) : M Synthesis.t :=
  try_catch
    (llmResponse ← queryLLM (AnalysisPrompt researchContext);
     t ← clock;
     mret {| Synthesis.summary := EmptyString;
             Synthesis.keyPoints := [];
             Synthesis.trends := [];
             Synthesis.gaps := [];
             Synthesis.generatedAt := t |})
    (fun _ =>
       t ← clock;
       mret {| Synthesis.summary := "Analysis could not be generated";
               Synthesis.keyPoints := [];
               Synthesis.trends := [];
               Synthesis.gaps := [];
               Synthesis.generatedAt := t |}).

Definition generateCitations (results : list Result.t) : M (list Citation.t) :=
  match citation plugins with
  | Some citationPlugin =>
      invoke Cite (fun t => citationPlugin t results (Config.citationStyle config))
  | None =>
      t ← clock;
      mret (map (fun r => {| Citation.title := Source.title (Result.source r);
                             Citation.url := Source.url (Result.source r);
                             Citation.style := None;
                             Citation.generatedAt := t |})
                results)
  end.

Definition generateReport (researchContext : Context.t) : M Report.t :=
  let format := Json.field "format" (Context.options researchContext) in
  try_catch
    (llmResponse ← queryLLM (ReportPrompt researchContext);
     citations ← generateCitations (Context.results researchContext);
     t ← clock;
     mret {| Report.content := llmResponse;
             Report.citations := citations;
             Report.format := format;
             Report.generatedAt := t |})
    (fun _ =>
       t ← clock;
       mret {| Report.content := "Report could not be generated";
               Report.citations := [];
               Report.format := format;
               Report.generatedAt := t |}).

(** *** The research call *)

(** The loop over the sources: [results] is the array pushed to. *)
Fixpoint analyzeSources (topic : string) (sources : list Source.t)
    (results : list Result.t) : M (list Result.t) :=
  match sources with
  | [] => mret results
  | source :: rest =>
      sourceContent ← extractContent source;
      match sourceContent with
      | Some c =>
          a ← analyzeContent c topic;
          analyzeSources topic rest
            (results ++ [ {| Result.source := source;
                             Result.content := c;
                             Result.analysis := Some a |} ])
      | None => analyzeSources topic rest results
      end
  end.

Definition validate (topic : js_value) : M string :=
  match topic with
  | VStr s =>
      if Js.truthy_str s then mret s
      else throw "Research topic must be a non-empty string"
  | _ => throw "Research topic must be a non-empty string"
  end.

Definition pushHistory (topic : string) (researchContext : Context.t) : M unit :=
  i ← uuidv4;
  t ← clock;
  modify (fun w =>
            set_history (researchHistory w ++
                           [ {| h_id := i; h_topic := topic; h_timestamp := t;
                                h_results := researchContext |} ]) w).

(** The call from the preparation of the context onwards, once the cache
    has missed. *)
Definition runPipeline (topic : string) (options : list (string * Json.json))
    (cacheKey : string) : M Context.t :=
  let merged := Json.spread (Config.customization config) options in
  searchResults ← performSearch topic options;
  results ← analyzeSources topic (Js.slice0 searchResults (Config.maxSources config)) [];
  verification ←
    (if Config.verificationEnabled config then
       v ← verifyInformation
             {| Context.topic := topic; Context.options := merged;
                Context.results := results; Context.sources := searchResults;
                Context.analysis := None; Context.citations := [];
                Context.verification := None; Context.report := None |};
       mret (Some v)
     else mret None);
  analysis ← generateAnalysis
               {| Context.topic := topic; Context.options := merged;
                  Context.results := results; Context.sources := searchResults;
                  Context.analysis := None; Context.citations := [];
                  Context.verification := verification; Context.report := None |};
  report ← generateReport
             {| Context.topic := topic; Context.options := merged;
                Context.results := results; Context.sources := searchResults;
                Context.analysis := Some analysis; Context.citations := [];
                Context.verification := verification; Context.report := None |};
  let researchContext :=
    {| Context.topic := topic; Context.options := merged;
       Context.results := results; Context.sources := searchResults;
       Context.analysis := Some analysis; Context.citations := [];
       Context.verification := verification; Context.report := Some report |} in
  pushHistory topic researchContext ;;
  (if Config.cacheEnabled config then setCachedResult cacheKey researchContext
   else mret tt) ;;
  (if Config.persistResults config then persistResults researchContext
   else mret tt) ;;
  emit "research:complete" ;;
  mret researchContext.

Definition research (topic : js_value) (options : list (string * Json.json))
    : M Context.t :=
  emit "research:start" ;;
  try_catch
    (topic ← validate topic;
     let cacheKey := generateCacheKey topic (Json.JObj options) in
     cachedResult ←
       (if Config.cacheEnabled config then getCachedResult cacheKey else mret None);
     match cachedResult with
     | Some cached => emit "research:cache-hit" ;; mret cached
     | None => runPipeline topic options cacheKey
     end)
    (fun error => emit "research:error" ;; throw error).

End Agent.

End ResearchAgent.

(** ** The design document's wording, for comparison with the code *)

Module Documented.
Import VerificationPlugin ResearchAgent.

(** Deduplication by equality of the pair (url, title), the first
    occurrence winning. *)
Fixpoint dedup_by_pair (seen : gset (string * option string))
    (results : list Source.t) : list Source.t :=
  match results with
  | [] => []
  | result :: rest =>
      if bool_decide ((Source.url result, Source.title result) ∈ seen)
      then dedup_by_pair seen rest
      else result :: dedup_by_pair ({[(Source.url result, Source.title result)]} ∪ seen) rest
  end.

(** Two results clash when they share a URL or share a title. *)
Definition clash (a b : Source.t) : Prop :=
  Source.url a = Source.url b ∨ Source.title a = Source.title b.

#[export] Instance clash_dec a b : Decision (clash a b).
Proof. unfold clash. apply _. Defined.

Definition urls (l : list Source.t) : gset string :=
  list_to_set (Source.url <$> l).
Definition titles (l : list Source.t) : gset (option string) :=
  list_to_set (Source.title <$> l).

(** The references kept under a key of the claims map, none when the key
    is absent. *)
Fixpoint claim_refs (k : string) (claimsMap : list (string * list ClaimRef))
    : list ClaimRef :=
  match claimsMap with
  | [] => []
  | (k', rs) :: rest => if String.eqb k' k then rs else claim_refs k rest
  end.

(** The occurrences of a normalised claim in one analysed result, and in
    all of them, in reading order: one reference for each sentence that
    normalises to the claim. *)
Definition occurrences_in (k : string) (result : Result.t) : list ClaimRef :=
  map (fun sentence =>
         {| ref_source := Source.title (Result.source result);
            ref_url := Source.url (Result.source result);
            ref_content := sentence |})
      (filter (fun sentence => normalizeClaim sentence = k)
              (sentences (Content.content (Result.content result)))).

Definition occurrences (k : string) (results : list Result.t) : list ClaimRef :=
  flat_map (occurrences_in k) results.

(** A claims map with one entry for each key, none of them empty. *)
Definition well_formed (claimsMap : list (string * list ClaimRef)) : Prop :=
  NoDup (fst <$> claimsMap) ∧ Forall (fun kv => snd kv ≠ []) claimsMap.

(** The mean of the credibility scores, 0.5 when there is none. *)
Definition mean_credibility (scores : list Credibility) : Q :=
  match scores with
  | [] => 0.5%Q
  | _ => (foldr (fun s acc => credibility s + acc) 0 scores
          / inject_Z (Z.of_nat (length scores)))%Q
  end.

Definition confidence_formula (crossReferenceCount : nat) (mean : Q) : Q :=
  (0.6 * Qmin 1 (inject_Z (Z.of_nat crossReferenceCount) * 0.3) + 0.4 * mean)%Q.










(** The memory tier does not serve the key: it holds nothing under it, or
    an entry that has expired. *)
Definition memory_miss (config : Config.t) (w : World) (cacheKey : string) : Prop :=
  match cache w !! cacheKey with
  | Some entry => fresh config (now w) (timestamp entry) = false
  | None => True
  end.

(** A topic that input validation refuses: not a string, or the empty
    string. *)
Definition invalid_topic (topic : js_value) : Prop :=
  match topic with
  | VStr s => s = EmptyString
  | _ => True
  end.
End Documented.

(** ** The confidence on IEEE doubles *)

Module Binary64.
(** [calculateOverallConfidence] once more, on the binary64 numbers that
    the program computes with, to check the rational model on the
    documented examples. *)
(** The double of a length: lengths are far below 2^53, where counting up
    by one is exact. *)
Definition of_nat (n : nat) : float := Nat.iter n (fun x => x + 1)%float 0%float.

(** [Math.min] on two numbers that are not NaN. *)
Definition min (x y : float) : float := if PrimFloat.ltb y x then y else x.

Definition overallConfidence (cross_references : nat) (credibility_scores : list float)
    : float :=
  let crossRefConfidence := min 1 (of_nat cross_references * 0.3)%float in
  let avgCredibility :=
    if (0 <? length credibility_scores)%nat
    then (fold_left (fun sum score => sum + score) credibility_scores 0
          / of_nat (length credibility_scores))%float
    else 0.5%float in
  (crossRefConfidence * 0.6 + avgCredibility * 0.4)%float.
End Binary64.

(** ** Traces of a call *)

Module TraceLogic.
Import ResearchAgent.

(** The capabilities whose invocation the orchestrator does not guard. *)
Definition fatal (cap : Capability) : bool :=
  match cap with
  | Search | Analyze | Verify => true
  | Cite | Synthesize => false
  end.

Definition failure_of (ev : Event) : option string :=
  match ev with
  | Invoked cap (Some e) => if fatal cap then Some e else None
  | _ => None
  end.

(** The errors of the unguarded invocations recorded in a trace. *)
Definition failures (events : list Event) : list string := omap failure_of events.

(** A computation only extends the trace, and records no unguarded
    failure. *)
Definition quiet {A} (c : M A) : Prop :=
  ∀ w r w', c w = (r, w') →
    ∃ new, trace w' = trace w ++ new ∧ failures new = [].

(** A computation only extends the trace, and fails with the error of
    every unguarded failure it records. *)
Definition sound {A} (c : M A) : Prop :=
  ∀ w r w', c w = (r, w') →
    ∃ new, trace w' = trace w ++ new ∧ ∀ e, e ∈ failures new → r = Throw e.
End TraceLogic.

(** ** Sample data *)

Module Samples.
Import VerificationPlugin ResearchAgent.

Definition src (i : nat) (t u : string) : Source.t :=
  {| Source.id := i; Source.title := Some t; Source.url := u;
     Source.snippet := None; Source.source := "google";
     Source.quality := Some 0.8%Q; Source.relevance := Some 0.9%Q |}.

Definition analysed (s : Source.t) (text : string) (a : option Analysis.t) : Result.t :=
  {| Result.source := s;
     Result.content := {| Content.title := Js.or_else (Source.title s) "Untitled";
                          Content.content := text;
                          Content.url := Source.url s;
                          Content.extractedAt := 0 |};
     Result.analysis := a |}.

Definition scores (q r : Q) (b : string) : Analysis.t :=
  {| Analysis.relevance := Some 0.8%Q; Analysis.sentiment := Some "neutral";
     Analysis.topics := []; Analysis.quality := Some q;
     Analysis.bias := Some b; Analysis.readability := Some r |}.

(** One source that states the same sentence twice. *)
Definition repeated : Result.t :=
  analysed (src 1 "Solar" "https://energy.gov/solar")
    "Solar power is growing fast. Solar power is growing fast!" None.

(** Two results with the same URL under different titles. *)
Definition solar : Source.t := src 1 "Solar" "https://energy.gov/report".
Definition wind : Source.t := src 2 "Wind" "https://energy.gov/report".




Definition persona_first : Json.json :=
  Json.JObj [("persona", Json.JStr "analyst"); ("tone", Json.JStr "casual")].
Definition tone_first : Json.json :=
  Json.JObj [("tone", Json.JStr "casual"); ("persona", Json.JStr "analyst")].

Definition config : Config.t :=
  {| Config.sessionId := "s1"; Config.cacheEnabled := true; Config.cacheTtl := 3600;
     Config.cacheDir := "./cache"; Config.persistResults := true;
     Config.resultStoragePath := "./results"; Config.maxSources := 5;
     Config.verificationEnabled := true; Config.citationStyle := "apa";
     Config.provider := "openai"; Config.apiKey := "key";
     Config.customization := [("persona", Json.JStr "academic-researcher")] |}.

Definition no_plugins : Plugins :=
  {| search := None; analysis := None; verification := None; citation := None;
     http_post := fun _ _ => Ok "text" |}.

Definition failing_search : Plugins :=
  {| search := Some (fun _ _ _ => Throw "search backend down");
     analysis := None; verification := None; citation := None;
     http_post := fun _ _ => Ok "text" |}.

Definition empty_world : World :=
  {| now := 1000; cache := ∅; disk := ∅; disk_writable := true;
     researchHistory := []; next_id := 0; trace := [] |}.

Definition cached_context : Context.t :=
  {| Context.topic := "solar"; Context.options := []; Context.results := [];
     Context.sources := []; Context.analysis := None; Context.citations := [];
     Context.verification := None; Context.report := None |}.

(** A world whose memory tier is empty and whose file tier holds a fresh
    entry for the key [solar_{}]. *)
Definition durable_world : World :=
  {| now := 1000; cache := ∅;
     disk := {[ cacheFileOf config "solar_{}" := CacheFile cached_context 900 ]};
     disk_writable := true; researchHistory := []; next_id := 0; trace := [] |}.
End Samples.

(** ** What a call leaves behind *)

Module Frames.
Import ResearchAgent.

(** The names of the events emitted in a trace, in order. *)
Definition emission_of (ev : Event) : option string :=
  match ev with
  | Emitted name => Some name
  | Invoked _ _ => None
  end.
Definition emissions (events : list Event) : list string := omap emission_of events.

(** From one world to a later one nothing was stored: the history is the
    same, and the memory tier and the files gained no entry. *)
Definition shrinks (w w' : World) : Prop :=
  researchHistory w' = researchHistory w ∧ cache w' ⊆ cache w ∧ disk w' ⊆ disk w.

(** Nothing was stored and nothing was emitted, and the environment (the
    clock, the permissions of the files) is the same. *)
Definition steady (w w' : World) : Prop :=
  now w' = now w ∧ disk_writable w' = disk_writable w ∧ shrinks w w' ∧
  ∃ new, trace w' = trace w ++ new ∧ emissions new = [].

(** Every run of a computation relates the world before to the world
    after. *)
Definition respects (R : World → World → Prop) {A} (c : M A) : Prop :=
  ∀ w r w', c w = (r, w') → R w w'.

(** A computation that never throws. *)
Definition safe {A} (c : M A) : Prop := ∀ w, ∃ a w', c w = (Ok a, w').

(** Capabilities that do not throw: the search, analysis and verification
    plugins, where installed, return a value on every call. *)
Definition reliable (plugins : Plugins) : Prop :=
  (∀ f, search plugins = Some f → ∀ t topic options, ∃ r, f t topic options = Ok r) ∧
  (∀ f, analysis plugins = Some f → ∀ t c topic, ∃ r, f t c topic = Ok r) ∧
  (∀ f, verification plugins = Some f → ∀ t ctx, ∃ r, f t ctx = Ok r).

(** A configuration under which [queryLLM] throws before any request:
    no API key, or a provider other than [openai]. *)
Definition synthesis_unavailable (config : Config.t) : Prop :=
  Config.apiKey config = EmptyString ∨ Config.provider config ≠ "openai".

(** A file that cannot be used as a cache entry: absent, or not JSON. *)
Definition unreadable (body : option FileBody) : Prop :=
  body = None ∨ body = Some Unparsable.

(** The world after [elapsed] milliseconds in which the agent did nothing. *)
Definition advance (elapsed : Z) (w : World) : World :=
  {| now := now w + elapsed; cache := cache w; disk := disk w;
     disk_writable := disk_writable w; researchHistory := researchHistory w;
     next_id := next_id w; trace := trace w |}.


(** The file [persistResults] writes at time [t]. *)
Definition resultFileOf (config : Config.t) (t : Z) : string :=
  path_join (Config.resultStoragePath config)
            ("research_" +:+ Config.sessionId config +:+ "_" +:+ pretty t +:+ ".json").

(** What [generateAnalysis] and [generateReport] return from their
    [catch] blocks. *)
Definition failedAnalysis (t : Z) : Synthesis.t :=
  {| Synthesis.summary := "Analysis could not be generated";
     Synthesis.keyPoints := []; Synthesis.trends := []; Synthesis.gaps := [];
     Synthesis.generatedAt := t |}.
Definition failedReport (format : option Json.json) (t : Z) : Report.t :=
  {| Report.content := "Report could not be generated";
     Report.citations := [];
     Report.format := format;
     Report.generatedAt := t |}.

Section Course.
Variable config : Config.t.
Variable plugins : Plugins.

(** The three courses of a research call: served from the cache, computed
    by the pipeline, or failed before anything was stored. *)
Inductive course (topic : js_value) (options : list (string * Json.json))
    (w : World) : result Context.t → World → Prop :=
| Served t w1 d :
    topic = VStr t → Js.truthy_str t = true →
    Config.cacheEnabled config = true →
    getCachedResult config (generateCacheKey t (Json.JObj options))
      (record (Emitted "research:start") w) = (Ok (Some d), w1) →
    course topic options w (Ok d) (record (Emitted "research:cache-hit") w1)
| Computed t w1 ctx w' :
    topic = VStr t → Js.truthy_str t = true →
    steady (record (Emitted "research:start") w) w1 →
    runPipeline config plugins t options (generateCacheKey t (Json.JObj options)) w1
      = (Ok ctx, w') →
    course topic options w (Ok ctx) w'
| Failed e w1 :
    steady (record (Emitted "research:start") w) w1 →
    course topic options w (Throw e) (record (Emitted "research:error") w1).
End Course.
End Frames.

(** ** Sample calls *)

Module Scenarios.
Import ResearchAgent.

(** A search capability that returns one source. *)
Definition one_source : Plugins :=
  {| search := Some (fun _ topic _ => Ok [Samples.src 1 topic "https://energy.gov/solar"]);
     analysis := None; verification := None; citation := None;
     http_post := fun _ _ => Ok "text" |}.

(** The configuration of the samples without an API key. *)
Definition offline_config : Config.t :=
  {| Config.sessionId := "s1"; Config.cacheEnabled := true; Config.cacheTtl := 3600;
     Config.cacheDir := "./cache"; Config.persistResults := true;
     Config.resultStoragePath := "./results"; Config.maxSources := 5;
     Config.verificationEnabled := true; Config.citationStyle := "apa";
     Config.provider := "openai"; Config.apiKey := EmptyString;
     Config.customization := [("persona", Json.JStr "academic-researcher")] |}.

(** An agent whose directories cannot be written. *)
Definition read_only_world : World :=
  {| now := 1000; cache := ∅; disk := ∅; disk_writable := false;
     researchHistory := []; next_id := 0; trace := [] |}.

(** A first call on an empty agent. *)
Definition first_call : result Context.t * World :=
  research Samples.config one_source (VStr "solar") [] Samples.empty_world.

(** The same call without an API key. *)
Definition offline_call : result Context.t * World :=
  research offline_config one_source (VStr "solar") [] Samples.empty_world.

(** A call whose search capability throws. *)
Definition failed_call : result Context.t * World :=
  research Samples.config Samples.failing_search (VStr "solar") [] Samples.empty_world.

(** A call on an agent whose cache directory holds a fresh entry. *)
Definition served_call : result Context.t * World :=
  research Samples.config one_source (VStr "solar") [] Samples.durable_world.
End Scenarios.

(** ** The search capability: ranking, engines and the quality threshold *)

Module Ranking.

(** [x || d] for an optional numeric property [x]: an absent property and
    the number 0 both give the default. *)
Definition num_or (x : option Q) (d : Q) : Q :=
  match x with
  | Some q => if Js.truthy_num q then q else d
  | None => d
  end.

(** The score that the comparator of [rankResults] computes for a result. *)
Definition score (a : Source.t) : Q :=
  (num_or (Source.relevance a) 0.5 * 0.6 + num_or (Source.quality a) 0.5 * 0.4)%Q.

(** [results.sort((a, b) => bScore - aScore)]: a stable sort, larger
    scores first. *)
Fixpoint insert_by_score (x : Source.t) (l : list Source.t) : list Source.t :=
  match l with
  | [] => [x]
  | y :: l' =>
      if Qlt_le_dec (score x) (score y) then y :: insert_by_score x l'
      else x :: y :: l'
  end.

Definition rankResults (results : list Source.t) (topic : string) : list Source.t :=
  foldr insert_by_score [] results.

(** [result.quality >= threshold]: false when the quality is absent. *)
Definition meets (threshold : Q) (result : Source.t) : bool :=
  match Source.quality result with
  | Some q => Qle_bool threshold q
  | None => false
  end.


(** The results that have a given score, in order. *)
Definition scored (q : Q) (l : list Source.t) : list Source.t :=
  filter (fun r => Qeq_bool (score r) q = true) l.

End Ranking.

Module Engines.
Import ResearchAgent.

(** A search engine: an asynchronous function of the topic and the
    options, which reads the clock and may throw. *)
Definition Engine : Type :=
  Z → string → list (string * Json.json) → result (list Source.t).

(** The four engines that [initSearchEngines] knows by name. *)
Record Supported := {
  googleSearch : Engine;
  semanticScholarSearch : Engine;
  arxivSearch : Engine;
  pubmedSearch : Engine;
}.

Definition engine_of (impl : Supported) (engine : string) : option Engine :=
  if String.eqb engine "google" then Some (googleSearch impl)
  else if String.eqb engine "semantic_scholar" then Some (semanticScholarSearch impl)
  else if String.eqb engine "arxiv" then Some (arxivSearch impl)
  else if String.eqb engine "pubmed" then Some (pubmedSearch impl)
  else None.

(** [Map.prototype.set] on a [Map] kept as the list of its entries in
    insertion order: a key that is present keeps its place. *)
Fixpoint map_set {V} (m : list (string * V)) (k : string) (v : V) : list (string * V) :=
  match m with
  | [] => [(k, v)]
  | (k', v') :: rest =>
      if String.eqb k' k then (k', v) :: rest else (k', v') :: map_set rest k v
  end.

(** [initSearchEngines]: the engines named in [config.research.searchEngines]
    are registered in order; an unsupported name is skipped with a warning. *)
Definition initSearchEngines (impl : Supported) (searchEngines : list string)
    : list (string * Engine) :=
  fold_left
    (fun m engine =>
       match engine_of impl engine with
       | Some f => map_set m engine f
       | None => m
       end)
    searchEngines [].

(** An engine that returns on a query. *)
Definition returns (topic : string) (options : list (string * Json.json)) (t : Z)
    (entry : string * Engine) : bool :=
  match entry.2 t topic options with
  | Ok _ => true
  | Throw _ => false
  end.

(** The loop of [search]: the results of every engine that returns are
    appended; an engine that throws is logged and contributes nothing. *)
Definition gather (engines : list (string * Engine)) (t : Z) (topic : string)
    (options : list (string * Json.json)) : list Source.t :=
  flat_map
    (fun '(engineName, engine) =>
       match engine t topic options with
       | Ok engineResults => engineResults
       | Throw _ => []
       end)
    engines.

(** [search], for the value [resultQualityThreshold] of the configuration. *)
Definition search (resultQualityThreshold : Q) (engines : list (string * Engine))
    (t : Z) (topic : string) (options : list (string * Json.json))
    : result (list Source.t) :=
  let results := gather engines t topic options in
  let uniqueResults := SearchPlugin.deduplicateResults results in
  let rankedResults := Ranking.rankResults uniqueResults topic in
  Ok (filter (fun result => Ranking.meets resultQualityThreshold result = true)
             rankedResults).

(** The agent's capabilities with this search plugin loaded. *)
Definition with_search (resultQualityThreshold : Q) (engines : list (string * Engine))
    (plugins : Plugins) : Plugins :=
  {| ResearchAgent.search := Some (search resultQualityThreshold engines);
     analysis := analysis plugins;
     verification := verification plugins;
     citation := citation plugins;
     http_post := http_post plugins |}.
End Engines.

(** ** The analysis capability *)

(** The heuristics of [AnalysisPlugin], each on the text that
    [extractTextFromContent] returns for the content it is given. *)
Module AnalysisPlugin.

(** [text.split(/\s+/)] *)
Definition words (text : string) : list string := Js.split Js.is_space text.

(** [contentWords.some(contentWord => contentWord.includes(word) ||
    word.includes(contentWord))] *)
Definition matchesWord (contentWords : list string) (word : string) : bool :=
  existsb (fun contentWord => Js.includes contentWord word || Js.includes word contentWord)
          contentWords.

(** The number of words that contain an entry of a lexicon. *)
Definition countMatching (lexicon : list string) (ws : list string) : nat :=
  length (filter (fun word => existsb (Js.includes word) lexicon = true) ws).

(** [count / Math.max(total, 1)] *)
Definition ratio (count total : nat) : Q :=
  (inject_Z (Z.of_nat count) / inject_Z (Z.of_nat (Nat.max total 1)))%Q.

Definition calculateRelevance (contentText topic : string) : Q :=
  let topicWords := words (Js.toLowerCase topic) in
  let contentWords := words (Js.toLowerCase contentText) in
  let matches :=
    length (filter (fun word => matchesWord contentWords word = true) topicWords) in
  Qmin 1 (ratio matches (length topicWords)).

Definition positiveWords : list string :=
  ["good"; "excellent"; "positive"; "beneficial"; "effective"; "successful";
   "improved"; "significant"].
Definition negativeWords : list string :=
  ["bad"; "poor"; "negative"; "harmful"; "ineffective"; "failed"; "worse";
   "problematic"].

Definition performSentimentAnalysis (text : string) : string :=
  let ws := words (Js.toLowerCase text) in
  let positiveCount := countMatching positiveWords ws in
  let negativeCount := countMatching negativeWords ws in
  if (negativeCount <? positiveCount)%nat then "positive"
  else if (positiveCount <? negativeCount)%nat then "negative"
  else "neutral".

(** [/(?:a|b|...)/i.test(text)] for lower-case alternatives: on 8-bit code
    units a letter of the pattern matches itself and its capital. *)
Definition test_i (alternatives : list string) (text : string) : bool :=
  existsb (Js.includes (Js.toLowerCase text)) alternatives.

Definition citationWords : list string :=
  ["reference"; "citation"; "source"; "study"; "research"; "journal"; "paper";
   "author"].
Definition structureWords : list string :=
  ["introduction"; "methodology"; "results"; "conclusion"; "abstract";
   "literature review"].

Definition assessQuality (text : string) : Q :=
  let wordCount := length (words text) in
  let hasCitations := test_i citationWords text in
  let hasStructure := test_i structureWords text in
  let quality := 0.5%Q in
  let quality := if (100 <? wordCount)%nat then (quality + 0.2)%Q else quality in
  let quality := if (500 <? wordCount)%nat then (quality + 0.1)%Q else quality in
  let quality := if hasStructure then (quality + 0.15)%Q else quality in
  let quality := if hasCitations then (quality + 0.15)%Q else quality in
  Qmin 1 quality.

Definition biasIndicators : list string :=
  ["obviously"; "clearly"; "of course"; "naturally"; "undoubtedly";
   "certainly"; "definitely"; "absolutely"; "always"; "never";
   "all"; "every"; "none"; "only"; "just"; "simply"].

(** The classification of [detectBias], for a list of indicators. *)
Definition biasLevel (indicators : list string) (text : string) : string :=
  let ws := words (Js.toLowerCase text) in
  let biasCount := countMatching indicators ws in
  let biasScore := ratio biasCount (length ws) in
  if Qlt_le_dec 0.05 biasScore then "high"
  else if Qlt_le_dec 0.02 biasScore then "medium"
  else "low".

Definition detectBias (text : string) : string := biasLevel biasIndicators text.

(** The three counts that [assessReadability] takes of a text: the
    sentences that are not blank, the words that are not empty, and the
    code units that are not white space. *)
Definition sentenceCount (text : string) : nat :=
  length (filter (fun s => (0 < String.length (Js.trim s))%nat)
                 (Js.split VerificationPlugin.is_terminator text)).
Definition wordCount (text : string) : nat :=
  length (filter (fun w => (0 < String.length w)%nat) (words text)).
Definition characterCount (text : string) : nat :=
  String.length (Js.filter_chars (Js.non Js.is_space) text).

(** The automated readability index of a text. *)
Definition ari (text : string) : Q :=
  (4.71 * (inject_Z (Z.of_nat (characterCount text)) / inject_Z (Z.of_nat (wordCount text)))
   + 0.5 * (inject_Z (Z.of_nat (wordCount text)) / inject_Z (Z.of_nat (sentenceCount text)))
   - 21.43)%Q.

(** [assessReadability]; the syllables it counts first are not used. *)
Definition assessReadability (text : string) : Q :=
  if ((sentenceCount text =? 0) || (wordCount text =? 0))%nat then 0.5%Q
  else Qmax 0 (Qmin 1 ((13 - ari text) / 13))%Q.

(** A text of which [split] returns an empty word: the empty text, and a
    text that begins or ends with white space. *)
Definition padded (text : string) : Prop :=
  text = EmptyString ∨
  (∃ c rest, text = String c rest ∧ Js.is_space c = true) ∨
  (∃ front c, text = front +:+ String c EmptyString ∧ Js.is_space c = true).

(** A word of the text, in lower case, contains one of the indicators. *)
Definition loaded (text : string) : Prop :=
  ∃ word indicator,
    word ∈ words (Js.toLowerCase text) ∧ indicator ∈ biasIndicators ∧
    Js.includes word indicator = true.

End AnalysisPlugin.

(** ** The verification capability: shapes of its outcome *)

Module Listing.
Import VerificationPlugin.

(** The code units of a normalised claim: a lower-case letter, a digit, an
    underscore or a space. *)
Definition claim_char (c : ascii) : bool :=
  let n := Js.code c in
  (((48 <=? n) && (n <=? 57)) || ((97 <=? n) && (n <=? 122)) || (n =? 95) || (n =? 32))%nat.

(** A code unit that is not a capital letter, as [toLowerCase] leaves
    them, and one that moreover is no white space other than the space, as
    the replacement of the runs of white space leaves them. *)
Definition lowered (c : ascii) : bool :=
  let n := Js.code c in negb ((65 <=? n) && (n <=? 90))%nat.
Definition folded (c : ascii) : bool :=
  lowered c && (negb (Js.is_space c) || (Js.code c =? 32)%nat).

(** A cross-reference that has at least the count of another. *)
Definition outnumbers (a b : CrossRef) : Prop := (count b ≤ count a)%nat.

(** The cross-references that have a given count, in order. *)
Definition counted (n : nat) (l : list CrossRef) : list CrossRef :=
  filter (λ c, count c = n) l.

(** The normalised sentences of the results, in reading order. *)
Definition stated (results : list Result.t) : list string :=
  flat_map (λ result, normalizeClaim <$> sentences (Content.content (Result.content result)))
           results.

(** The distinct entries of a list in the order of their first
    occurrence. *)
Definition see (seen : list string) (k : string) : list string :=
  if bool_decide (k ∈ seen) then seen else seen ++ [k].
Definition first_seen (ks : list string) : list string := fold_left see ks [].

(** A credibility score in the unit interval. *)
Definition bounded (s : Credibility) : Prop := (0 <= credibility s <= 1)%Q.

(** The agent's capabilities with the verification plugin loaded. *)
Definition with_verification (plugins : ResearchAgent.Plugins) : ResearchAgent.Plugins :=
  {| ResearchAgent.search := ResearchAgent.search plugins;
     ResearchAgent.analysis := ResearchAgent.analysis plugins;
     ResearchAgent.verification :=
       Some (fun t researchContext =>
               ResearchAgent.Ok (verify t (Context.results researchContext)));
     ResearchAgent.citation := ResearchAgent.citation plugins;
     ResearchAgent.http_post := ResearchAgent.http_post plugins |}.
End Listing.

(** ** The logger's level filter *)

Module Logger.

(** What [this.levels[name]] evaluates to: the number of one of the four
    levels, [undefined], or a member that the object literal inherits from
    [Object.prototype] (a function, or the prototype itself). *)
Inductive LevelValue :=
| Num (n : nat)
| Undefined
| Inherited.

Definition inherited_names : list string :=
  ["constructor"; "__defineGetter__"; "__defineSetter__"; "hasOwnProperty";
   "__lookupGetter__"; "__lookupSetter__"; "isPrototypeOf";
   "propertyIsEnumerable"; "toString"; "valueOf"; "__proto__"; "toLocaleString"].

Definition levels (name : string) : LevelValue :=
  if String.eqb name "debug" then Num 0
  else if String.eqb name "info" then Num 1
  else if String.eqb name "warn" then Num 2
  else if String.eqb name "error" then Num 3
  else if bool_decide (name ∈ inherited_names) then Inherited
  else Undefined.

(** [this.levels[level] || this.levels.info], of the constructor and of
    [setLevel]: the number 0 is falsy. *)
Definition setLevel (level : string) : LevelValue :=
  match levels level with
  | Num 0 => Num 1
  | Undefined => Num 1
  | v => v
  end.

(** [levelNum < this.currentLevel]: an operand that is not a number
    converts to NaN, and the comparison is false. *)
Definition less (a b : LevelValue) : bool :=
  match a, b with
  | Num x, Num y => (x <? y)%nat
  | _, _ => false
  end.

(** The guard of [log]: whether an entry of the level is written or the
    call returns at once. *)
Definition admits (currentLevel : LevelValue) (level : string) : bool :=
  match levels level with
  | Undefined => false
  | levelNum => negb (less levelNum currentLevel)
  end.

End Logger.

(** ** Sample capabilities and texts *)

Module Loaded.
Import ResearchAgent.

(** Three engines that answer with one source each, two of them with the
    same URL, and one that is down. *)
Definition supported : Engines.Supported :=
  {| Engines.googleSearch :=
       fun _ topic _ => Ok [Samples.src 1 topic "https://energy.gov/solar"];
     Engines.semanticScholarSearch :=
       fun _ topic _ => Ok [Samples.src 2 "Papers" "https://energy.gov/solar"];
     Engines.arxivSearch := fun _ _ _ => Throw "arxiv is down";
     Engines.pubmedSearch :=
       fun _ topic _ => Ok [Samples.src 3 "Articles" "https://pubmed.gov/solar"] |}.

Definition engines : list (string * Engines.Engine) :=
  Engines.initSearchEngines supported
    ["google"; "semantic_scholar"; "arxiv"; "pubmed"; "bing"; "google"].

Definition searching : Plugins := Engines.with_search 0.7 engines Samples.no_plugins.
Definition verifying : Plugins := Listing.with_verification Scenarios.one_source.

(** A call that overrides the persona and asks for a format. *)
Definition briefing : list (string * Json.json) :=
  [("persona", Json.JStr "journalist"); ("format", Json.JStr "brief")].
Definition briefing_call : result Context.t * World :=
  research Samples.config Scenarios.one_source (VStr "solar") briefing Samples.empty_world.

(** A call on an agent without plugins. *)
Definition bare_call : result Context.t * World :=
  research Samples.config Samples.no_plugins (VStr "solar") [] Samples.empty_world.

Definition searching_call : result Context.t * World :=
  research Samples.config searching (VStr "solar") [] Samples.empty_world.
Definition verifying_call : result Context.t * World :=
  research Samples.config verifying (VStr "solar") [] Samples.empty_world.

(** A short text with the indicator [only], and a text of long words. *)
Definition slogan : string := "Solar is the only option".
Definition jargon : string := "Photovoltaic infrastructure.".

(** The analysis that holds the plugin's scores of a text. *)
Definition scores_of (text : string) : Analysis.t :=
  {| Analysis.relevance := Some (AnalysisPlugin.calculateRelevance text "solar");
     Analysis.sentiment := Some (AnalysisPlugin.performSentimentAnalysis text);
     Analysis.topics := ["solar"];
     Analysis.quality := Some (AnalysisPlugin.assessQuality text);
     Analysis.bias := Some (AnalysisPlugin.detectBias text);
     Analysis.readability := Some (AnalysisPlugin.assessReadability text) |}.

Definition scored (text : string) : Result.t :=
  Samples.analysed (Samples.src 1 "Solar" "https://energy.gov/solar") text
    (Some (scores_of text)).
End Loaded.

(** ** The merge of configurations *)

Module Merge.
Import Json.

(** [isObject]: an object that is neither [null] nor an array. *)
Definition isObject (item : json) : bool :=
  match item with
  | JObj _ => true
  | _ => false
  end.

(** The code units of a string, each as a string of length one. *)
Fixpoint units (s : string) : list json :=
  match s with
  | EmptyString => []
  | String c s' => JStr (String c EmptyString) :: units s'
  end.

(** The own enumerable properties that [{ ...value }] copies: the fields
    of an object, the indexed items of an array, the indexed code units of
    a string, and none of another value. *)
Definition own (value : json) : list (string * json) :=
  match value with
  | JObj fields => fields
  | JArr items => imap (fun i item => (pretty i, item)) items
  | JStr s => imap (fun i unit => (pretty i, unit)) (units s)
  | _ => []
  end.

(** A key that names a member of [Object.prototype]: [key in target]
    holds for it in every object, and [__proto__] among them is not
    assigned as a property.  The merge of a source with such a key is
    outside the embedding. *)
Definition inherited (key : string) : bool :=
  bool_decide (key ∈ Logger.inherited_names).

(** [deepMerge]; [None] stands for a source outside the embedding. *)
Fixpoint deepMerge (target source : json) {struct source} : option json :=
  let output := own target in
  match source with
  | JObj entries =>
      match target with
      | JObj fields =>
          (fix forEach (keys : list (string * json)) (output : list (string * json))
             : option json :=
             match keys with
             | [] => Some (JObj output)
             | (key, value) :: rest =>
                 if inherited key then None
                 else
                   match value with
                   | JObj _ =>
                       match field key fields with
                       | None => forEach rest (set_field output key value)
                       | Some under =>
                           match deepMerge under value with
                           | Some merged => forEach rest (set_field output key merged)
                           | None => None
                           end
                       end
                   | _ => forEach rest (set_field output key value)
                   end
             end) entries output
      | _ => Some (JObj output)
      end
  | _ => Some (JObj output)
  end.

(** One step of the [forEach] of [deepMerge]: the assignment that the
    callback makes for an entry of the source. *)
Definition assign (fields : list (string * json))
    (output : option (list (string * json))) (entry : string * json)
    : option (list (string * json)) :=
  match output with
  | None => None
  | Some output =>
      if inherited entry.1 then None
      else if isObject entry.2 then
        match field entry.1 fields with
        | None => Some (set_field output entry.1 entry.2)
        | Some under =>
            match deepMerge under entry.2 with
            | Some merged => Some (set_field output entry.1 merged)
            | None => None
            end
        end
      else Some (set_field output entry.1 entry.2)
  end.

(** A source whose keys, at every depth that the merge reaches, name no
    member of [Object.prototype]. *)
Fixpoint plain (source : json) : bool :=
  match source with
  | JObj entries =>
      (fix all (l : list (string * json)) : bool :=
         match l with
         | [] => true
         | (key, value) :: rest => negb (inherited key) && plain value && all rest
         end) entries
  | _ => true
  end.

(** The default configuration of the storage and of the model, and a
    user configuration that turns the cache off and gives the provider as
    an object. *)
Definition defaults : list (string * json) :=
  [("storage", JObj [("cacheEnabled", JBool true); ("cacheTtl", JNum 86400)]);
   ("llm", JObj [("provider", JStr "openai")])].
Definition overrides : list (string * json) :=
  [("storage", JObj [("cacheEnabled", JBool false)]);
   ("llm", JObj [("provider", JObj [("name", JStr "local")])])].
End Merge.

(** * Properties *)

(** ** Deduplication of search results *)

Section Deduplication.
Import SearchPlugin Documented.

Lemma dedup_from_app U T xs ys :
  dedup_from U T (xs ++ ys) =
  dedup_from U T xs ++
  dedup_from (urls (dedup_from U T xs) ∪ U) (titles (dedup_from U T xs) ∪ T) ys.
Proof.
  revert U T. induction xs as [|x xs IH]; intros U T; simpl.
  - unfold urls, titles. simpl. by rewrite !(left_id_L ∅ (∪)).
  - destruct (bool_decide (Source.url x ∈ U) || bool_decide (Source.title x ∈ T));
      [apply IH|].
    rewrite IH. set (k := dedup_from _ _ xs).
    replace (urls (x :: k) ∪ U) with (urls k ∪ ({[Source.url x]} ∪ U))
      by (unfold urls; rewrite fmap_cons, list_to_set_cons; set_solver).
    replace (titles (x :: k) ∪ T) with (titles k ∪ ({[Source.title x]} ∪ T))
      by (unfold titles; rewrite fmap_cons, list_to_set_cons; set_solver).
    done.
Qed.

Lemma dedup_from_sublist U T rs : dedup_from U T rs `sublist_of` rs.
Proof.
  revert U T. induction rs as [|r rs IH]; intros U T; simpl; [constructor|].
  destruct (_ || _); [apply sublist_cons | apply sublist_skip]; apply IH.
Qed.

Lemma dedup_from_unseen U T rs x :
  x ∈ dedup_from U T rs → (Source.url x ∉ U) ∧ (Source.title x ∉ T).
Proof.
  revert U T. induction rs as [|r rs IH]; intros U T; simpl.
  - by intros ?%elem_of_nil.
  - destruct (bool_decide (Source.url r ∈ U) || bool_decide (Source.title r ∈ T)) eqn:E.
    + apply IH.
    + apply orb_false_iff in E as [E1 E2].
      apply bool_decide_eq_false in E1, E2.
      intros [->|Hx]%elem_of_cons; [done|].
      apply IH in Hx. set_solver.
Qed.

Lemma dedup_from_NoDup U T rs :
  NoDup (Source.url <$> dedup_from U T rs) ∧ NoDup (Source.title <$> dedup_from U T rs).
Proof.
  revert U T. induction rs as [|r rs IH]; intros U T; simpl.
  - split; constructor.
  - destruct (_ || _); [apply IH|]. simpl.
    destruct (IH ({[Source.url r]} ∪ U) ({[Source.title r]} ∪ T)) as [H1 H2].
    split; constructor; trivial.
    + intros (y & Hy & Hin)%list_elem_of_fmap. apply dedup_from_unseen in Hin. set_solver.
    + intros (y & Hy & Hin)%list_elem_of_fmap. apply dedup_from_unseen in Hin. set_solver.
Qed.

Lemma clash_seen r k :
  Exists (clash r) k ↔ Source.url r ∈ urls k ∨ Source.title r ∈ titles k.
Proof.
  unfold urls, titles, clash.
  rewrite Exists_exists, !elem_of_list_to_set, !list_elem_of_fmap.
  naive_solver.
Qed.

(** C4, as amended.  [deduplicateResults] keeps a sub-sequence of its
    input, in the input's order; no two retained results share a URL and
    no two share a title; and a result is retained exactly when it shares
    neither its URL nor its title with a result retained before it. *)
Theorem deduplicateResults_first_wins :
  (∀ rs, deduplicateResults rs `sublist_of` rs) ∧
  (∀ rs, NoDup (Source.url <$> deduplicateResults rs) ∧
         NoDup (Source.title <$> deduplicateResults rs)) ∧
  (∀ pre r,
     deduplicateResults (pre ++ [r]) =
     deduplicateResults pre ++
     (if decide (Exists (clash r) (deduplicateResults pre)) then [] else [r])).
Proof.
  split; [|split].
  - intros rs. apply dedup_from_sublist.
  - intros rs. apply dedup_from_NoDup.
  - intros pre r. unfold deduplicateResults. rewrite dedup_from_app. f_equal.
    simpl. rewrite !(right_id_L ∅ (∪)).
    destruct (decide _) as [H|H]; rewrite clash_seen in H.
    + destruct H as [H|H].
      * by rewrite (bool_decide_eq_true_2 _ H).
      * rewrite (bool_decide_eq_true_2 _ H). by rewrite orb_true_r.
    + apply Decidable.not_or in H as [H1 H2].
      by rewrite (bool_decide_eq_false_2 _ H1), (bool_decide_eq_false_2 _ H2).
Qed.

(** C4, as stated, fails: two results whose (url, title) pairs differ,
    because only the titles differ, are not both retained, whereas
    deduplication by pair keeps both. *)
Lemma same_url_other_title_dropped :
  (Source.url Samples.solar, Source.title Samples.solar) ≠
  (Source.url Samples.wind, Source.title Samples.wind) ∧
  deduplicateResults [Samples.solar; Samples.wind] = [Samples.solar] ∧
  dedup_by_pair ∅ [Samples.solar; Samples.wind] = [Samples.solar; Samples.wind].
Proof. split; [discriminate|]. split; reflexivity. Qed.

End Deduplication.

(** ** Claim extraction *)

Section Splitting.
Variable delim : ascii -> bool.

Lemma string_app_cons c (a b : string) : String c a +:+ b = String c (a +:+ b).
Proof. reflexivity. Qed.

Lemma string_app_assoc (a b c : string) : (a +:+ b) +:+ c = a +:+ (b +:+ c).
Proof. induction a as [|x a IH]; [done|]. by rewrite !string_app_cons, IH. Qed.

Lemma filter_rev_app p a b :
  Js.filter_chars p (String.rev_app a b) =
  String.rev_app (Js.filter_chars p a) (Js.filter_chars p b).
Proof.
  revert b. induction a as [|c a IH]; intros b; simpl; [done|].
  rewrite IH. simpl. by destruct (p c).
Qed.

Lemma rev_app_append a b : String.rev_app a b = String.rev a +:+ b.
Proof.
  unfold String.rev. revert b. induction a as [|c a IH]; intros b; simpl; [done|].
  rewrite IH, (IH (String c EmptyString)).
  by rewrite string_app_assoc.
Qed.

(** No piece of a split contains a delimiter. *)
Lemma split_runs_plain s cur b :
  Js.filter_chars (Js.non delim) cur = cur →
  Forall (fun seg => Js.filter_chars (Js.non delim) seg = seg)
         (Js.split_runs delim s cur b).
Proof.
  revert cur b. induction s as [|c s IH]; intros cur b Hcur; simpl.
  - constructor; [|constructor]. unfold String.rev.
    by rewrite filter_rev_app, Hcur.
  - destruct (delim c) eqn:Hc.
    + destruct b; [by apply IH|].
      constructor; [|by apply IH]. unfold String.rev.
      by rewrite filter_rev_app, Hcur.
    + apply IH. cbn [Js.filter_chars]. unfold Js.non at 1. rewrite Hc. cbn [negb].
      by rewrite Hcur.
Qed.

(** The pieces of a split, put end to end, are the string without its
    delimiters. *)
Lemma split_runs_concat s cur b :
  (b = true → cur = EmptyString) →
  foldr String.app EmptyString (Js.split_runs delim s cur b) =
  String.rev cur +:+ Js.filter_chars (Js.non delim) s.
Proof.
  revert cur b. induction s as [|c s IH]; intros cur b Hb; simpl.
  - done.
  - unfold Js.non at 1. destruct (delim c) eqn:Hc; simpl.
    + destruct b.
      * rewrite (Hb eq_refl). by rewrite IH.
      * simpl. by rewrite IH.
    + rewrite IH by done. unfold String.rev. simpl.
      rewrite (rev_app_append cur (String c EmptyString)).
      by rewrite string_app_assoc.
Qed.
End Splitting.

Section Sentences.
Import VerificationPlugin.

(** C7, as amended.  The candidate claims of a text are exactly the
    trimmed pieces between its runs of [.], [!] and [?] that are longer
    than 10 code units, that is of length 11 at least; the pieces contain
    no terminator and, put end to end, give the text without its
    terminators. *)
Theorem sentences_longer_than_ten content :
  (∀ s, s ∈ sentences content ↔
        s ∈ (Js.trim <$> Js.split is_terminator content) ∧ (11 ≤ String.length s)%nat) ∧
  Forall (fun seg => Js.filter_chars (Js.non is_terminator) seg = seg)
         (Js.split is_terminator content) ∧
  foldr String.app EmptyString (Js.split is_terminator content) =
  Js.filter_chars (Js.non is_terminator) content.
Proof.
  split; [|split].
  - intros s. unfold sentences. rewrite list_elem_of_filter.
    split; intros [H1 H2]; split; try done; lia.
  - by apply split_runs_plain.
  - unfold Js.split. by rewrite split_runs_concat.
Qed.

Lemma sentences_longer_than_ten_witness :
  "abcdefghijk" ∈ (Js.trim <$> Js.split is_terminator "abcdefghijk. Next") ∧
  (11 ≤ String.length "abcdefghijk")%nat ∧
  "abcdefghijk" ∈ sentences "abcdefghijk. Next".
Proof.
  assert (H : "abcdefghijk" ∈ (Js.trim <$> Js.split is_terminator "abcdefghijk. Next")).
  { vm_compute. left. }
  split; [exact H|]. split; [vm_compute; lia|].
  apply (proj1 (sentences_longer_than_ten "abcdefghijk. Next")).
  split; [exact H | vm_compute; lia].
Defined.

(** C7, as stated, fails: a segment of exactly 10 characters is not
    retained. *)
Lemma ten_character_segment_dropped :
  "abcdefghij" ∈ (Js.trim <$> Js.split is_terminator "abcdefghij. Next one") ∧
  String.length "abcdefghij" = 10%nat ∧
  "abcdefghij" ∉ sentences "abcdefghij. Next one".
Proof.
  split; [|split].
  - vm_compute. left.
  - reflexivity.
  - vm_compute. by intros ?%elem_of_nil.
Qed.
End Sentences.

(** ** The serialisation of options *)

Section Serialisation.
Import Json.

Lemma string_app_nil_l (a : string) : EmptyString +:+ a = a.
Proof. reflexivity. Qed.

Lemma unescape_escape c rest :
  unescape_char (escape_char c +:+ rest) = Some (c, rest).
Proof. destruct c as [[] [] [] [] [] [] [] []]; reflexivity. Qed.

Lemma escape_inj_prefix s s' r1 r2 :
  escape s +:+ String Js.dquote r1 = escape s' +:+ String Js.dquote r2 →
  s = s' ∧ r1 = r2.
Proof.
  revert s'. induction s as [|c s IH]; intros [|c' s']; simpl.
  - by intros [= ->].
  - rewrite string_app_assoc. intros H. pose proof (f_equal unescape_char H) as E.
    rewrite unescape_escape in E. injection E as <- _.
    discriminate H.
  - rewrite string_app_assoc. intros H. pose proof (f_equal unescape_char H) as E.
    rewrite unescape_escape in E. injection E as -> _.
    discriminate H.
  - rewrite !string_app_assoc. intros H. pose proof (f_equal unescape_char H) as E.
    rewrite !unescape_escape in E. injection E as -> E.
    apply IH in E as [-> ->]. done.
Qed.

Lemma quote_inj_prefix s s' r1 r2 :
  quote s +:+ r1 = quote s' +:+ r2 → s = s' ∧ r1 = r2.
Proof.
  unfold quote. rewrite !string_app_cons, !string_app_assoc, !string_app_cons. intros [= H].
  by apply escape_inj_prefix in H.
Qed.

Lemma all_chars_app p a b : all_chars p (a +:+ b) = all_chars p a && all_chars p b.
Proof.
  induction a as [|c a IH]; [done|].
  rewrite string_app_cons. simpl. by rewrite IH, andb_assoc.
Qed.

Lemma pretty_N_char_number x : number_char (pretty_N_char x) = true.
Proof. unfold pretty_N_char. by repeat case_match. Qed.

Lemma pretty_N_go_numeric x s :
  ∃ d, pretty_N_go x s = d +:+ s ∧ all_chars number_char d = true ∧
       ((0 < x)%N → d ≠ EmptyString).
Proof.
  revert s. induction (N.lt_wf_0 x) as [x _ IH]; intros s.
  assert (x = 0 ∨ 0 < x)%N as [->|Hx] by lia.
  - exists EmptyString. rewrite pretty_N_go_0. split; [done|]. split; [done|lia].
  - rewrite pretty_N_go_step by done.
    destruct (IH (x `div` 10)%N (N.div_lt x 10 Hx eq_refl)
                (String (pretty_N_char (x `mod` 10)) s)) as (d & -> & Hd & _).
    exists (d +:+ String (pretty_N_char (x `mod` 10)) EmptyString).
    split; [by rewrite string_app_assoc|]. split.
    + rewrite all_chars_app, Hd. simpl. by rewrite pretty_N_char_number.
    + intros _. by destruct d.
Qed.

Lemma pretty_Z_numeric (z : Z) :
  ∃ c d, pretty z = String c d ∧ number_char c = true ∧ all_chars number_char d = true.
Proof.
  assert (Hpos : ∀ p : positive, ∃ c d, pretty (Npos p) = String c d ∧
            number_char c = true ∧ all_chars number_char d = true).
  { intros p. unfold pretty, pretty_N. rewrite decide_False by done.
    destruct (pretty_N_go_numeric (Npos p) EmptyString) as (d & -> & Hd & Hne).
    destruct d as [|c d]; [by destruct Hne|].
    exists c, (d +:+ EmptyString). simpl in Hd. apply andb_true_iff in Hd as [Hc Hd].
    split; [done|]. split; [done|]. by rewrite all_chars_app, Hd. }
  destruct z as [|p|p].
  - by exists "0"%char, EmptyString.
  - apply Hpos.
  - destruct (Hpos p) as (c & d & E & Hc & Hd).
    exists "-"%char, (String c d). unfold pretty, pretty_Z. unfold pretty, pretty_positive.
    rewrite E. split; [done|]. split; [done|]. simpl. by rewrite Hc, Hd.
Qed.

Lemma number_char_not_close c r : number_char c = true → closes (String c r) = false.
Proof. destruct c as [[] [] [] [] [] [] [] []]; (done || discriminate). Qed.

Lemma numeric_run_unique d1 d2 r1 r2 :
  all_chars number_char d1 = true → all_chars number_char d2 = true →
  closes r1 = true → closes r2 = true →
  d1 +:+ r1 = d2 +:+ r2 → d1 = d2 ∧ r1 = r2.
Proof.
  revert d2. induction d1 as [|c d1 IH]; intros [|c' d2]; simpl;
    rewrite ?string_app_cons, ?string_app_nil_l.
  - done.
  - intros _ [Hc _]%andb_true_iff Hr _ ->.
    by rewrite (number_char_not_close _ _ Hc) in Hr.
  - intros [Hc _]%andb_true_iff _ _ Hr <-.
    by rewrite (number_char_not_close _ _ Hc) in Hr.
  - intros [_ H1]%andb_true_iff [_ H2]%andb_true_iff Hr1 Hr2.
    intros [= -> H]. by destruct (IH d2 H1 H2 Hr1 Hr2 H) as [-> ->].
Qed.

Lemma number_inj_prefix (z z' : Z) r1 r2 :
  closes r1 = true → closes r2 = true →
  pretty z +:+ r1 = pretty z' +:+ r2 → z = z' ∧ r1 = r2.
Proof.
  intros Hr1 Hr2 H.
  destruct (pretty_Z_numeric z) as (c & d & E & Hc & Hd).
  destruct (pretty_Z_numeric z') as (c' & d' & E' & Hc' & Hd').
  rewrite E, E' in H.
  apply numeric_run_unique in H as [H ->]; try done; simpl; rewrite ?Hc, ?Hc'; try done.
  split; [|done]. apply (inj pretty). by rewrite E, E'.
Qed.

Lemma number_char_kind c r : number_char c = true → first_kind (String c r) = Some KNum.
Proof. destruct c as [[] [] [] [] [] [] [] []]; (done || discriminate). Qed.

Lemma first_kind_stringify v r : first_kind (stringify v +:+ r) = Some (kind_of v).
Proof.
  destruct v as [|[]|z|s|xs|fs]; try reflexivity.
  simpl. destruct (pretty_Z_numeric z) as (c & d & -> & Hc & _).
  rewrite string_app_cons. by apply number_char_kind.
Qed.

Lemma join_cons_app sep p l t :
  join sep (p :: l) +:+ t =
  p +:+ match l with [] => t | _ => sep +:+ (join sep l +:+ t) end.
Proof. destruct l; simpl; [done|]. by rewrite !string_app_assoc. Qed.

Section Items.
Context {A : Type} (pr : A → string) (close : ascii).
Hypothesis close_closes : ∀ r, closes (String close r) = true.
Hypothesis close_not_comma : close ≠ ","%char.
Hypothesis pr_start : ∀ y r, ∃ c rest, pr y +:+ r = String c rest ∧ c ≠ close.

Lemma join_inj_prefix xs ys r1 r2 :
  Forall (fun x => ∀ y s1 s2, closes s1 = true → closes s2 = true →
                     pr x +:+ s1 = pr y +:+ s2 → x = y ∧ s1 = s2) xs →
  join "," (map pr xs) +:+ String close r1 = join "," (map pr ys) +:+ String close r2 →
  xs = ys ∧ r1 = r2.
Proof.
  intros Hall. revert ys. induction Hall as [|x xs Hx _ IH]; intros [|y ys].
  - simpl. by intros [= ->].
  - simpl map. rewrite join_cons_app. simpl (join _ [] +:+ _).
    destruct (pr_start y (match map pr ys with [] => String close r2
                          | _ => "," +:+ (join "," (map pr ys) +:+ String close r2) end))
      as (c & rest & -> & Hc).
    intros [= E _]. by destruct Hc.
  - simpl map. rewrite join_cons_app. simpl (join _ [] +:+ _).
    destruct (pr_start x (match map pr xs with [] => String close r1
                          | _ => "," +:+ (join "," (map pr xs) +:+ String close r1) end))
      as (c & rest & -> & Hc).
    intros [= E _]. by destruct Hc.
  - simpl map. rewrite !join_cons_app. intros H.
    apply Hx in H as [-> H].
    + destruct xs as [|x' xs], ys as [|y' ys]; cbn [map] in H.
      * by injection H as ->.
      * injection H as H _. by destruct close_not_comma.
      * injection H as H _. by destruct close_not_comma.
      * apply (inj (String.app ",")) in H.
        apply (IH (y' :: ys)) in H as [-> ->]. done.
    + destruct (map pr xs); [apply close_closes | done].
    + destruct (map pr ys); [apply close_closes | done].
Qed.
End Items.

(** An induction principle that reaches the values nested in arrays and
    objects. *)
Lemma json_nested_ind (P : json → Prop) :
  P JNull → (∀ b, P (JBool b)) → (∀ z, P (JNum z)) → (∀ s, P (JStr s)) →
  (∀ xs, Forall P xs → P (JArr xs)) →
  (∀ fs, Forall (fun kv => P (snd kv)) fs → P (JObj fs)) →
  ∀ v, P v.
Proof.
  intros Hnull Hbool Hnum Hstr Harr Hobj.
  fix IH 1. intros v. destruct v as [|b|z|s|xs|fs].
  - exact Hnull.
  - apply Hbool.
  - apply Hnum.
  - apply Hstr.
  - apply Harr. induction xs as [|x xs IHxs]; constructor; [apply IH | exact IHxs].
  - apply Hobj. induction fs as [|[k x] fs IHfs]; constructor; [apply IH | exact IHfs].
Qed.

Lemma stringify_inj_prefix v :
  ∀ v' r1 r2, closes r1 = true → closes r2 = true →
    stringify v +:+ r1 = stringify v' +:+ r2 → v = v' ∧ r1 = r2.
Proof.
  induction v as [|b|z|s|xs IH|fs IH] using json_nested_ind; intros v' r1 r2 Hr1 Hr2 H;
    pose proof (f_equal first_kind H) as K; rewrite !first_kind_stringify in K;
    injection K as K.
  - destruct v' as [|[]| | | |]; try discriminate K. by apply String.app_inj in H as ->.
  - destruct b, v' as [|[]| | | |]; try discriminate K; by apply String.app_inj in H as ->.
  - destruct v' as [|[]|z'| | |]; try discriminate K.
    simpl in H. by apply number_inj_prefix in H as [-> ->].
  - destruct v' as [|[]| |s'| |]; try discriminate K.
    simpl in H. by apply quote_inj_prefix in H as [-> ->].
  - destruct v' as [|[]| | |ys|]; try discriminate K.
    simpl in H. rewrite !string_app_cons, !string_app_assoc in H. injection H as H.
    apply (join_inj_prefix stringify "]"%char) in H as [-> ->]; try done.
    intros y r. pose proof (first_kind_stringify y r) as Hk.
    destruct (stringify y +:+ r) as [|c rest]; [discriminate Hk|].
    exists c, rest. split; [done|]. intros ->. discriminate Hk.
  - destruct v' as [|[]| | | |gs]; try discriminate K.
    simpl in H. rewrite !string_app_cons, !string_app_assoc in H. injection H as H.
    apply (join_inj_prefix (fun kv => quote (fst kv) +:+ ":" +:+ stringify (snd kv))
             "}"%char) in H as [-> ->]; try done.
    + intros y r. unfold quote. rewrite !string_app_cons. eexists _, _. split; [done|]. done.
    + eapply Forall_impl; [exact IH|]. intros [k x] Hx [k' x'] s1 s2 Hs1 Hs2. simpl.
      rewrite !string_app_assoc. intros E. apply quote_inj_prefix in E as [-> E].
      rewrite !string_app_cons in E. injection E as E.
      simpl in Hx. apply Hx in E as [E1 E2]; [|done..]. by rewrite E1, E2.
Qed.

Theorem stringify_inj v v' : stringify v = stringify v' → v = v'.
Proof.
  intros H. apply (stringify_inj_prefix v v' EmptyString EmptyString); try done.
  by rewrite H.
Qed.
End Serialisation.

(** ** Cross-referencing *)

Section CrossReferencing.
Import VerificationPlugin Documented.

Lemma insert_by_count_elem x y l : y ∈ insert_by_count x l ↔ y = x ∨ y ∈ l.
Proof.
  induction l as [|z l IH]; simpl.
  - rewrite list_elem_of_singleton. set_solver.
  - destruct (count x <? count z)%nat; rewrite !elem_of_cons; [rewrite IH|]; naive_solver.
Qed.

Lemma sort_by_count_elem y l : y ∈ sort_by_count l ↔ y ∈ l.
Proof.
  induction l as [|x l IH]; simpl; [done|].
  rewrite insert_by_count_elem, IH, elem_of_cons. done.
Qed.

(** What the code lists: the claims kept under a key with at least two
    references, counted by references. *)
Lemma performCrossReferencing_counts results c :
  c ∈ performCrossReferencing results →
  count c = length (sources c) ∧ (2 ≤ count c)%nat ∧
  (claim c, sources c) ∈ collect_claims results.
Proof.
  unfold performCrossReferencing. rewrite sort_by_count_elem, list_elem_of_omap.
  intros ([k rs] & Hin & Hc).
  destruct (1 <? length rs)%nat eqn:E; [|done].
  apply Nat.ltb_lt in E. injection Hc as <-. simpl. auto with lia.
Qed.

Lemma push_claim_keys m k r x :
  x ∈ (fst <$> push_claim m k r) ↔ x = k ∨ x ∈ (fst <$> m).
Proof.
  induction m as [|[k' rs] m IH]; simpl.
  - rewrite list_elem_of_singleton. set_solver.
  - destruct (String.eqb_spec k' k) as [->|Hne]; simpl; rewrite !elem_of_cons.
    + naive_solver.
    + rewrite IH. naive_solver.
Qed.

Lemma push_claim_well_formed m k r : well_formed m → well_formed (push_claim m k r).
Proof.
  intros [Hnd Hne]. induction m as [|[k' rs] m IH]; simpl.
  - split; [apply NoDup_singleton | by repeat constructor].
  - inversion_clear Hnd as [|? ? Hk Hnd']. inversion_clear Hne as [|? ? Hrs Hne'].
    destruct (String.eqb_spec k' k) as [->|Hkk].
    + split; [by constructor|]. constructor; [|done]. simpl. by destruct rs.
    + destruct (IH Hnd' Hne') as [IH1 IH2]. split; [|by constructor].
      simpl. constructor; [|done]. rewrite push_claim_keys. naive_solver.
Qed.

Lemma push_claim_refs m k k' r :
  claim_refs k (push_claim m k' r) =
  claim_refs k m ++ (if decide (k = k') then [r] else []).
Proof.
  induction m as [|[k0 rs] m IH]; simpl.
  - destruct (String.eqb_spec k' k) as [->|Hne].
    + by rewrite decide_True.
    + by rewrite decide_False.
  - destruct (String.eqb_spec k0 k') as [->|Hne]; simpl.
    + destruct (String.eqb_spec k' k) as [->|Hne].
      * by rewrite decide_True.
      * rewrite decide_False by done. by rewrite app_nil_r.
    + destruct (String.eqb_spec k0 k) as [->|Hne']; [|done].
      rewrite decide_False by done. by rewrite app_nil_r.
Qed.

Lemma collect_result_spec m result k :
  well_formed m →
  well_formed (collect_result m result) ∧
  claim_refs k (collect_result m result) = claim_refs k m ++ occurrences_in k result.
Proof.
  unfold collect_result, occurrences_in.
  generalize (sentences (Content.content (Result.content result))) as ss.
  intros ss. revert m. induction ss as [|s ss IH]; intros m Hwf; simpl.
  - by rewrite app_nil_r.
  - destruct (IH (push_claim m (normalizeClaim s)
                    {| ref_source := Source.title (Result.source result);
                       ref_url := Source.url (Result.source result);
                       ref_content := s |})) as [IH1 IH2];
      [by apply push_claim_well_formed|].
    split; [done|]. rewrite IH2, push_claim_refs, filter_cons.
    destruct (decide (normalizeClaim s = k)) as [<-|Hne].
    + rewrite decide_True by done. by rewrite <- app_assoc.
    + rewrite decide_False by done. by rewrite app_nil_r.
Qed.

Lemma collect_claims_from m results k :
  well_formed m →
  well_formed (fold_left collect_result results m) ∧
  claim_refs k (fold_left collect_result results m) = claim_refs k m ++ occurrences k results.
Proof.
  revert m. induction results as [|r results IH]; intros m Hwf; simpl.
  - by rewrite app_nil_r.
  - destruct (collect_result_spec m r k Hwf) as [H1 H2].
    destruct (IH _ H1) as [IH1 IH2]. split; [done|].
    by rewrite IH2, H2, <- app_assoc.
Qed.

Lemma well_formed_lookup m k rs :
  well_formed m → (k, rs) ∈ m ↔ claim_refs k m = rs ∧ rs ≠ [].
Proof.
  intros [Hnd Hne]. induction m as [|[k' rs'] m IH]; simpl.
  - split; [by intros ?%elem_of_nil | by intros [<- ?]].
  - inversion_clear Hnd as [|? ? Hk Hnd']. inversion_clear Hne as [|? ? Hrs Hne'].
    rewrite elem_of_cons, (IH Hnd' Hne'). simpl in *.
    destruct (String.eqb_spec k' k) as [->|Hkk].
    + split.
      * intros [[= <-]|[<- Hx]]; [done|].
        destruct Hk. apply list_elem_of_fmap. exists (k, claim_refs k m). split; [done|].
        by apply (IH Hnd' Hne').
      * intros [<- ?]. by left.
    + split; [|naive_solver]. intros [[= ? ?]|?]; [by subst|done].
Qed.

(** What the code lists as cross-references: the normalised claims that
    occur at least twice among the sentences of all the results together,
    each with one reference per occurrence and the number of occurrences for
    count. *)
Lemma performCrossReferencing_occurrences results c :
  c ∈ performCrossReferencing results ↔
  sources c = occurrences (claim c) results ∧
  count c = length (sources c) ∧ (2 ≤ count c)%nat.
Proof.
  destruct (collect_claims_from [] results (claim c)) as [Hwf Hrefs].
  { split; constructor. }
  simpl in Hrefs. fold (collect_claims results) in Hwf, Hrefs.
  unfold performCrossReferencing. rewrite sort_by_count_elem, list_elem_of_omap. split.
  - intros ([k rs] & Hin & Hc).
    destruct (1 <? length rs)%nat eqn:E; [|done].
    apply Nat.ltb_lt in E. injection Hc as <-. simpl in *.
    apply (well_formed_lookup _ _ _ Hwf) in Hin as [Hin _].
    subst rs. rewrite Hrefs in *. repeat split. lia.
  - intros (Hs & Hc & H2). exists (claim c, sources c). split.
    + apply (well_formed_lookup _ _ _ Hwf). rewrite Hrefs. split; [done|].
      intros E. rewrite E in Hc. simpl in Hc. lia.
    + rewrite <- Hc. destruct (Nat.ltb_spec 1 (count c)); [|lia].
      f_equal. destruct c. simpl in *. by subst.
Qed.

(** C3: the code at the failing input.  One source that states a sentence
    twice yields a cross-reference with count 2, although a single source
    supports the claim. *)
Lemma repeated_claim_counts_twice :
  ∃ c, performCrossReferencing [Samples.repeated] = [c] ∧
       claim c = "solar power is growing fast" ∧
       count c = 2%nat ∧
       distinct_sources c = 1%nat.
Proof. eexists. repeat split. Qed.
End CrossReferencing.

(** ** Credibility of a source *)

Section CredibilityFacts.
Import VerificationPlugin Documented.
Local Open Scope Q_scope.

Lemma clamp01_bounds x : 0 <= clamp01 x <= 1.
Proof.
  unfold clamp01. split.
  - apply Q.le_max_l.
  - apply Q.max_lub; [lra | apply Q.le_min_l].
Qed.





End CredibilityFacts.

(** ** Overall confidence *)

Section Confidence.
Import VerificationPlugin Documented.
Local Open Scope Q_scope.

Lemma sum_fold_left (l : list Credibility) (a : Q) :
  fold_left (fun sum score => sum + credibility score) l a ==
  a + foldr (fun s acc => credibility s + acc) 0 l.
Proof.
  revert a. induction l as [|x l IH]; intros a; simpl.
  - lra.
  - rewrite IH. lra.
Qed.

Lemma average_is_mean (scores : list Credibility) :
  (if (0 <? length scores)%nat
   then fold_left (fun sum score => sum + credibility score) scores 0
        / inject_Z (Z.of_nat (length scores))
   else 0.5) == mean_credibility scores.
Proof.
  destruct scores as [|x l]; [reflexivity|].
  change (0 <? length (x :: l))%nat with true. cbv iota.
  unfold mean_credibility. rewrite sum_fold_left.
  apply Qmult_comp; [lra|reflexivity].
Qed.

Lemma calculateOverallConfidence_formula v :
  calculateOverallConfidence v ==
  confidence_formula (length (cross_references v))
                     (mean_credibility (credibility_scores v)).
Proof.
  unfold calculateOverallConfidence, overallConfidence, confidence_formula.
  rewrite average_is_mean. lra.
Qed.


End Confidence.

(** On doubles the documented examples give the same numbers: 0.86 for 3
    cross-references and scores of mean 0.8, and 0.2 for the empty
    outcome. *)
Lemma overallConfidence_binary64 :
  Binary64.overallConfidence 3 [0.7; 0.9]%float = 0.86%float ∧
  Binary64.overallConfidence 3 [0.8]%float = 0.86%float ∧
  Binary64.overallConfidence 0 [] = 0.2%float.
Proof. repeat split; reflexivity. Qed.

(** ** Cache keys *)

Section CacheKey.
Import Json ResearchAgent.

(** The repository's test of the key: it contains the topic and the
    serialisation of the options. *)
Lemma cache_key_contains_serialisation :
  let options := JObj [("persona", JStr "academic-researcher")] in
  let cacheKey := generateCacheKey "test topic" options in
  Js.includes cacheKey "test topic" = true ∧
  Js.includes cacheKey (stringify options) = true.
Proof. split; reflexivity. Qed.

(** C2, as amended.  The cache key is the topic, an underscore and the
    serialisation of the options, which lists the fields in the order the
    object holds them: two options give the same key for a topic exactly
    when they hold the same keys and values in the same field order. *)
Theorem cache_key_iff_same_fields topic a b :
  generateCacheKey topic a = generateCacheKey topic b ↔ a = b.
Proof.
  unfold generateCacheKey. split; [|by intros ->].
  intros H. do 2 apply String.app_inj in H. by apply stringify_inj.
Qed.

Lemma cache_key_iff_same_fields_witness :
  Samples.persona_first = Samples.persona_first ∧
  generateCacheKey "solar" Samples.persona_first =
  generateCacheKey "solar" Samples.persona_first.
Proof.
  split; [reflexivity|].
  apply (proj2 (cache_key_iff_same_fields "solar" Samples.persona_first
                  Samples.persona_first)).
  reflexivity.
Defined.

(** C2, as stated, fails: two option objects with the same keys and
    values in a different order give different keys. *)
Lemma field_order_changes_key :
  sem_eqb Samples.persona_first Samples.tone_first = true ∧
  generateCacheKey "solar" Samples.persona_first ≠
  generateCacheKey "solar" Samples.tone_first.
Proof. split; [reflexivity|]. vm_compute. discriminate. Qed.
End CacheKey.

(** ** The two tiers of the cache *)

Section CacheFacts.
Import ResearchAgent Documented.
Variable config : Config.t.

(** A lookup that finds nothing in memory and a fresh entry in the file. *)
Lemma getCachedResult_file_hit (cacheKey : string) (w : World) d ts :
  Config.cacheEnabled config = true →
  cache w !! cacheKey = None →
  disk w !! cacheFileOf config cacheKey = Some (CacheFile d ts) →
  fresh config (now w) ts = true →
  getCachedResult config cacheKey w = (Ok (Some d), w).
Proof.
  intros Hen Hmem Hfile Hfresh.
  unfold getCachedResult, memoryLookup, mbind, M_bind. rewrite Hmem, Hen.
  unfold fileLookup, try_catch, readFile, clock, mbind, M_bind. rewrite Hfile.
  by rewrite Hfresh.
Qed.

(** When the memory tier holds an expired entry and the file a fresh one,
    the expired entry is deleted and the data read from the file is not put
    in its place. *)
Lemma getCachedResult_expired_hit (cacheKey : string) (w : World) old d ts :
  Config.cacheEnabled config = true →
  cache w !! cacheKey = Some old →
  fresh config (now w) (timestamp old) = false →
  disk w !! cacheFileOf config cacheKey = Some (CacheFile d ts) →
  fresh config (now w) ts = true →
  getCachedResult config cacheKey w =
    (Ok (Some d), set_cache (delete cacheKey (cache w)) w).
Proof.
  intros Hen Hmem Hold Hfile Hfresh.
  unfold getCachedResult, memoryLookup, mbind, M_bind. rewrite Hmem, Hold, Hen.
  unfold fileLookup, try_catch, readFile, clock, mbind, M_bind.
  cbn [disk now set_cache]. rewrite Hfile. cbn [now set_cache]. by rewrite Hfresh.
Qed.

(** C8.  When the memory tier does not serve the key and the file tier
    holds a fresh entry, [getCachedResult] returns the entry's data and
    does not promote it: the memory tier gains no entry and holds nothing
    under the key afterwards, the files are as they were, and when the
    memory tier held nothing under the key the whole world, the memory tier
    with it, is left unchanged. *)
Theorem durable_hit_not_promoted (cacheKey : string) (w : World) d ts :
  Config.cacheEnabled config = true →
  memory_miss config w cacheKey →
  disk w !! cacheFileOf config cacheKey = Some (CacheFile d ts) →
  fresh config (now w) ts = true →
  ∃ w', getCachedResult config cacheKey w = (Ok (Some d), w') ∧
        cache w' !! cacheKey = None ∧ cache w' ⊆ cache w ∧ disk w' = disk w ∧
        (cache w !! cacheKey = None → w' = w).
Proof.
  intros Hen Hmiss Hfile Hfresh. unfold memory_miss in Hmiss.
  destruct (cache w !! cacheKey) as [old|] eqn:Hmem.
  - exists (set_cache (delete cacheKey (cache w)) w).
    split; [by apply (getCachedResult_expired_hit cacheKey w old d ts)|].
    simpl. split; [apply lookup_delete_eq|]. split; [apply delete_subseteq|done].
  - exists w. split; [by apply (getCachedResult_file_hit cacheKey w d ts)|done].
Qed.

(** A research call served by the file tier returns the stored context and
    leaves the memory tier as it was. *)
Lemma research_durable_hit plugins topic options (w : World) d ts :
  Js.truthy_str topic = true →
  Config.cacheEnabled config = true →
  cache w !! generateCacheKey topic (Json.JObj options) = None →
  disk w !! cacheFileOf config (generateCacheKey topic (Json.JObj options))
    = Some (CacheFile d ts) →
  fresh config (now w) ts = true →
  research config plugins (VStr topic) options w =
    (Ok d, record (Emitted "research:cache-hit") (record (Emitted "research:start") w)).
Proof.
  intros Ht Hen Hmem Hfile Hfresh.
  unfold research, try_catch, mbind, M_bind, emit, modify, validate.
  rewrite Ht. cbn [mret M_ret]. rewrite Hen.
  by rewrite (getCachedResult_file_hit _ (record (Emitted "research:start") w) d ts).
Qed.
End CacheFacts.

Section CacheWitness.
Import ResearchAgent Documented.

Lemma durable_hit_not_promoted_witness :
  memory_miss Samples.config Samples.durable_world "solar_{}" ∧
  ∃ w', getCachedResult Samples.config "solar_{}" Samples.durable_world =
          (Ok (Some Samples.cached_context), w') ∧
        cache w' !! "solar_{}" = None ∧ cache w' ⊆ cache Samples.durable_world ∧
        disk w' = disk Samples.durable_world ∧
        (cache Samples.durable_world !! "solar_{}" = None → w' = Samples.durable_world).
Proof.
  assert (Hmiss : memory_miss Samples.config Samples.durable_world "solar_{}")
    by exact I.
  split; [exact Hmiss|].
  apply (durable_hit_not_promoted Samples.config "solar_{}" Samples.durable_world
           Samples.cached_context 900).
  - reflexivity.
  - exact Hmiss.
  - apply lookup_singleton_eq.
  - reflexivity.
Defined.
End CacheWitness.

(** ** Input validation *)

Section Validation.
Import ResearchAgent Documented.

(** C9.  On a topic that is not a string or is the empty string,
    [research] fails with the validation error; the trace of the call
    holds the two events [research:start] and [research:error] and no
    capability invocation; the memory tier, the files and the research
    history are as they were. *)
Theorem invalid_topic_rejected config plugins topic options (w : World) :
  invalid_topic topic →
  ∃ w', research config plugins topic options w =
          (Throw "Research topic must be a non-empty string", w') ∧
        cache w' = cache w ∧ disk w' = disk w ∧
        researchHistory w' = researchHistory w ∧
        trace w' = trace w ++ [Emitted "research:start"; Emitted "research:error"].
Proof.
  intros H.
  exists (record (Emitted "research:error") (record (Emitted "research:start") w)).
  split; [|repeat split].
  - destruct topic; simpl in H; subst; reflexivity.
  - simpl. by rewrite <- app_assoc.
Qed.

Lemma invalid_topic_rejected_witness :
  invalid_topic (VStr EmptyString) ∧
  ∃ w', research Samples.config Samples.failing_search (VStr EmptyString) []
          Samples.empty_world =
          (Throw "Research topic must be a non-empty string", w') ∧
        cache w' = cache Samples.empty_world ∧ disk w' = disk Samples.empty_world ∧
        researchHistory w' = researchHistory Samples.empty_world ∧
        trace w' = trace Samples.empty_world ++
                   [Emitted "research:start"; Emitted "research:error"].
Proof.
  split; [reflexivity|].
  apply (invalid_topic_rejected Samples.config Samples.failing_search
           (VStr EmptyString) [] Samples.empty_world).
  reflexivity.
Defined.
End Validation.

(** ** Failure of a capability *)

Section TraceFacts.
Import ResearchAgent TraceLogic.
Context {A B : Type}.

Lemma failures_app l1 l2 : failures (l1 ++ l2) = failures l1 ++ failures l2.
Proof. apply omap_app. Qed.

Lemma quiet_sound (c : M A) : quiet c → sound c.
Proof.
  intros H w r w' Hrun. destruct (H w r w' Hrun) as (new & Ht & Hf).
  exists new. split; [done|]. rewrite Hf. by intros e ?%elem_of_nil.
Qed.

(** A computation that leaves the trace as it is, is quiet. *)
Lemma quiet_still (c : M A) :
  (∀ w, ∃ r w', c w = (r, w') ∧ trace w' = trace w) → quiet c.
Proof.
  intros H w r w' Hrun. destruct (H w) as (r0 & w0 & E & Ht).
  rewrite E in Hrun. injection Hrun as <- <-.
  exists []. by rewrite app_nil_r.
Qed.

Lemma quiet_ret (a : A) : quiet (mret a).
Proof. apply quiet_still. intros w. by exists (Ok a), w. Qed.

Lemma quiet_throw e : quiet (@throw A e).
Proof. apply quiet_still. intros w. by exists (Throw e), w. Qed.

Lemma quiet_bind (c : M A) (k : A → M B) :
  quiet c → (∀ a, quiet (k a)) → quiet (c ≫= k).
Proof.
  intros Hc Hk w r w' Hrun. unfold mbind, M_bind in Hrun.
  destruct (c w) as [[a|e0] w1] eqn:E; destruct (Hc _ _ _ E) as (n1 & T1 & F1).
  - destruct (Hk a _ _ _ Hrun) as (n2 & T2 & F2).
    exists (n1 ++ n2). split; [by rewrite T2, T1, app_assoc|].
    by rewrite failures_app, F1, F2.
  - injection Hrun as <- <-. by exists n1.
Qed.

Lemma quiet_try_catch (c : M A) (h : string → M A) :
  quiet c → (∀ e, quiet (h e)) → quiet (try_catch c h).
Proof.
  intros Hc Hh w r w' Hrun. unfold try_catch in Hrun.
  destruct (c w) as [[a|e0] w1] eqn:E; destruct (Hc _ _ _ E) as (n1 & T1 & F1).
  - injection Hrun as <- <-. by exists n1.
  - destruct (Hh e0 _ _ _ Hrun) as (n2 & T2 & F2).
    exists (n1 ++ n2). split; [by rewrite T2, T1, app_assoc|].
    by rewrite failures_app, F1, F2.
Qed.

Lemma sound_bind (c : M A) (k : A → M B) :
  sound c → (∀ a, sound (k a)) → sound (c ≫= k).
Proof.
  intros Hc Hk w r w' Hrun. unfold mbind, M_bind in Hrun.
  destruct (c w) as [[a|e0] w1] eqn:E; destruct (Hc _ _ _ E) as (n1 & T1 & F1).
  - destruct (Hk a _ _ _ Hrun) as (n2 & T2 & F2).
    exists (n1 ++ n2). split; [by rewrite T2, T1, app_assoc|].
    intros e. rewrite failures_app, elem_of_app. intros [He|He]; [|by apply F2].
    discriminate (F1 e He).
  - injection Hrun as <- <-. exists n1. split; [done|].
    intros e He. by injection (F1 e He) as ->.
Qed.

(** A handler that emits an event and throws the error again. *)
Lemma sound_rethrow (c : M A) (name : string) :
  sound c → sound (try_catch c (fun e => emit name ;; throw e)).
Proof.
  intros Hc w r w' Hrun. unfold try_catch in Hrun.
  destruct (c w) as [[a|e0] w1] eqn:E; destruct (Hc _ _ _ E) as (n1 & T1 & F1).
  - injection Hrun as <- <-. by exists n1.
  - injection Hrun as <- <-. exists (n1 ++ [Emitted name]).
    split; [simpl; by rewrite T1, app_assoc|].
    intros e. rewrite failures_app. simpl. rewrite app_nil_r. apply F1.
Qed.

Lemma rethrow_last (c : M A) name w e w' :
  try_catch c (fun e => emit name ;; throw e) w = (Throw e, w') →
  last (trace w') = Some (Emitted name).
Proof.
  unfold try_catch. destruct (c w) as [[a|e0] w1]; [done|].
  intros [= <- <-]. simpl. apply last_snoc.
Qed.

Lemma emit_bind name (k : unit → M A) w :
  (emit name ≫= k) w = k tt (record (Emitted name) w).
Proof. reflexivity. Qed.

Lemma bind_Ok_inv (c : M A) (k : A → M B) w b w' :
  (c ≫= k) w = (Ok b, w') → ∃ a w1, c w = (Ok a, w1) ∧ k a w1 = (Ok b, w').
Proof.
  unfold mbind, M_bind. destruct (c w) as [[a|e] w1]; [|done].
  intros H. by exists a, w1.
Qed.

Lemma quiet_invoke cap (call : Z → result A) :
  fatal cap = false → quiet (invoke cap call).
Proof.
  intros Hcap w r w' Hrun. unfold invoke in Hrun.
  destruct (call (now w)) as [a|e]; injection Hrun as <- <-;
    (eexists [_]; split; [reflexivity|]); unfold failures; simpl; by rewrite ?Hcap.
Qed.

Lemma sound_invoke cap (call : Z → result A) : sound (invoke cap call).
Proof.
  intros w r w' Hrun. unfold invoke in Hrun.
  destruct (call (now w)) as [a|e]; injection Hrun as <- <-;
    (eexists [_]; split; [reflexivity|]); unfold failures; simpl.
  - by intros e ?%elem_of_nil.
  - destruct (fatal cap);
      [by intros e' ->%list_elem_of_singleton | by intros e' ?%elem_of_nil].
Qed.
End TraceFacts.

Section StageFacts.
Import ResearchAgent TraceLogic.
Variable config : Config.t.
Variable plugins : Plugins.

Lemma quiet_modify f : (∀ w, trace (f w) = trace w) → quiet (modify f).
Proof. intros H. apply quiet_still. intros w. by exists (Ok tt), (f w). Qed.

Lemma quiet_emit name : quiet (emit name).
Proof. intros w r w' [= <- <-]. by exists [Emitted name]. Qed.

Lemma quiet_clock : quiet clock.
Proof. apply quiet_still. intros w. by exists (Ok (now w)), w. Qed.

Lemma quiet_uuidv4 : quiet uuidv4.
Proof. apply quiet_still. intros w. by eexists _, _. Qed.

Lemma quiet_readFile path : quiet (readFile path).
Proof.
  apply quiet_still. intros w. unfold readFile.
  destruct (disk w !! path); by eexists _, _.
Qed.

Lemma quiet_writeFile path body : quiet (writeFile path body).
Proof.
  apply quiet_still. intros w. unfold writeFile.
  destruct (disk_writable w); by eexists _, _.
Qed.

Lemma quiet_unlink path : quiet (unlink path).
Proof.
  apply quiet_still. intros w. unfold unlink.
  destruct (disk_writable w); by eexists _, _.
Qed.

Lemma quiet_memoryLookup key : quiet (memoryLookup config key).
Proof.
  apply quiet_still. intros w. unfold memoryLookup.
  destruct (cache w !! key) as [c|]; [destruct (fresh _ _ _)|]; by eexists _, _.
Qed.

Ltac quiet_step :=
  first
    [ apply quiet_bind; [|intros ?]
    | apply quiet_try_catch; [|intros ?]
    | apply quiet_ret | apply quiet_throw | apply quiet_emit | apply quiet_clock
    | apply quiet_uuidv4 | apply quiet_readFile | apply quiet_writeFile
    | apply quiet_unlink | apply quiet_memoryLookup
    | apply quiet_modify; intros ?; reflexivity
    | apply quiet_invoke; reflexivity
    | match goal with
      | |- quiet (if ?b then _ else _) => destruct b
      | |- quiet (match ?x with _ => _ end) => destruct x
      end ].

Lemma quiet_getCachedResult key : quiet (getCachedResult config key).
Proof. unfold getCachedResult, fileLookup. repeat quiet_step. Qed.

Lemma quiet_setCachedResult key d : quiet (setCachedResult config key d).
Proof. unfold setCachedResult. repeat quiet_step. Qed.

Lemma quiet_persistResults ctx : quiet (persistResults config ctx).
Proof. unfold persistResults. repeat quiet_step. Qed.

Lemma quiet_pushHistory topic ctx : quiet (pushHistory topic ctx).
Proof. unfold pushHistory. repeat quiet_step. Qed.

Lemma quiet_queryLLM prompt : quiet (queryLLM config plugins prompt).
Proof. unfold queryLLM. repeat quiet_step. Qed.

Lemma quiet_generateCitations results : quiet (generateCitations config plugins results).
Proof. unfold generateCitations. repeat quiet_step. Qed.

(** The failures of the synthesis and of the citation capability are
    caught where they occur. *)
Lemma quiet_generateAnalysis ctx : quiet (generateAnalysis config plugins ctx).
Proof.
  unfold generateAnalysis. repeat first [apply quiet_queryLLM | quiet_step].
Qed.

Lemma quiet_generateReport ctx : quiet (generateReport config plugins ctx).
Proof.
  unfold generateReport.
  repeat first [apply quiet_queryLLM | apply quiet_generateCitations | quiet_step].
Qed.

Lemma quiet_extractContent source : quiet (extractContent source).
Proof. unfold extractContent. repeat quiet_step. Qed.

Lemma quiet_validate topic : quiet (validate topic).
Proof. unfold validate. repeat quiet_step. Qed.

Lemma sound_performSearch topic options : sound (performSearch plugins topic options).
Proof.
  unfold performSearch, fallbackSearch. destruct (search plugins).
  - apply sound_invoke.
  - apply quiet_sound. repeat quiet_step.
Qed.

Lemma sound_analyzeContent c topic : sound (analyzeContent plugins c topic).
Proof.
  unfold analyzeContent. destruct (analysis plugins).
  - apply sound_invoke.
  - apply quiet_sound. repeat quiet_step.
Qed.

Lemma sound_verifyInformation ctx : sound (verifyInformation plugins ctx).
Proof.
  unfold verifyInformation. destruct (verification plugins).
  - apply sound_invoke.
  - apply quiet_sound. repeat quiet_step.
Qed.

Lemma sound_analyzeSources topic sources results :
  sound (analyzeSources plugins topic sources results).
Proof.
  revert results. induction sources as [|s rest IH]; intros results; simpl.
  - apply quiet_sound, quiet_ret.
  - apply sound_bind; [apply quiet_sound, quiet_extractContent|].
    intros [c|]; [|apply IH].
    apply sound_bind; [apply sound_analyzeContent|]. intros a. apply IH.
Qed.

Lemma sound_runPipeline topic options key :
  sound (runPipeline config plugins topic options key).
Proof.
  unfold runPipeline.
  apply sound_bind; [apply sound_performSearch|]. intros searchResults.
  apply sound_bind; [apply sound_analyzeSources|]. intros results.
  apply sound_bind.
  { destruct (Config.verificationEnabled config); [|apply quiet_sound, quiet_ret].
    apply sound_bind; [apply sound_verifyInformation|].
    intros v. apply quiet_sound, quiet_ret. }
  intros verification. apply quiet_sound.
  repeat first [ apply quiet_generateAnalysis | apply quiet_generateReport
               | apply quiet_pushHistory | apply quiet_setCachedResult
               | apply quiet_persistResults | quiet_step ].
Qed.

Lemma sound_research topic options : sound (research config plugins topic options).
Proof.
  unfold research.
  apply sound_bind; [apply quiet_sound, quiet_emit|]. intros _.
  apply sound_rethrow.
  apply sound_bind; [apply quiet_sound, quiet_validate|]. intros t.
  apply sound_bind.
  { apply quiet_sound. destruct (Config.cacheEnabled config);
      [apply quiet_getCachedResult | apply quiet_ret]. }
  intros [cached|]; [apply quiet_sound; repeat quiet_step | apply sound_runPipeline].
Qed.

Lemma research_throw_emits topic options w e w' :
  research config plugins topic options w = (Throw e, w') →
  last (trace w') = Some (Emitted "research:error").
Proof.
  intros H. unfold research in H. rewrite emit_bind in H.
  by apply rethrow_last in H.
Qed.

(** The synthesis stages catch the failures of the transport and of the
    citation capability: they always return, with a placeholder when the
    generation failed. *)
Lemma generateAnalysis_recovers ctx w :
  ∃ a w', generateAnalysis config plugins ctx w = (Ok a, w').
Proof.
  unfold generateAnalysis, try_catch, mbind, M_bind.
  destruct (queryLLM config plugins (AnalysisPrompt ctx) w) as [[text|e] w1];
    by eexists _, _.
Qed.

Lemma generateReport_recovers ctx w :
  ∃ a w', generateReport config plugins ctx w = (Ok a, w').
Proof.
  unfold generateReport, try_catch, mbind, M_bind.
  destruct (queryLLM config plugins (ReportPrompt ctx) w) as [[text|e] w1];
    [|by eexists _, _].
  destruct (generateCitations config plugins (Context.results ctx) w1) as [[cs|e] w2];
    by eexists _, _.
Qed.

(** C1, as amended.  When an installed search, analysis or verification
    capability throws during a research call, the call fails with that
    error, after emitting [research:error]: no result is returned. *)
Theorem capability_failure_fails_the_call topic options w r w' cap e :
  research config plugins topic options w = (r, w') →
  fatal cap = true →
  Invoked cap (Some e) ∈ drop (length (trace w)) (trace w') →
  r = Throw e ∧ last (trace w') = Some (Emitted "research:error").
Proof.
  intros Hrun Hcap Hin.
  destruct (sound_research _ _ _ _ _ Hrun) as (new & Ht & Hf).
  rewrite Ht, drop_app_length in Hin.
  assert (r = Throw e) as ->.
  { apply Hf. unfold failures. rewrite list_elem_of_omap.
    exists (Invoked cap (Some e)). split; [done|]. simpl. by rewrite Hcap. }
  split; [done|]. by apply research_throw_emits in Hrun.
Qed.
End StageFacts.

Section Propagation.
Import ResearchAgent TraceLogic.

(** C1, as stated, fails: with a search capability that throws, the call
    fails with the capability's error instead of returning a result. *)
Lemma search_failure_is_fatal :
  research Samples.config Samples.failing_search (VStr "solar") [] Samples.empty_world
  = (Throw "search backend down",
     {| now := 1000; cache := ∅; disk := ∅; disk_writable := true;
        researchHistory := []; next_id := 0;
        trace := [Emitted "research:start"; Invoked Search (Some "search backend down");
                  Emitted "research:error"] |}).
Proof. reflexivity. Qed.

Lemma capability_failure_fails_the_call_witness :
  fatal Search = true ∧
  fst (research Samples.config Samples.failing_search (VStr "solar") []
         Samples.empty_world) = Throw "search backend down".
Proof.
  split; [reflexivity|].
  refine (proj1 (capability_failure_fails_the_call Samples.config Samples.failing_search
                   (VStr "solar") [] Samples.empty_world _ _ Search
                   "search backend down" _ _ _)).
  - apply surjective_pairing.
  - reflexivity.
  - vm_compute. right. left.
Defined.
End Propagation.

(** ** The loop over the sources *)

Section Loop.
Import ResearchAgent Documented.
Variable config : Config.t.
Variable plugins : Plugins.


Lemma extractContent_total source w :
  extractContent source w =
    (Ok (Some {| Content.title := Js.or_else (Source.title source) "Untitled";
                 Content.content := Js.or_else (Source.snippet source) "Content not available";
                 Content.url := Source.url source;
                 Content.extractedAt := now w |}), w).
Proof. reflexivity. Qed.


(** Without an analysis capability the loop cannot fail. *)
Lemma analyzeSources_fallback topic sources results w :
  analysis plugins = None →
  ∃ rs, analyzeSources plugins topic sources results w = (Ok rs, w) ∧
        length rs = (length results + length sources)%nat.
Proof.
  intros Hno. revert results. induction sources as [|s rest IH]; intros results; simpl.
  - exists results. split; [done|lia].
  - unfold mbind, M_bind. rewrite extractContent_total.
    unfold analyzeContent. rewrite Hno. cbn [mret M_ret].
    edestruct IH as (rs & -> & Hlen). exists rs. split; [done|].
    rewrite Hlen, length_app. simpl. lia.
Qed.

End Loop.

Section LoopWitness.
Import ResearchAgent.

End LoopWitness.

(** ** What a call stores, emits and returns *)

Section FramePreorders.
Import ResearchAgent Frames.

#[global] Instance shrinks_preorder : PreOrder shrinks.
Proof.
  split.
  - intros w. by repeat split.
  - intros w1 w2 w3 (H1 & H2 & H3) (K1 & K2 & K3). repeat split.
    + by rewrite K1.
    + by etrans.
    + by etrans.
Qed.

Lemma emissions_app l1 l2 : emissions (l1 ++ l2) = emissions l1 ++ emissions l2.
Proof. apply omap_app. Qed.

#[global] Instance steady_preorder : PreOrder steady.
Proof.
  split.
  - intros w. repeat split; try done. exists []. by rewrite app_nil_r.
  - intros w1 w2 w3 (H1 & H2 & H3 & n1 & H4 & H5) (K1 & K2 & K3 & n2 & K4 & K5).
    split; [by rewrite K1|]. split; [by rewrite K2|]. split; [by etrans|].
    exists (n1 ++ n2). split; [by rewrite K4, H4, app_assoc|].
    by rewrite emissions_app, H5, K5.
Qed.
End FramePreorders.

Section FrameFacts.
Import ResearchAgent Frames.
Context {A B : Type}.

Lemma respects_ret R `{!Reflexive R} (a : A) : respects R (mret a).
Proof. by intros w r w' [= <- <-]. Qed.

Lemma respects_throw R `{!Reflexive R} e : respects R (@throw A e).
Proof. by intros w r w' [= <- <-]. Qed.

Lemma respects_bind R `{!Transitive R} (c : M A) (k : A → M B) :
  respects R c → (∀ a, respects R (k a)) → respects R (c ≫= k).
Proof.
  intros Hc Hk w r w' Hrun. unfold mbind, M_bind in Hrun.
  destruct (c w) as [[a|e] w1] eqn:E.
  - etrans; [by eapply Hc | by eapply Hk].
  - injection Hrun as <- <-. by eapply Hc.
Qed.

Lemma respects_try_catch R `{!Transitive R} (c : M A) (h : string → M A) :
  respects R c → (∀ e, respects R (h e)) → respects R (try_catch c h).
Proof.
  intros Hc Hh w r w' Hrun. unfold try_catch in Hrun.
  destruct (c w) as [[a|e] w1] eqn:E.
  - injection Hrun as <- <-. by eapply Hc.
  - etrans; [by eapply Hc | by eapply Hh].
Qed.

(** A capability is invoked with the clock only: the invocation is
    recorded in the trace and nothing else changes. *)
Lemma steady_invoke cap (call : Z → result A) : respects steady (invoke cap call).
Proof.
  intros w r w'. unfold invoke.
  destruct (call (now w)); intros [= <- <-]; repeat split; try done;
    by eexists [_].
Qed.

(** A computation that changes the memory tier and the files at most by
    deleting entries, and nothing else. *)
Lemma steady_deleting (c : M A) :
  (∀ w, ∃ r w', c w = (r, w') ∧ now w' = now w ∧ disk_writable w' = disk_writable w ∧
                researchHistory w' = researchHistory w ∧ cache w' ⊆ cache w ∧
                disk w' ⊆ disk w ∧ trace w' = trace w) →
  respects steady c.
Proof.
  intros H w r w' Hrun. destruct (H w) as (r0 & w0 & E & H1 & H2 & H3 & H4 & H5 & H6).
  rewrite E in Hrun. injection Hrun as <- <-. repeat split; try done.
  exists []. by rewrite app_nil_r.
Qed.

Lemma safe_ret (a : A) : safe (mret a).
Proof. intros w. by eexists _, _. Qed.

Lemma safe_bind (c : M A) (k : A → M B) : safe c → (∀ a, safe (k a)) → safe (c ≫= k).
Proof.
  intros Hc Hk w. destruct (Hc w) as (a & w1 & E). destruct (Hk a w1) as (b & w2 & E2).
  exists b, w2. unfold mbind, M_bind. by rewrite E.
Qed.

(** A guarded block whose handler does not throw. *)
Lemma safe_try_catch (c : M A) (h : string → M A) :
  (∀ e, safe (h e)) → safe (try_catch c h).
Proof.
  intros Hh w. unfold try_catch. destruct (c w) as [[a|e] w1]; [by eexists _, _|].
  apply Hh.
Qed.

(** A body that does not throw is not affected by the handler. *)
Lemma safe_guarded (c : M A) h : safe c → safe (try_catch c h).
Proof.
  intros Hc w. destruct (Hc w) as (a & w' & E). exists a, w'.
  unfold try_catch. by rewrite E.
Qed.

Lemma safe_invoke cap (call : Z → result A) :
  (∀ t, ∃ r, call t = Ok r) → safe (invoke cap call).
Proof.
  intros H w. unfold invoke. destruct (H (now w)) as (r & ->). by eexists _, _.
Qed.

Lemma bind_Throw_inv (c : M A) (k : A → M B) w e w' :
  (c ≫= k) w = (Throw e, w') →
  c w = (Throw e, w') ∨ ∃ a w1, c w = (Ok a, w1) ∧ k a w1 = (Throw e, w').
Proof.
  unfold mbind, M_bind. destruct (c w) as [[a|e0] w1].
  - intros H. right. by exists a, w1.
  - intros [= <- <-]. by left.
Qed.

Lemma last_snoc_inv (l : list A) x y : last (l ++ [x]) = Some y → x = y.
Proof. rewrite last_snoc. by intros [= ->]. Qed.
End FrameFacts.

(** ** The two tiers of the cache *)

Section CacheRoundTrip.
Import ResearchAgent Frames.
Variable config : Config.t.

Lemma fresh_elapsed (t elapsed : Z) :
  (elapsed < Config.cacheTtl config * 1000)%Z → fresh config (t + elapsed) t = true.
Proof. intros H. unfold fresh. apply Z.ltb_lt. lia. Qed.

Lemma stale_elapsed (t elapsed : Z) :
  (Config.cacheTtl config * 1000 ≤ elapsed)%Z → fresh config (t + elapsed) t = false.
Proof. intros H. unfold fresh. apply Z.ltb_ge. lia. Qed.

(** The world after [setCachedResult]: the memory tier holds the entry,
    and the file is written when the cache is enabled and the directory can
    be written. *)
Lemma setCachedResult_effect cacheKey d w :
  ∃ w1, setCachedResult config cacheKey d w = (Ok tt, w1) ∧
        cache w1 = <[cacheKey := {| data := d; timestamp := now w |}]> (cache w) ∧
        now w1 = now w ∧ researchHistory w1 = researchHistory w ∧
        trace w1 = trace w ∧ disk_writable w1 = disk_writable w ∧
        next_id w1 = next_id w ∧
        disk w1 = (if Config.cacheEnabled config && disk_writable w
                   then <[cacheFileOf config cacheKey := CacheFile d (now w)]> (disk w)
                   else disk w).
Proof.
  unfold setCachedResult, clock, modify, mbind, M_bind, try_catch, writeFile.
  destruct (Config.cacheEnabled config); cbn [andb].
  - cbn [disk_writable set_cache]. destruct (disk_writable w) eqn:Hw.
    + eexists. split; [reflexivity|]. cbn. by rewrite Hw.
    + eexists. split; [reflexivity|]. cbn. by rewrite Hw.
  - eexists. split; [reflexivity|]. by cbn.
Qed.

Lemma getCachedResult_memory_hit cacheKey w c :
  cache w !! cacheKey = Some c →
  fresh config (now w) (timestamp c) = true →
  getCachedResult config cacheKey w = (Ok (Some (data c)), w).
Proof.
  intros Hc Hf. unfold getCachedResult, memoryLookup, mbind, M_bind.
  by rewrite Hc, Hf.
Qed.

Lemma getCachedResult_trace key w r w' :
  getCachedResult config key w = (r, w') → trace w' = trace w.
Proof.
  unfold getCachedResult, memoryLookup, fileLookup, try_catch, readFile, clock,
    unlink, mbind, M_bind.
  destruct (cache w !! key) as [c|]; [destruct (fresh _ _ _)|];
    try (by intros [= <- <-]);
    (destruct (Config.cacheEnabled config); [|by intros [= <- <-]]);
    cbn [disk set_cache now disk_writable];
    (destruct (disk w !! cacheFileOf config key) as [[|d0 ts|?]|];
       cbn; try (by intros [= <- <-]));
    try destruct (fresh _ _ _); cbn; try (by intros [= <- <-]);
    destruct (disk_writable w); by intros [= <- <-].
Qed.

(** X1.  A result stored with [setCachedResult] is returned by
    [getCachedResult] under the same key for as long as less than
    [cacheTtl] seconds have elapsed since it was stored: the lookup is
    served by the memory tier and changes nothing, whether the file cache
    is enabled or not and whether the file could be written or not. *)
Theorem stored_result_served_within_ttl cacheKey d w elapsed :
  (elapsed < Config.cacheTtl config * 1000)%Z →
  ∃ w1, setCachedResult config cacheKey d w = (Ok tt, w1) ∧
        getCachedResult config cacheKey (advance elapsed w1) =
          (Ok (Some d), advance elapsed w1).
Proof.
  intros He. destruct (setCachedResult_effect cacheKey d w) as (w1 & E & Hc & Hn & _).
  exists w1. split; [done|].
  apply (getCachedResult_memory_hit cacheKey (advance elapsed w1)
           {| data := d; timestamp := now w |}).
  - cbn. rewrite Hc. apply lookup_insert_eq.
  - cbn. rewrite Hn. by apply fresh_elapsed.
Qed.


(** X3.  Once [cacheTtl] seconds or more have elapsed, a stored result is
    no longer served: the lookup misses, and it removes the expired entry
    from the memory tier and, when the file cache is enabled, the expired
    file (the directory being writable). *)
Theorem stored_result_expires cacheKey d w elapsed :
  disk_writable w = true →
  (Config.cacheTtl config * 1000 ≤ elapsed)%Z →
  ∃ w1 w2, setCachedResult config cacheKey d w = (Ok tt, w1) ∧
           getCachedResult config cacheKey (advance elapsed w1) = (Ok None, w2) ∧
           cache w2 !! cacheKey = None ∧
           (Config.cacheEnabled config = true →
            disk w2 !! cacheFileOf config cacheKey = None).
Proof.
  intros Hw He.
  destruct (setCachedResult_effect cacheKey d w)
    as (w1 & E & Hc & Hn & _ & _ & Hw1 & _ & Hd).
  exists w1. rewrite Hw in Hd, Hw1.
  assert (Hstale : fresh config (now (advance elapsed w1)) (now w) = false)
    by (cbn; rewrite Hn; by apply stale_elapsed).
  assert (Hmem : cache (advance elapsed w1) !! cacheKey
                 = Some {| data := d; timestamp := now w |})
    by (cbn; rewrite Hc; apply lookup_insert_eq).
  set (w0 := advance elapsed w1) in *.
  unfold getCachedResult, memoryLookup, mbind, M_bind.
  rewrite Hmem. cbn [timestamp]. rewrite Hstale.
  destruct (Config.cacheEnabled config); cbn [andb] in Hd.
  - assert (Hfile : disk w0 !! cacheFileOf config cacheKey = Some (CacheFile d (now w)))
      by (cbn; rewrite Hd; apply lookup_insert_eq).
    unfold fileLookup, try_catch, readFile, clock, mbind, M_bind.
    cbn [disk set_cache]. rewrite Hfile. cbn [now set_cache].
    rewrite Hstale. unfold unlink. cbn [disk_writable set_cache].
    replace (disk_writable w0) with true by (symmetry; exact Hw1).
    cbn [mret M_ret]. eexists. split; [done|]. split; [reflexivity|].
    cbn. split; [apply lookup_delete_eq|]. intros _. apply lookup_delete_eq.
  - eexists. split; [done|]. split; [reflexivity|]. cbn.
    split; [apply lookup_delete_eq|done].
Qed.

(** X4.  [getCachedResult] serves only what a tier holds fresh: when it
    returns a result, either the memory tier holds that result under the
    key with a timestamp less than [cacheTtl] seconds old, and the agent's
    state is unchanged, or the file cache is enabled and the key's file
    holds that result with such a timestamp. *)
Theorem lookup_serves_fresh_entries cacheKey w d w' :
  getCachedResult config cacheKey w = (Ok (Some d), w') →
  (∃ c, cache w !! cacheKey = Some c ∧ data c = d ∧
        fresh config (now w) (timestamp c) = true ∧ w' = w) ∨
  (Config.cacheEnabled config = true ∧
   ∃ ts, disk w !! cacheFileOf config cacheKey = Some (CacheFile d ts) ∧
         fresh config (now w) ts = true).
Proof.
  unfold getCachedResult, memoryLookup, mbind, M_bind.
  destruct (cache w !! cacheKey) as [c|] eqn:Hc.
  - destruct (fresh config (now w) (timestamp c)) eqn:Hf.
    + intros [= <- <-]. left. by exists c.
    + destruct (Config.cacheEnabled config); [|done].
      unfold fileLookup, try_catch, readFile, clock, mbind, M_bind, unlink.
      cbn [disk set_cache now disk_writable].
      destruct (disk w !! cacheFileOf config cacheKey) as [[|d0 ts|?]|] eqn:Hd;
        cbn; try done.
      * destruct (fresh config (now w) ts) eqn:Hf2.
        -- intros [= <- <-]. right. split; [done|]. by exists ts.
        -- cbn. by destruct (disk_writable w).
      * by destruct (disk_writable w).
  - destruct (Config.cacheEnabled config); [|done].
    unfold fileLookup, try_catch, readFile, clock, mbind, M_bind, unlink.
    destruct (disk w !! cacheFileOf config cacheKey) as [[|d0 ts|?]|] eqn:Hd;
      cbn; try done.
    * destruct (fresh config (now w) ts) eqn:Hf2.
      -- intros [= <- <-]. right. split; [done|]. by exists ts.
      -- cbn. by destruct (disk_writable w).
    * by destruct (disk_writable w).
Qed.

(** X5.  A failure to write is swallowed: when the directories cannot be
    written, [setCachedResult] still returns normally, with the entry in
    the memory tier and the files untouched, and [persistResults] returns
    normally and changes nothing. *)
Theorem write_failures_are_swallowed cacheKey d w :
  disk_writable w = false →
  setCachedResult config cacheKey d w =
    (Ok tt, set_cache (<[cacheKey := {| data := d; timestamp := now w |}]> (cache w)) w) ∧
  persistResults config d w = (Ok tt, w).
Proof.
  intros Hw. split.
  - unfold setCachedResult, clock, modify, try_catch, writeFile, mbind, M_bind.
    destruct (Config.cacheEnabled config); [|done].
    cbn [disk_writable set_cache]. by rewrite Hw.
  - unfold persistResults, clock, try_catch, writeFile, mbind, M_bind. by rewrite Hw.
Qed.

(** A cache file that is absent or is not JSON is a miss, not an error:
    with nothing under the key in the memory tier, [getCachedResult]
    returns null and changes nothing. *)
Lemma unreadable_cache_file_is_a_miss cacheKey w :
  cache w !! cacheKey = None →
  unreadable (disk w !! cacheFileOf config cacheKey) →
  getCachedResult config cacheKey w = (Ok None, w).
Proof.
  intros Hm Hf. unfold getCachedResult, memoryLookup, mbind, M_bind. rewrite Hm.
  destruct (Config.cacheEnabled config); [|done].
  unfold fileLookup, try_catch, readFile, clock, mbind, M_bind.
  by destruct Hf as [-> | ->].
Qed.
End CacheRoundTrip.

Section CacheRoundTripWitnesses.
Import ResearchAgent Frames.

Lemma stored_result_served_within_ttl_witness :
  (60000 < Config.cacheTtl Samples.config * 1000)%Z ∧
  ∃ w1, setCachedResult Samples.config "solar_{}" Samples.cached_context
          Scenarios.read_only_world = (Ok tt, w1) ∧
        getCachedResult Samples.config "solar_{}" (advance 60000 w1) =
          (Ok (Some Samples.cached_context), advance 60000 w1).
Proof.
  assert (H : (60000 < Config.cacheTtl Samples.config * 1000)%Z) by reflexivity.
  split; [exact H|].
  exact (stored_result_served_within_ttl Samples.config "solar_{}"
           Samples.cached_context Scenarios.read_only_world 60000 H).
Defined.


Lemma stored_result_expires_witness :
  ∃ w1 w2, setCachedResult Samples.config "solar_{}" Samples.cached_context
             Samples.empty_world = (Ok tt, w1) ∧
           getCachedResult Samples.config "solar_{}" (advance 3600000 w1) = (Ok None, w2) ∧
           cache w2 !! "solar_{}" = None ∧
           (Config.cacheEnabled Samples.config = true →
            disk w2 !! cacheFileOf Samples.config "solar_{}" = None).
Proof.
  apply (stored_result_expires Samples.config "solar_{}"
           Samples.cached_context Samples.empty_world 3600000).
  - reflexivity.
  - vm_compute. discriminate.
Defined.

Lemma lookup_serves_fresh_entries_witness :
  getCachedResult Samples.config "solar_{}" Samples.durable_world =
    (Ok (Some Samples.cached_context), Samples.durable_world) ∧
  ((∃ c, cache Samples.durable_world !! "solar_{}" = Some c ∧
         data c = Samples.cached_context ∧
         fresh Samples.config (now Samples.durable_world) (timestamp c) = true ∧
         Samples.durable_world = Samples.durable_world) ∨
   (Config.cacheEnabled Samples.config = true ∧
    ∃ ts, disk Samples.durable_world !! cacheFileOf Samples.config "solar_{}"
            = Some (CacheFile Samples.cached_context ts) ∧
          fresh Samples.config (now Samples.durable_world) ts = true)).
Proof.
  assert (H : getCachedResult Samples.config "solar_{}" Samples.durable_world =
              (Ok (Some Samples.cached_context), Samples.durable_world))
    by (vm_compute; reflexivity).
  split; [exact H|].
  exact (lookup_serves_fresh_entries Samples.config "solar_{}" Samples.durable_world
           Samples.cached_context Samples.durable_world H).
Defined.

Lemma write_failures_are_swallowed_witness :
  setCachedResult Samples.config "solar_{}" Samples.cached_context
    Scenarios.read_only_world =
    (Ok tt, set_cache (<["solar_{}" := {| data := Samples.cached_context;
                                          timestamp := 1000 |}]> ∅)
              Scenarios.read_only_world) ∧
  persistResults Samples.config Samples.cached_context Scenarios.read_only_world
    = (Ok tt, Scenarios.read_only_world).
Proof.
  apply (write_failures_are_swallowed Samples.config "solar_{}" Samples.cached_context
           Scenarios.read_only_world).
  reflexivity.
Defined.

End CacheRoundTripWitnesses.

(** ** The stages of a research call *)

Section FrameStages.
Import ResearchAgent Frames.
Variable config : Config.t.
Variable plugins : Plugins.

Lemma steady_clock : respects steady clock.
Proof. apply steady_deleting. intros w. by eexists _, _. Qed.

Lemma steady_uuidv4 : respects steady uuidv4.
Proof. apply steady_deleting. intros w. by eexists _, _. Qed.

Lemma steady_readFile path : respects steady (readFile path).
Proof.
  apply steady_deleting. intros w. unfold readFile.
  destruct (disk w !! path); by eexists _, _.
Qed.

Lemma steady_unlink path : respects steady (unlink path).
Proof.
  apply steady_deleting. intros w. unfold unlink.
  destruct (disk_writable w) eqn:Hw; eexists _, _; (split; [reflexivity|]);
    cbn; rewrite ?Hw; repeat split; try done.
  apply delete_subseteq.
Qed.

Lemma steady_memoryLookup key : respects steady (memoryLookup config key).
Proof.
  apply steady_deleting. intros w. unfold memoryLookup.
  destruct (cache w !! key) as [c|]; [destruct (fresh _ _ _)|];
    eexists _, _; (split; [reflexivity|]); repeat split; try done.
  apply delete_subseteq.
Qed.

Ltac steady_step :=
  first
    [ apply (respects_bind steady); [|intros ?]
    | apply (respects_try_catch steady); [|intros ?]
    | apply (respects_ret steady) | apply (respects_throw steady)
    | apply steady_clock | apply steady_uuidv4 | apply steady_readFile
    | apply steady_unlink | apply steady_memoryLookup | apply steady_invoke
    | match goal with
      | |- respects steady (if ?b then _ else _) => destruct b
      | |- respects steady (match ?x with _ => _ end) => destruct x
      end ].

Lemma steady_getCachedResult key : respects steady (getCachedResult config key).
Proof. unfold getCachedResult, fileLookup. repeat steady_step. Qed.

Lemma steady_validate topic : respects steady (validate topic).
Proof. unfold validate. repeat steady_step. Qed.

Lemma steady_performSearch topic options :
  respects steady (performSearch plugins topic options).
Proof. unfold performSearch, fallbackSearch. repeat steady_step. Qed.

Lemma steady_extractContent source : respects steady (extractContent source).
Proof. unfold extractContent. repeat steady_step. Qed.

Lemma steady_analyzeContent c topic : respects steady (analyzeContent plugins c topic).
Proof. unfold analyzeContent. repeat steady_step. Qed.

Lemma steady_verifyInformation ctx : respects steady (verifyInformation plugins ctx).
Proof. unfold verifyInformation. repeat steady_step. Qed.

Lemma steady_queryLLM prompt : respects steady (queryLLM config plugins prompt).
Proof. unfold queryLLM. repeat steady_step. Qed.

Lemma steady_generateCitations results :
  respects steady (generateCitations config plugins results).
Proof. unfold generateCitations. repeat steady_step. Qed.

Lemma steady_generateAnalysis ctx : respects steady (generateAnalysis config plugins ctx).
Proof.
  unfold generateAnalysis. repeat first [apply steady_queryLLM | steady_step].
Qed.

Lemma steady_generateReport ctx : respects steady (generateReport config plugins ctx).
Proof.
  unfold generateReport.
  repeat first [apply steady_queryLLM | apply steady_generateCitations | steady_step].
Qed.

Lemma steady_analyzeSources topic sources results :
  respects steady (analyzeSources plugins topic sources results).
Proof.
  revert results. induction sources as [|s rest IH]; intros results; simpl.
  - apply (respects_ret steady).
  - apply (respects_bind steady); [apply steady_extractContent|].
    intros [c|]; [|apply IH].
    apply (respects_bind steady); [apply steady_analyzeContent|]. intros a. apply IH.
Qed.

Lemma steady_verificationStep ctx r w w' :
  (if Config.verificationEnabled config
   then v ← verifyInformation plugins ctx; mret (Some v)
   else mret None) w = (r, w') →
  steady w w'.
Proof.
  destruct (Config.verificationEnabled config).
  - apply (respects_bind steady); [apply steady_verifyInformation|].
    intros v. apply (respects_ret steady).
  - apply (respects_ret steady).
Qed.

(** *** What never throws *)

Lemma safe_modify f : safe (modify f).
Proof. intros w. by eexists _, _. Qed.

Lemma safe_emit name : safe (emit name).
Proof. apply safe_modify. Qed.

Lemma safe_clock : safe clock.
Proof. intros w. by eexists _, _. Qed.

Lemma safe_uuidv4 : safe uuidv4.
Proof. intros w. by eexists _, _. Qed.

Lemma safe_memoryLookup key : safe (memoryLookup config key).
Proof.
  intros w. unfold memoryLookup.
  destruct (cache w !! key) as [c|]; [destruct (fresh _ _ _)|]; by eexists _, _.
Qed.

Ltac safe_step :=
  first
    [ apply safe_try_catch; intros ?
    | apply safe_bind; [|intros ?]
    | apply safe_ret | apply safe_emit | apply safe_clock | apply safe_uuidv4
    | apply safe_modify | apply safe_memoryLookup
    | match goal with
      | |- safe (if ?b then _ else _) => destruct b
      | |- safe (match ?x with _ => _ end) => destruct x
      end ].

Lemma safe_getCachedResult key : safe (getCachedResult config key).
Proof. unfold getCachedResult, fileLookup. repeat safe_step. Qed.

Lemma safe_setCachedResult key d : safe (setCachedResult config key d).
Proof. unfold setCachedResult. repeat safe_step. Qed.

Lemma safe_persistResults ctx : safe (persistResults config ctx).
Proof. unfold persistResults. repeat safe_step. Qed.

Lemma safe_pushHistory topic ctx : safe (pushHistory topic ctx).
Proof. unfold pushHistory. repeat safe_step. Qed.

Lemma safe_extractContent source : safe (extractContent source).
Proof. unfold extractContent. repeat safe_step. Qed.

Lemma safe_generateAnalysis ctx : safe (generateAnalysis config plugins ctx).
Proof. unfold generateAnalysis. repeat safe_step. Qed.

Lemma safe_generateReport ctx : safe (generateReport config plugins ctx).
Proof. unfold generateReport. repeat safe_step. Qed.

(** The steps of [research] after the report is generated. *)
Lemma safe_store topic key ctx :
  safe (pushHistory topic ctx ;;
        (if Config.cacheEnabled config then setCachedResult config key ctx else mret tt) ;;
        (if Config.persistResults config then persistResults config ctx else mret tt) ;;
        emit "research:complete" ;;
        (mret ctx : M Context.t)).
Proof.
  repeat first [ apply safe_pushHistory | apply safe_setCachedResult
               | apply safe_persistResults | safe_step ].
Qed.

Lemma safe_performSearch topic options :
  reliable plugins → safe (performSearch plugins topic options).
Proof.
  intros (Hs & _). unfold performSearch, fallbackSearch.
  destruct (search plugins) as [f|] eqn:E; [|repeat safe_step].
  apply safe_invoke. intros t. by apply (Hs f).
Qed.

Lemma safe_analyzeContent c topic :
  reliable plugins → safe (analyzeContent plugins c topic).
Proof.
  intros (_ & Ha & _). unfold analyzeContent.
  destruct (analysis plugins) as [f|] eqn:E; [|repeat safe_step].
  apply safe_invoke. intros t. by apply (Ha f).
Qed.

Lemma safe_verifyInformation ctx :
  reliable plugins → safe (verifyInformation plugins ctx).
Proof.
  intros (_ & _ & Hv). unfold verifyInformation.
  destruct (verification plugins) as [f|] eqn:E; [|repeat safe_step].
  apply safe_invoke. intros t. by apply (Hv f).
Qed.

Lemma safe_analyzeSources topic sources results :
  reliable plugins → safe (analyzeSources plugins topic sources results).
Proof.
  intros Hr. revert results. induction sources as [|s rest IH]; intros results; simpl.
  - apply safe_ret.
  - apply safe_bind; [apply safe_extractContent|].
    intros [c|]; [|apply IH].
    apply safe_bind; [by apply safe_analyzeContent|]. intros a. apply IH.
Qed.

Lemma safe_runPipeline topic options key :
  reliable plugins → safe (runPipeline config plugins topic options key).
Proof.
  intros Hr. unfold runPipeline.
  apply safe_bind; [by apply safe_performSearch|]. intros searchResults.
  apply safe_bind; [by apply safe_analyzeSources|]. intros results.
  apply safe_bind.
  { destruct (Config.verificationEnabled config); [|apply safe_ret].
    apply safe_bind; [by apply safe_verifyInformation|]. intros v. apply safe_ret. }
  intros verification.
  apply safe_bind; [apply safe_generateAnalysis|]. intros a.
  apply safe_bind; [apply safe_generateReport|]. intros r.
  apply safe_store.
Qed.

Lemma safe_research topic options :
  reliable plugins → Js.truthy_str topic = true →
  safe (research config plugins (VStr topic) options).
Proof.
  intros Hr Ht. unfold research.
  apply safe_bind; [apply safe_emit|]. intros _.
  apply safe_guarded. unfold validate. rewrite Ht.
  apply safe_bind; [apply safe_ret|]. intros t.
  apply safe_bind.
  { destruct (Config.cacheEnabled config); [apply safe_getCachedResult | apply safe_ret]. }
  intros [cached|]; [repeat safe_step | by apply safe_runPipeline].
Qed.

(** *** The course of a call *)

(** The steps after the report: the history gains one entry, the result is
    put in the memory tier under the key when the cache is enabled, and
    written to the result file when persistence is enabled and possible. *)
Lemma store_effect topic key ctx w0 :
  ∃ w', (pushHistory topic ctx ;;
         (if Config.cacheEnabled config then setCachedResult config key ctx else mret tt) ;;
         (if Config.persistResults config then persistResults config ctx else mret tt) ;;
         emit "research:complete" ;;
         (mret ctx : M Context.t)) w0 = (Ok ctx, w') ∧
        now w' = now w0 ∧
        researchHistory w' =
          researchHistory w0 ++ [ {| h_id := next_id w0; h_topic := topic;
                                     h_timestamp := now w0; h_results := ctx |} ] ∧
        cache w' = (if Config.cacheEnabled config
                    then <[key := {| data := ctx; timestamp := now w0 |}]> (cache w0)
                    else cache w0) ∧
        trace w' = trace w0 ++ [Emitted "research:complete"] ∧
        (Config.persistResults config = true → disk_writable w0 = true →
         disk w' !! resultFileOf config (now w0) = Some (ResultFile ctx)).
Proof.
  set (w1 := set_history
               (researchHistory w0 ++ [ {| h_id := next_id w0; h_topic := topic;
                                           h_timestamp := now w0; h_results := ctx |} ])
               (set_next_id (S (next_id w0)) w0)).
  assert (E1 : pushHistory topic ctx w0 = (Ok tt, w1)) by reflexivity.
  assert (∃ w2, (if Config.cacheEnabled config then setCachedResult config key ctx
                 else mret tt) w1 = (Ok tt, w2) ∧
                now w2 = now w0 ∧ researchHistory w2 = researchHistory w1 ∧
                trace w2 = trace w0 ∧ disk_writable w2 = disk_writable w0 ∧
                cache w2 = (if Config.cacheEnabled config
                            then <[key := {| data := ctx; timestamp := now w0 |}]> (cache w0)
                            else cache w0)) as (w2 & E2 & N2 & H2 & T2 & W2 & C2).
  { destruct (Config.cacheEnabled config); [|by exists w1].
    destruct (setCachedResult_effect config key ctx w1)
      as (w2 & E & Hc & Hn & Hh & Ht & Hw & _). by exists w2. }
  assert (∃ w3, (if Config.persistResults config then persistResults config ctx
                 else mret tt) w2 = (Ok tt, w3) ∧
                now w3 = now w0 ∧ researchHistory w3 = researchHistory w1 ∧
                trace w3 = trace w0 ∧ cache w3 = cache w2 ∧
                (Config.persistResults config = true → disk_writable w0 = true →
                 disk w3 !! resultFileOf config (now w0) = Some (ResultFile ctx)))
    as (w3 & E3 & N3 & H3 & T3 & C3 & D3).
  { destruct (Config.persistResults config); [|by exists w2].
    unfold persistResults, try_catch, clock, writeFile, mbind, M_bind. rewrite W2, N2.
    destruct (disk_writable w0).
    - eexists. split; [reflexivity|]. cbn. repeat split; try done.
      intros _ _. apply lookup_insert_eq.
    - eexists. split; [reflexivity|]. by repeat split. }
  exists (record (Emitted "research:complete") w3).
  split; [|cbn; by rewrite N3, H3, T3, C3, C2].
  unfold mbind, M_bind. by rewrite E1, E2, E3.
Qed.

(** A pipeline that returns has run its stages, which store nothing, and
    then the storing steps on the context built from what the two
    synthesis stages returned. *)
Lemma runPipeline_Ok topic options key w ctx w' :
  runPipeline config plugins topic options key w = (Ok ctx, w') →
  ∃ c1 w1 a c2 w2 r w0,
    steady w w1 ∧
    generateAnalysis config plugins c1 w1 = (Ok a, w2) ∧
    Context.options c2 = Json.spread (Config.customization config) options ∧
    generateReport config plugins c2 w2 = (Ok r, w0) ∧
    Context.analysis ctx = Some a ∧ Context.report ctx = Some r ∧
    steady w w0 ∧
    (pushHistory topic ctx ;;
     (if Config.cacheEnabled config then setCachedResult config key ctx else mret tt) ;;
     (if Config.persistResults config then persistResults config ctx else mret tt) ;;
     emit "research:complete" ;;
     (mret ctx : M Context.t)) w0 = (Ok ctx, w').
Proof.
  unfold runPipeline. intros H.
  apply bind_Ok_inv in H as (searchResults & w1 & H1 & H).
  apply steady_performSearch in H1.
  apply bind_Ok_inv in H as (results & w2 & H2 & H).
  apply steady_analyzeSources in H2.
  apply bind_Ok_inv in H as (verification & w3 & H3 & H).
  apply steady_verificationStep in H3.
  apply bind_Ok_inv in H as (a & w4 & H4 & H).
  apply bind_Ok_inv in H as (r & w5 & H5 & H).
  assert (S3 : steady w w3) by (by repeat (etrans; [eassumption|])).
  assert (S5 : steady w w5).
  { etrans; [exact S3|]. etrans; [by eapply steady_generateAnalysis|].
    by eapply steady_generateReport. }
  set (c := {| Context.topic := topic; Context.analysis := Some a;
               Context.report := Some r |}) in *.
  destruct (store_effect topic key c w5) as (w6 & E & _).
  assert (ctx = c) as -> by (rewrite E in H; by injection H as <- <-).
  eexists _, w3, a, _, w4, r, w5.
  split; [exact S3|]. split; [exact H4|]. split; [|by split]. reflexivity.
Qed.

(** A pipeline that throws has not reached the steps that store. *)
Lemma runPipeline_Throw topic options key w e w' :
  runPipeline config plugins topic options key w = (Throw e, w') → steady w w'.
Proof.
  unfold runPipeline. intros H.
  apply bind_Throw_inv in H as [H|(searchResults & w1 & H1 & H)];
    [by apply steady_performSearch in H|].
  apply steady_performSearch in H1.
  apply bind_Throw_inv in H as [H|(results & w2 & H2 & H)];
    [apply steady_analyzeSources in H; by etrans|].
  apply steady_analyzeSources in H2.
  apply bind_Throw_inv in H as [H|(verification & w3 & H3 & H)];
    [apply steady_verificationStep in H; by repeat (etrans; [eassumption|])|].
  apply steady_verificationStep in H3.
  apply bind_Throw_inv in H as [H|(a & w4 & H4 & H)];
    [apply steady_generateAnalysis in H; by repeat (etrans; [eassumption|])|].
  apply steady_generateAnalysis in H4.
  apply bind_Throw_inv in H as [H|(r & w5 & H5 & H)];
    [apply steady_generateReport in H; by repeat (etrans; [eassumption|])|].
  set (c := {| Context.topic := topic; Context.analysis := Some a;
               Context.report := Some r |}) in *.
  destruct (store_effect topic key c w5) as (w6 & E & _).
  rewrite E in H. discriminate H.
Qed.

Lemma research_course topic options w r w' :
  research config plugins topic options w = (r, w') →
  course config plugins topic options w r w'.
Proof.
  unfold research. rewrite emit_bind. set (ws := record _ w).
  unfold try_catch.
  destruct (validate topic ws) as [[t|e] wv] eqn:Hv.
  - assert (topic = VStr t ∧ Js.truthy_str t = true ∧ wv = ws) as (-> & Ht & ->).
    { unfold validate in Hv. destruct topic; try done.
      destruct (Js.truthy_str s) eqn:Hs; [|done]. by injection Hv as <- <-. }
    unfold mbind at 1, M_bind at 1. rewrite Hv.
    unfold mbind at 1, M_bind at 1.
    destruct ((if Config.cacheEnabled config
               then getCachedResult config (generateCacheKey t (Json.JObj options))
               else mret None) ws) as [[[d|]|e] w1] eqn:Hc.
    + intros [= <- <-]. destruct (Config.cacheEnabled config) eqn:Hen; [|done].
      by eapply Served.
    + assert (S1 : steady ws w1).
      { revert Hc. destruct (Config.cacheEnabled config);
          [apply steady_getCachedResult | apply (respects_ret steady)]. }
      destruct (runPipeline config plugins t options _ w1) as [[ctx|e] w2] eqn:Hp.
      * intros [= <- <-]. by eapply Computed.
      * intros [= <- <-]. apply Failed. etrans; [eassumption|].
        by eapply runPipeline_Throw.
    + intros [= <- <-]. apply Failed.
      revert Hc. destruct (Config.cacheEnabled config);
        [apply steady_getCachedResult | apply (respects_ret steady)].
  - unfold mbind at 1, M_bind at 1. rewrite Hv. intros [= <- <-]. apply Failed.
    by eapply steady_validate.
Qed.

Lemma computed_effect t options w w1 ctx w' :
  steady (record (Emitted "research:start") w) w1 →
  runPipeline config plugins t options (generateCacheKey t (Json.JObj options)) w1
    = (Ok ctx, w') →
  now w' = now w ∧
  (∃ i, researchHistory w' =
          researchHistory w ++ [ {| h_id := i; h_topic := t; h_timestamp := now w;
                                    h_results := ctx |} ]) ∧
  (Config.cacheEnabled config = true →
   cache w' !! generateCacheKey t (Json.JObj options)
     = Some {| data := ctx; timestamp := now w |}) ∧
  (Config.persistResults config = true → disk_writable w = true →
   disk w' !! resultFileOf config (now w) = Some (ResultFile ctx)) ∧
  ∃ new, trace w' = trace w ++ new ∧
         emissions new = ["research:start"; "research:complete"].
Proof.
  intros S1 (c1 & w2 & a & c2 & w3 & r & w0 & _ & _ & _ & _ & _ & _ & S0 & H)%runPipeline_Ok.
  destruct (store_effect t (generateCacheKey t (Json.JObj options)) ctx w0)
    as (w4 & E & N & Hh & Hc & Ht & Hd).
  rewrite E in H. injection H as <-.
  assert (S : steady (record (Emitted "research:start") w) w0) by (by etrans).
  destruct S as (Sn & Sw & (Sh & _ & _) & new & St & Se). cbn in Sn, Sw, Sh, St.
  split; [by rewrite N|]. split; [exists (next_id w0); by rewrite Hh, Sh, Sn|].
  split; [intros Hen; by rewrite Hc, Hen, lookup_insert_eq, Sn|].
  split; [intros Hp Hw; rewrite <- Sn; apply Hd; [done|by rewrite Sw]|].
  exists ([Emitted "research:start"] ++ new ++ [Emitted "research:complete"]).
  split; [rewrite Ht, St; by rewrite <- !app_assoc|].
  rewrite !emissions_app, Se. reflexivity.
Qed.

(** X6.  A research call that fails has stored nothing: the research
    history is as it was, and the memory tier and the files have gained no
    entry (the cache lookup may have removed expired ones). *)
Theorem failed_call_stores_nothing topic options w e w' :
  research config plugins topic options w = (Throw e, w') →
  researchHistory w' = researchHistory w ∧ cache w' ⊆ cache w ∧ disk w' ⊆ disk w.
Proof.
  intros H%research_course. inversion H as [| |e0 w1 S]; subst.
  by destruct S as (_ & _ & S & _).
Qed.

(** X7.  When the installed search, analysis and verification capabilities
    do not throw, a research call on a non-empty topic always returns a
    result: a failing synthesis transport or citation capability, a cache
    file that cannot be read and directories that cannot be written do not
    make the call fail. *)
Theorem reliable_capabilities_give_a_result topic options w :
  reliable plugins →
  Js.truthy_str topic = true →
  ∃ ctx w', research config plugins (VStr topic) options w = (Ok ctx, w').
Proof. intros Hr Ht. by apply safe_research. Qed.

(** X8.  Every research call emits exactly two events: [research:start]
    first, and then one outcome event, which is [research:error] when the
    call fails and [research:complete] or [research:cache-hit] when it
    returns; it only appends to the trace. *)
Theorem call_emits_start_and_one_outcome topic options w r w' :
  research config plugins topic options w = (r, w') →
  ∃ new outcome,
    trace w' = trace w ++ new ∧
    emissions new = ["research:start"; outcome] ∧
    match r with
    | Ok _ => outcome = "research:complete" ∨ outcome = "research:cache-hit"
    | Throw _ => outcome = "research:error"
    end.
Proof.
  intros H%research_course.
  destruct H as [t w1 d -> Ht Hen Hc | t w1 ctx w' -> Ht S1 Hp | e w1 S].
  - apply getCachedResult_trace in Hc. cbn in Hc.
    exists [Emitted "research:start"; Emitted "research:cache-hit"], "research:cache-hit".
    split; [cbn; by rewrite Hc, <- app_assoc|]. split; [done|by right].
  - destruct (computed_effect _ _ _ _ _ _ S1 Hp) as (_ & _ & _ & _ & new & Ht' & He).
    exists new, "research:complete". split; [done|]. split; [done|by left].
  - destruct S as (_ & _ & _ & new & St & Se). cbn in St.
    exists ([Emitted "research:start"] ++ new ++ [Emitted "research:error"]),
      "research:error".
    split; [cbn; rewrite St; by rewrite <- !app_assoc|].
    split; [|done]. rewrite !emissions_app, Se. reflexivity.
Qed.

(** X9.  A research call that computes its result (it ends with
    [research:complete]) records it: the history gains exactly one entry,
    which holds the topic, the time of the call and the returned context;
    when the cache is enabled the memory tier holds the returned context
    under the call's cache key; and when persistence is enabled and the
    directory can be written the result file holds it. *)
Theorem computed_result_is_recorded topic options w ctx w' :
  research config plugins topic options w = (Ok ctx, w') →
  last (trace w') = Some (Emitted "research:complete") →
  ∃ t i,
    topic = VStr t ∧
    researchHistory w' =
      researchHistory w ++ [ {| h_id := i; h_topic := t; h_timestamp := now w;
                                h_results := ctx |} ] ∧
    (Config.cacheEnabled config = true →
     cache w' !! generateCacheKey t (Json.JObj options)
       = Some {| data := ctx; timestamp := now w |}) ∧
    (Config.persistResults config = true → disk_writable w = true →
     disk w' !! resultFileOf config (now w) = Some (ResultFile ctx)).
Proof.
  intros H%research_course Hlast.
  inversion H as [t w1 d -> Ht Hen Hc | t w1 ctx0 w0 -> Ht S1 Hp |]; subst.
  - cbn in Hlast. by apply last_snoc_inv in Hlast.
  - destruct (computed_effect _ _ _ _ _ _ S1 Hp) as (_ & (i & Hh) & Hc & Hd & _).
    by exists t, i.
Qed.

(** X10.  A research call served from the cache (it ends with
    [research:cache-hit]) invokes no capability and records nothing: its
    trace is the two events [research:start] and [research:cache-hit], the
    history is as it was, and the memory tier and the files gain no
    entry. *)
Theorem served_result_is_not_recorded topic options w ctx w' :
  research config plugins topic options w = (Ok ctx, w') →
  last (trace w') = Some (Emitted "research:cache-hit") →
  trace w' = trace w ++ [Emitted "research:start"; Emitted "research:cache-hit"] ∧
  researchHistory w' = researchHistory w ∧ cache w' ⊆ cache w ∧ disk w' ⊆ disk w.
Proof.
  intros H%research_course Hlast.
  inversion H as [t w1 d -> Ht Hen Hc | t w1 ctx0 w0 -> Ht S1 Hp |]; subst.
  - pose proof (getCachedResult_trace _ _ _ _ _ Hc) as Htr.
    apply steady_getCachedResult in Hc as (_ & _ & S & _). cbn in *.
    split; [by rewrite Htr, <- app_assoc|done].
  - destruct (computed_effect _ _ _ _ _ _ S1 Hp) as (_ & _ & _ & _ & new & Ht' & He).
    exfalso. rewrite Ht' in Hlast.
    destruct new as [|ev new _] using rev_ind; [done|].
    rewrite app_assoc in Hlast. apply last_snoc_inv in Hlast as ->.
    rewrite emissions_app in He. cbn in He.
    destruct (emissions new) as [|a [|b [|c l]]]; by simplify_eq/=.
Qed.

(** X11.  With the cache enabled, a call that computed its result makes
    the same call cheap: repeated with the same topic and options before
    [cacheTtl] seconds have elapsed, the call returns the same context
    from the cache, emitting [research:start] and [research:cache-hit]
    and invoking no capability. *)
Theorem repeated_call_served_from_cache topic options w ctx w' elapsed :
  Config.cacheEnabled config = true →
  (elapsed < Config.cacheTtl config * 1000)%Z →
  research config plugins topic options w = (Ok ctx, w') →
  last (trace w') = Some (Emitted "research:complete") →
  research config plugins topic options (advance elapsed w') =
    (Ok ctx, record (Emitted "research:cache-hit")
               (record (Emitted "research:start") (advance elapsed w'))).
Proof.
  intros Hen He H%research_course Hlast.
  inversion H as [t w1 d -> Ht _ Hc | t w1 ctx0 w0 -> Ht S1 Hp |]; subst.
  - cbn in Hlast. by apply last_snoc_inv in Hlast.
  - destruct (computed_effect _ _ _ _ _ _ S1 Hp) as (Hn & _ & Hc & _).
    specialize (Hc Hen).
    unfold research. rewrite emit_bind. unfold try_catch, validate. rewrite Ht.
    unfold mbind at 1, M_bind at 1. cbn [mret M_ret]. rewrite Hen.
    unfold mbind at 1, M_bind at 1.
    rewrite (getCachedResult_memory_hit config _ _ {| data := ctx; timestamp := now w |}).
    + reflexivity.
    + exact Hc.
    + cbn. rewrite Hn. by apply fresh_elapsed.
Qed.

(** *** Synthesis without credentials *)

Lemma queryLLM_unavailable prompt w :
  synthesis_unavailable config →
  ∃ e, queryLLM config plugins prompt w = (Throw e, w).
Proof.
  intros Hu. unfold queryLLM.
  destruct (Js.truthy_str (Config.apiKey config)) eqn:Hk; [|by eexists].
  destruct (String.eqb_spec (Config.provider config) "openai") as [Hp|Hp]; [|by eexists].
  destruct Hu as [Hu|Hu]; [|done]. by rewrite Hu in Hk.
Qed.

Lemma generateAnalysis_unavailable ctx w :
  synthesis_unavailable config →
  generateAnalysis config plugins ctx w = (Ok (failedAnalysis (now w)), w).
Proof.
  intros Hu. unfold generateAnalysis, try_catch, mbind at 1, M_bind at 1.
  by destruct (queryLLM_unavailable (AnalysisPrompt ctx) w Hu) as (e & ->).
Qed.

Lemma generateReport_unavailable ctx w :
  synthesis_unavailable config →
  generateReport config plugins ctx w =
    (Ok (failedReport (Json.field "format" (Context.options ctx)) (now w)), w).
Proof.
  intros Hu. unfold generateReport, try_catch, mbind at 1, M_bind at 1.
  by destruct (queryLLM_unavailable (ReportPrompt ctx) w Hu) as (e & ->).
Qed.

(** X12.  Without an API key, or with a provider other than [openai],
    the two synthesis stages send no request and generate no citation:
    [generateAnalysis] returns the analysis whose summary is [Analysis
    could not be generated] and [generateReport] the report whose content
    is [Report could not be generated], with no citations and the
    requested format, and the agent's state and trace are unchanged. *)
Theorem synthesis_falls_back_without_credentials ctx w :
  synthesis_unavailable config →
  generateAnalysis config plugins ctx w = (Ok (failedAnalysis (now w)), w) ∧
  generateReport config plugins ctx w =
    (Ok (failedReport (Json.field "format" (Context.options ctx)) (now w)), w).
Proof.
  intros Hu. split; [by apply generateAnalysis_unavailable|].
  by apply generateReport_unavailable.
Qed.

(** X13.  Without an API key, or with a provider other than [openai], a
    research call still completes, and the context it computes holds the
    two placeholders: the analysis [Analysis could not be generated] and
    the report [Report could not be generated] without citations, in the
    format found in the merged options. *)
Theorem research_degrades_without_synthesis topic options w ctx w' :
  synthesis_unavailable config →
  research config plugins topic options w = (Ok ctx, w') →
  last (trace w') = Some (Emitted "research:complete") →
  Context.analysis ctx = Some (failedAnalysis (now w)) ∧
  Context.report ctx =
    Some (failedReport
            (Json.field "format" (Json.spread (Config.customization config) options))
            (now w)).
Proof.
  intros Hu H%research_course Hlast.
  inversion H as [t w1 d -> Ht Hen Hc | t w1 ctx0 w0 -> Ht S1 Hp |]; subst.
  - cbn in Hlast. by apply last_snoc_inv in Hlast.
  - apply runPipeline_Ok in Hp
      as (c1 & w2 & a & c2 & w3 & r & w4 & S2 & Ha & Ho & Hr & -> & -> & _).
    rewrite (generateAnalysis_unavailable _ _ Hu) in Ha. injection Ha as <- <-.
    rewrite (generateReport_unavailable _ _ Hu) in Hr. injection Hr as <- _.
    assert (now w2 = now w) as ->.
    { destruct S1 as (N1 & _), S2 as (N2 & _). by rewrite N2, N1. }
    by rewrite Ho.
Qed.
End FrameStages.

Section CallWitnesses.
Import ResearchAgent Frames Scenarios.

Lemma failed_call_stores_nothing_witness :
  failed_call = (Throw "search backend down", failed_call.2) ∧
  researchHistory failed_call.2 = researchHistory Samples.empty_world ∧
  cache failed_call.2 ⊆ cache Samples.empty_world ∧
  disk failed_call.2 ⊆ disk Samples.empty_world.
Proof.
  assert (H : failed_call = (Throw "search backend down", failed_call.2))
    by (vm_compute; reflexivity).
  split; [exact H|].
  exact (failed_call_stores_nothing Samples.config Samples.failing_search
           (VStr "solar") [] Samples.empty_world _ _ H).
Defined.

Lemma one_source_reliable : reliable one_source.
Proof.
  repeat split; try discriminate.
  intros f [= <-] t topic options. by eexists.
Qed.

Lemma reliable_capabilities_give_a_result_witness :
  reliable one_source ∧
  ∃ ctx w', research Samples.config one_source (VStr "solar") [] Samples.empty_world
            = (Ok ctx, w').
Proof.
  split; [exact one_source_reliable|].
  apply (reliable_capabilities_give_a_result Samples.config one_source "solar" []
           Samples.empty_world one_source_reliable).
  reflexivity.
Defined.

Lemma call_emits_start_and_one_outcome_witness :
  ∃ new outcome,
    trace first_call.2 = trace Samples.empty_world ++ new ∧
    emissions new = ["research:start"; outcome] ∧
    match first_call.1 with
    | Ok _ => outcome = "research:complete" ∨ outcome = "research:cache-hit"
    | Throw _ => outcome = "research:error"
    end.
Proof.
  apply (call_emits_start_and_one_outcome Samples.config one_source (VStr "solar") []).
  apply surjective_pairing.
Defined.

Lemma computed_result_is_recorded_witness :
  ∃ ctx, first_call = (Ok ctx, first_call.2) ∧
  last (trace first_call.2) = Some (Emitted "research:complete") ∧
  ∃ t i,
    VStr "solar" = VStr t ∧
    researchHistory first_call.2 =
      researchHistory Samples.empty_world ++
        [ {| h_id := i; h_topic := t; h_timestamp := now Samples.empty_world;
             h_results := ctx |} ] ∧
    (Config.cacheEnabled Samples.config = true →
     cache first_call.2 !! generateCacheKey t (Json.JObj [])
       = Some {| data := ctx; timestamp := now Samples.empty_world |}) ∧
    (Config.persistResults Samples.config = true →
     disk_writable Samples.empty_world = true →
     disk first_call.2 !! resultFileOf Samples.config (now Samples.empty_world)
       = Some (ResultFile ctx)).
Proof.
  assert (L : last (trace first_call.2) = Some (Emitted "research:complete"))
    by (vm_compute; reflexivity).
  destruct first_call as [[ctx|e] w'] eqn:E; [|vm_compute in E; discriminate E].
  exists ctx. split; [reflexivity|]. split; [exact L|].
  exact (computed_result_is_recorded Samples.config one_source (VStr "solar") []
           Samples.empty_world ctx w' E L).
Defined.

Lemma served_result_is_not_recorded_witness :
  ∃ ctx, served_call = (Ok ctx, served_call.2) ∧
  last (trace served_call.2) = Some (Emitted "research:cache-hit") ∧
  trace served_call.2 =
    trace Samples.durable_world ++ [Emitted "research:start"; Emitted "research:cache-hit"] ∧
  researchHistory served_call.2 = researchHistory Samples.durable_world ∧
  cache served_call.2 ⊆ cache Samples.durable_world ∧
  disk served_call.2 ⊆ disk Samples.durable_world.
Proof.
  assert (L : last (trace served_call.2) = Some (Emitted "research:cache-hit"))
    by (vm_compute; reflexivity).
  destruct served_call as [[ctx|e] w'] eqn:E; [|vm_compute in E; discriminate E].
  exists ctx. split; [reflexivity|]. split; [exact L|].
  exact (served_result_is_not_recorded Samples.config one_source (VStr "solar") []
           Samples.durable_world ctx w' E L).
Defined.

Lemma repeated_call_served_from_cache_witness :
  ∃ ctx, first_call = (Ok ctx, first_call.2) ∧
  last (trace first_call.2) = Some (Emitted "research:complete") ∧
  research Samples.config one_source (VStr "solar") [] (advance 60000 first_call.2) =
    (Ok ctx, record (Emitted "research:cache-hit")
               (record (Emitted "research:start") (advance 60000 first_call.2))).
Proof.
  assert (L : last (trace first_call.2) = Some (Emitted "research:complete"))
    by (vm_compute; reflexivity).
  destruct first_call as [[ctx|e] w'] eqn:E; [|vm_compute in E; discriminate E].
  exists ctx. split; [reflexivity|]. split; [exact L|].
  apply (repeated_call_served_from_cache Samples.config one_source (VStr "solar") []
           Samples.empty_world ctx w' 60000); trivial; reflexivity.
Defined.

Lemma synthesis_falls_back_without_credentials_witness :
  synthesis_unavailable offline_config ∧
  generateAnalysis offline_config one_source Samples.cached_context Samples.empty_world
    = (Ok (failedAnalysis 1000), Samples.empty_world) ∧
  generateReport offline_config one_source Samples.cached_context Samples.empty_world
    = (Ok (failedReport None 1000), Samples.empty_world).
Proof.
  assert (H : synthesis_unavailable offline_config) by (left; reflexivity).
  split; [exact H|].
  exact (synthesis_falls_back_without_credentials offline_config one_source
           Samples.cached_context Samples.empty_world H).
Defined.

Lemma research_degrades_without_synthesis_witness :
  synthesis_unavailable offline_config ∧
  ∃ ctx, offline_call = (Ok ctx, offline_call.2) ∧
  last (trace offline_call.2) = Some (Emitted "research:complete") ∧
  Context.analysis ctx = Some (failedAnalysis 1000) ∧
  Context.report ctx = Some (failedReport None 1000).
Proof.
  assert (H : synthesis_unavailable offline_config) by (left; reflexivity).
  split; [exact H|].
  assert (L : last (trace offline_call.2) = Some (Emitted "research:complete"))
    by (vm_compute; reflexivity).
  destruct offline_call as [[ctx|e] w'] eqn:E; [|vm_compute in E; discriminate E].
  exists ctx. split; [reflexivity|]. split; [exact L|].
  exact (research_degrades_without_synthesis offline_config one_source (VStr "solar") []
           Samples.empty_world ctx w' H E L).
Defined.
End CallWitnesses.

(** ** The search capability *)

Section RankingFacts.
Import Ranking.
Local Open Scope Q_scope.








End RankingFacts.

Section SearchFacts.
Import ResearchAgent Ranking Engines.
Local Open Scope Q_scope.



Lemma gather_returning engines t topic options :
  gather (filter (λ entry, returns topic options t entry = true) engines) t topic options
  = gather engines t topic options.
Proof.
  unfold gather. induction engines as [|[name engine] engines IH]; [done|].
  rewrite filter_cons.
  destruct (decide (returns topic options t (name, engine) = true)) as [Hr|Hr];
    simpl; [by rewrite IH|].
  rewrite IH. unfold returns in Hr. simpl in Hr.
  by destruct (engine t topic options).
Qed.

(** An engine that throws is skipped: [search] returns what it returns
    when only the engines that answer the query are registered. *)
Lemma search_skips_failing_engines threshold engines t topic options :
  search threshold engines t topic options =
  search threshold (filter (λ entry, returns topic options t entry = true) engines)
    t topic options.
Proof. unfold search. by rewrite gather_returning. Qed.

Lemma map_set_keys {V} (m : list (string * V)) k v x :
  x ∈ (map_set m k v).*1 ↔ x = k ∨ x ∈ m.*1.
Proof.
  induction m as [|[k' v'] m IH]; simpl.
  - rewrite list_elem_of_singleton. set_solver.
  - destruct (String.eqb_spec k' k) as [->|Hne]; simpl; rewrite !elem_of_cons.
    + naive_solver.
    + rewrite IH. naive_solver.
Qed.

Lemma map_set_NoDup {V} (m : list (string * V)) k v :
  NoDup m.*1 → NoDup (map_set m k v).*1.
Proof.
  induction m as [|[k' v'] m IH]; simpl; intros Hnd.
  - apply NoDup_singleton.
  - inversion_clear Hnd as [|? ? Hk Hnd'].
    destruct (String.eqb_spec k' k) as [->|Hne]; simpl.
    + by constructor.
    + constructor; [|by apply IH]. rewrite map_set_keys. naive_solver.
Qed.

Lemma map_set_elem {V} (m : list (string * V)) k v x y :
  (x, y) ∈ map_set m k v → (x = k ∧ y = v) ∨ (x, y) ∈ m.
Proof.
  induction m as [|[k' v'] m IH]; simpl.
  - intros [= -> ->]%list_elem_of_singleton. by left.
  - destruct (String.eqb_spec k' k) as [->|Hne]; rewrite !elem_of_cons.
    + intros [[= -> ->]|H]; [by left|right; by right].
    + intros [[= -> ->]|H]; [right; by left|].
      destruct (IH H) as [?|?]; [by left|right; by right].
Qed.

(** X16.  [initSearchEngines] registers each supported engine that the
    configuration names exactly once, under its name and bound to its
    implementation, and ignores every other name. *)
Theorem initSearchEngines_registers_supported impl searchEngines :
  NoDup (initSearchEngines impl searchEngines).*1 ∧
  (∀ name, name ∈ (initSearchEngines impl searchEngines).*1 ↔
           name ∈ searchEngines ∧ is_Some (engine_of impl name)) ∧
  (∀ name engine, (name, engine) ∈ initSearchEngines impl searchEngines →
                  engine_of impl name = Some engine).
Proof.
  unfold initSearchEngines.
  assert (G : ∀ m : list (string * Engine),
             NoDup m.*1 →
             (∀ name engine, (name, engine) ∈ m → engine_of impl name = Some engine) →
             let out := fold_left
                          (λ m engine, match engine_of impl engine with
                                       | Some f => map_set m engine f
                                       | None => m
                                       end) searchEngines m in
             NoDup out.*1 ∧
             (∀ name, name ∈ out.*1 ↔
                      name ∈ m.*1 ∨ (name ∈ searchEngines ∧ is_Some (engine_of impl name))) ∧
             (∀ name engine, (name, engine) ∈ out → engine_of impl name = Some engine)).
  { induction searchEngines as [|e es IH]; intros m Hnd Hm; simpl.
    - split; [done|]. split; [|done]. intros name. rewrite elem_of_nil. naive_solver.
    - destruct (engine_of impl e) as [f|] eqn:E.
      + destruct (IH (map_set m e f)) as (H1 & H2 & H3).
        * by apply map_set_NoDup.
        * intros name engine [[-> ->]|H]%map_set_elem; [done|by apply Hm].
        * split; [done|]. split; [|done]. intros name.
          rewrite H2, map_set_keys, elem_of_cons. split; [|naive_solver].
          intros [[->|?]|[? ?]]; [|by left|naive_solver].
          right. split; [by left|]. by rewrite E.
      + destruct (IH m Hnd Hm) as (H1 & H2 & H3).
        split; [done|]. split; [|done]. intros name.
        rewrite H2, elem_of_cons. split; [naive_solver|].
        intros [?|[[->|?] Hs]]; [by left| |naive_solver].
        rewrite E in Hs. by destruct Hs. }
  destruct (G [] (NoDup_nil_2) ltac:(by intros ? ? ?%elem_of_nil)) as (H1 & H2 & H3).
  split; [done|]. split; [|done]. intros name. rewrite H2. simpl.
  rewrite elem_of_nil. naive_solver.
Qed.
End SearchFacts.

(** ** The analysis capability *)

Section Words.
Variable delim : ascii → bool.

Lemma split_runs_nonempty s cur b : Js.split_runs delim s cur b ≠ [].
Proof.
  revert cur b. induction s as [|c s IH]; intros cur b; simpl; [done|].
  destruct (delim c); [destruct b|]; try done; apply IH.
Qed.

(** A text that ends with a delimiter has an empty last piece. *)
Lemma split_runs_trailing s c cur b :
  delim c = true →
  EmptyString ∈ Js.split_runs delim (s +:+ String c EmptyString) cur b.
Proof.
  intros Hc. revert cur b. induction s as [|d s IH]; intros cur b.
  - rewrite string_app_nil_l. simpl. rewrite Hc.
    destruct b; [by left|]. right. by left.
  - rewrite string_app_cons. simpl.
    destruct (delim d); [destruct b|]; try apply IH. right. apply IH.
Qed.

Lemma filter_chars_length p s : (String.length (Js.filter_chars p s) ≤ String.length s)%nat.
Proof.
  induction s as [|c s IH]; simpl; [done|]. destruct (p c); simpl; lia.
Qed.

Lemma filter_chars_all p s : Js.filter_chars p s = s ↔ Json.all_chars p s = true.
Proof.
  induction s as [|c s IH]; simpl; [done|].
  destruct (p c) eqn:E; simpl.
  - rewrite <- IH. split; [by intros [= ->]|by intros ->].
  - split; [|done]. intros H.
    pose proof (filter_chars_length p s) as Hl. rewrite H in Hl. simpl in Hl. lia.
Qed.

(** The pieces that [split] returns hold no delimiter. *)
Lemma split_pieces_plain s w :
  w ∈ Js.split delim s → Json.all_chars (Js.non delim) w = true.
Proof.
  intros Hw. apply filter_chars_all.
  pose proof (split_runs_plain delim s EmptyString false eq_refl) as H.
  rewrite Forall_forall in H. by apply H.
Qed.

Lemma prefix_all p sub s :
  String.prefix sub s = true → Json.all_chars p s = true → Json.all_chars p sub = true.
Proof.
  revert s. induction sub as [|c sub IH]; intros s; [done|].
  destruct s as [|d s]; simpl; [done|].
  destruct (Ascii.ascii_dec c d) as [->|]; [|done].
  intros Hp [Hd Hs]%andb_true_iff. rewrite Hd. simpl. by eapply IH.
Qed.

Lemma includes_cons c s sub :
  Js.includes (String c s) sub = String.prefix sub (String c s) || Js.includes s sub.
Proof. reflexivity. Qed.

(** What a string includes is made of its code units. *)
Lemma includes_all p s sub :
  Js.includes s sub = true → Json.all_chars p s = true → Json.all_chars p sub = true.
Proof.
  induction s as [|c s IH].
  - simpl. rewrite orb_false_r. intros H _. by destruct sub.
  - rewrite includes_cons. intros [H|H]%orb_true_iff Hall.
    + by eapply prefix_all.
    + simpl in Hall. apply andb_true_iff in Hall as [_ Hs]. by apply IH.
Qed.

Lemma includes_empty s : Js.includes s EmptyString = true.
Proof. by destruct s. Qed.

Lemma filter_all {A} (P : A → Prop) `{!∀ x, Decision (P x)} (l : list A) :
  (∀ x, P x) → filter P l = l.
Proof.
  intros HP. induction l as [|x l IH]; [done|].
  rewrite filter_cons, decide_True by done. by rewrite IH.
Qed.
End Words.

Section AnalysisFacts.
Import AnalysisPlugin.
Local Open Scope Q_scope.

Lemma lower_space c : Js.is_space c = true → Js.lower c = c.
Proof.
  unfold Js.is_space, Js.lower, Js.code. intros H.
  destruct c as [[] [] [] [] [] [] [] []]; try done.
Qed.

Lemma map_chars_app f a b :
  Js.map_chars f (a +:+ b) = Js.map_chars f a +:+ Js.map_chars f b.
Proof. induction a as [|c a IH]; [done|]. rewrite !string_app_cons. simpl. by rewrite IH. Qed.

Lemma words_nonempty text : (1 ≤ length (words text))%nat.
Proof.
  unfold words, Js.split.
  pose proof (split_runs_nonempty Js.is_space text EmptyString false).
  destruct (Js.split_runs _ _ _ _); [done|simpl; lia].
Qed.

Lemma inject_nat_pos n : (0 < n)%nat → 0 < inject_Z (Z.of_nat n).
Proof. intros H. change 0 with (inject_Z 0). rewrite <- Zlt_Qlt. lia. Qed.

Lemma ratio_bounds count total : (count ≤ total)%nat → 0 <= ratio count total <= 1.
Proof.
  intros H. unfold ratio.
  assert (Hc : (count ≤ Nat.max total 1)%nat) by lia.
  set (m := Nat.max total 1) in *.
  assert (0 < inject_Z (Z.of_nat m)) by (apply inject_nat_pos; lia).
  assert (0 <= inject_Z (Z.of_nat count)).
  { change 0 with (inject_Z 0). rewrite <- Zle_Qle. lia. }
  assert (inject_Z (Z.of_nat count) <= inject_Z (Z.of_nat m)).
  { rewrite <- Zle_Qle. lia. }
  split.
  - apply Qle_shift_div_l; [done|]. lra.
  - apply Qle_shift_div_r; [done|]. lra.
Qed.

Lemma ratio_full total : (1 ≤ total)%nat → ratio total total == 1.
Proof.
  intros H. unfold ratio. rewrite Nat.max_l by done.
  pose proof (inject_nat_pos total H).
  unfold Qdiv. apply Qmult_inv_r. lra.
Qed.

Lemma ratio_lower count total :
  (1 ≤ count)%nat → (count ≤ total)%nat → (total < 20)%nat → 0.05 < ratio count total.
Proof.
  intros H1 Hle H20. unfold ratio. rewrite Nat.max_l by lia.
  assert (0 < inject_Z (Z.of_nat total)) by (apply inject_nat_pos; lia).
  assert (1 <= inject_Z (Z.of_nat count)).
  { change 1 with (inject_Z 1). rewrite <- Zle_Qle. lia. }
  assert (inject_Z (Z.of_nat total) <= 19).
  { change 19 with (inject_Z 19). rewrite <- Zle_Qle. lia. }
  apply Qlt_shift_div_l; [done|]. lra.
Qed.

(** A text with an empty word: every word contains the empty string. *)
Lemma matchesWord_blank contentWords word :
  EmptyString ∈ contentWords → matchesWord contentWords word = true.
Proof.
  intros H. unfold matchesWord. apply existsb_exists. exists EmptyString.
  split; [by apply list_elem_of_In|]. by rewrite includes_empty, orb_true_r.
Qed.

Lemma padded_has_empty_word text :
  padded text → EmptyString ∈ words (Js.toLowerCase text).
Proof.
  unfold words, Js.split, Js.toLowerCase.
  intros [->|[(c & r & -> & Hc)|(r & c & -> & Hc)]].
  - by left.
  - simpl. rewrite (lower_space c Hc), Hc. by left.
  - rewrite map_chars_app. simpl. rewrite (lower_space c Hc).
    by apply split_runs_trailing.
Qed.

(** X17.  The relevance that [calculateRelevance] gives lies between 0
    and 1; and a content text that is empty, or begins or ends with white
    space, is fully relevant to every topic: the relevance is 1, because
    splitting such a text yields an empty word, which every topic word
    includes. *)
Theorem relevance_of_padded_text contentText topic :
  0 <= calculateRelevance contentText topic <= 1 ∧
  (padded contentText → calculateRelevance contentText topic == 1).
Proof.
  unfold calculateRelevance.
  set (topicWords := words (Js.toLowerCase topic)).
  set (contentWords := words (Js.toLowerCase contentText)).
  set (matched := filter _ topicWords).
  assert (Hle : (length matched ≤ length topicWords)%nat) by apply length_filter.
  destruct (ratio_bounds _ _ Hle) as [H0 H1]. split.
  - split; [apply Q.min_glb; lra | apply Q.le_min_l].
  - intros Hp. apply padded_has_empty_word in Hp.
    assert (matched = topicWords) as ->.
    { subst matched. apply filter_all. intros word. by apply matchesWord_blank. }
    rewrite ratio_full by apply words_nonempty. apply Q.min_id.
Qed.







Lemma countMatching_le lexicon ws : (countMatching lexicon ws ≤ length ws)%nat.
Proof. apply length_filter. Qed.

(** An indicator that contains white space is contained in no word. *)
Lemma spaced_never_included text word indicator :
  word ∈ words text →
  Json.all_chars (Js.non Js.is_space) indicator = false →
  Js.includes word indicator = false.
Proof.
  intros Hw Hi. destruct (Js.includes word indicator) eqn:E; [|done].
  apply split_pieces_plain in Hw.
  by rewrite (includes_all _ _ _ E Hw) in Hi.
Qed.

Lemma countMatching_ext l1 l2 ws :
  (∀ word, word ∈ ws → existsb (Js.includes word) l1 = existsb (Js.includes word) l2) →
  countMatching l1 ws = countMatching l2 ws.
Proof.
  intros H. unfold countMatching. f_equal.
  induction ws as [|w ws IH]; [done|].
  rewrite !filter_cons, (H w) by (by left).
  rewrite IH by (intros word Hw; apply H; by right). done.
Qed.

(** X19.  The indicator [of course] of [detectBias] never counts: the
    indicators are looked for in the words that splitting at white space
    yields, and no such word contains a space; the bias of every text is
    what it is without that indicator in the list. *)
Theorem multiword_indicator_never_matches text :
  detectBias text =
  biasLevel (filter (λ indicator, indicator ≠ "of course") biasIndicators) text.
Proof.
  unfold detectBias, biasLevel.
  rewrite (countMatching_ext biasIndicators
             (filter (λ indicator, indicator ≠ "of course") biasIndicators)); [done|].
  intros word Hw.
  pose proof (spaced_never_included _ word "of course" Hw eq_refl) as Hno.
  vm_compute filter. cbn [biasIndicators existsb]. by rewrite Hno.
Qed.

(** X20.  One loaded word makes a short text highly biased: a text of
    fewer than 20 words, one of which contains an indicator (such as
    [all], [only] or [just], also inside a longer word), has bias
    [high]. *)
Theorem short_loaded_text_is_high_bias text :
  (length (words (Js.toLowerCase text)) < 20)%nat →
  loaded text →
  detectBias text = "high".
Proof.
  intros Hshort (word & indicator & Hw & Hi & Hinc).
  unfold detectBias, biasLevel.
  set (ws := words (Js.toLowerCase text)) in *.
  assert (H1 : (1 ≤ countMatching biasIndicators ws)%nat).
  { unfold countMatching.
    assert (Hin : word ∈ filter (λ w, existsb (Js.includes w) biasIndicators = true) ws).
    { apply list_elem_of_filter. split; [|done]. apply existsb_exists.
      exists indicator. split; [by apply list_elem_of_In|done]. }
    destruct (filter _ ws); [by apply elem_of_nil in Hin|simpl; lia]. }
  pose proof (ratio_lower _ _ H1 (countMatching_le _ _) Hshort) as Hr.
  destruct (Qlt_le_dec 0.05 _); [done|lra].
Qed.

Lemma assessReadability_bounds text : 0 <= assessReadability text <= 1.
Proof.
  unfold assessReadability. destruct (_ || _); [lra|].
  split; [apply Q.le_max_l|]. apply Q.max_lub; [lra|apply Q.le_min_l].
Qed.

(** X21.  The readability that [assessReadability] gives lies between 0
    and 1; a text whose words average eight code units or more has
    readability 0; and a result whose analysis holds that readability
    escapes the penalty that [calculateCredibility] puts on a readability
    below 0.2, because the number 0 is falsy. *)
Theorem dense_text_escapes_readability_penalty text a :
  (0 < sentenceCount text)%nat →
  (0 < wordCount text)%nat →
  (8 * wordCount text ≤ characterCount text)%nat →
  Analysis.readability a = Some (assessReadability text) →
  0 <= assessReadability text <= 1 ∧
  assessReadability text == 0 ∧
  VerificationPlugin.readability_bonus (Some a) = 0.
Proof.
  intros Hs Hw Hc Ha. split; [apply assessReadability_bounds|].
  assert (H0 : assessReadability text == 0).
  { unfold assessReadability.
    destruct (Nat.eqb_spec (sentenceCount text) 0) as [?|_]; [lia|].
    destruct (Nat.eqb_spec (wordCount text) 0) as [?|_]; [lia|]. cbn [orb].
    assert (Hari : 13 <= ari text).
    { unfold ari.
      pose proof (inject_nat_pos _ Hs) as Ps. pose proof (inject_nat_pos _ Hw) as Pw.
      assert (8 <= inject_Z (Z.of_nat (characterCount text))
                   / inject_Z (Z.of_nat (wordCount text))).
      { apply Qle_shift_div_l; [done|].
        change 8 with (inject_Z 8). rewrite <- inject_Z_mult, <- Zle_Qle. lia. }
      assert (0 <= inject_Z (Z.of_nat (wordCount text))
                   / inject_Z (Z.of_nat (sentenceCount text))).
      { apply Qle_shift_div_l; [done|]. lra. }
      lra. }
    assert ((13 - ari text) / 13 <= 0).
    { apply Qle_shift_div_r; [lra|]. lra. }
    rewrite (Q.min_r 1) by lra. apply Q.max_l. done. }
  split; [done|].
  unfold VerificationPlugin.readability_bonus. rewrite Ha.
  unfold Js.truthy_num. by rewrite (proj2 (Qeq_bool_iff _ _) H0).
Qed.
End AnalysisFacts.

(** ** The verification capability *)

Section NormalisationFacts.
Import VerificationPlugin Listing.

Lemma all_chars_impl (p q : ascii → bool) s :
  (∀ c, p c = true → q c = true) → Json.all_chars p s = true → Json.all_chars q s = true.
Proof.
  intros H. induction s as [|c s IH]; simpl; [done|].
  intros [Hc Hs]%andb_true_iff. by rewrite (H c Hc), IH.
Qed.

Lemma all_chars_filter p q s :
  Json.all_chars p s = true → Json.all_chars p (Js.filter_chars q s) = true.
Proof.
  induction s as [|c s IH]; simpl; [done|].
  intros [Hc Hs]%andb_true_iff. destruct (q c); simpl; [rewrite Hc|]; by apply IH.
Qed.

Lemma all_chars_filtered q s : Json.all_chars q (Js.filter_chars q s) = true.
Proof.
  induction s as [|c s IH]; simpl; [done|].
  destruct (q c) eqn:E; simpl; [by rewrite E|done].
Qed.

Lemma all_chars_trimStart p s :
  Json.all_chars p s = true → Json.all_chars p (Js.trimStart s) = true.
Proof.
  induction s as [|c s IH]; simpl; [done|].
  intros H. destruct (Js.is_space c); [|done].
  apply andb_true_iff in H as [_ H]. by apply IH.
Qed.

Lemma all_chars_trimEnd p s :
  Json.all_chars p s = true → Json.all_chars p (Js.trimEnd s) = true.
Proof.
  induction s as [|c s IH]; simpl; [done|].
  intros [Hc Hs]%andb_true_iff. specialize (IH Hs).
  destruct (Js.trimEnd s) as [|d r].
  - destruct (Js.is_space c); simpl; [done|by rewrite Hc].
  - simpl in *. by rewrite Hc.
Qed.

Lemma lowered_lower c : lowered (Js.lower c) = true.
Proof. destruct c as [[] [] [] [] [] [] [] []]; reflexivity. Qed.

Lemma folded_replace_runs s b :
  Json.all_chars lowered s = true →
  Json.all_chars folded (Js.replace_runs Js.is_space " " s b) = true.
Proof.
  revert b. induction s as [|c s IH]; intros b; [done|].
  cbn [Json.all_chars Js.replace_runs].
  intros [Hc Hs]%andb_true_iff. destruct (Js.is_space c) eqn:E.
  - destruct b; [by apply IH|]. rewrite string_app_cons, string_app_nil_l.
    cbn [Json.all_chars]. by rewrite IH.
  - cbn [Json.all_chars]. rewrite IH by done. unfold folded. by rewrite Hc, E.
Qed.

Lemma lowered_toLowerCase s : Json.all_chars lowered (Js.toLowerCase s) = true.
Proof.
  induction s as [|c s IH]; [done|].
  unfold Js.toLowerCase in *. cbn [Js.map_chars Json.all_chars].
  by rewrite IH, lowered_lower.
Qed.

Lemma folded_word_is_claim_char c :
  folded c && (Js.is_word c || Js.is_space c) = true → claim_char c = true.
Proof. destruct c as [[] [] [] [] [] [] [] []]; vm_compute; congruence. Qed.

Lemma all_chars_and p q s :
  Json.all_chars p s = true → Json.all_chars q s = true →
  Json.all_chars (λ c, p c && q c) s = true.
Proof.
  induction s as [|c s IH]; simpl; [done|].
  intros [-> Hp]%andb_true_iff [-> Hq]%andb_true_iff. by apply IH.
Qed.

Lemma trimStart_no_lead s :
  match Js.trimStart s with String c _ => Js.is_space c = false | EmptyString => True end.
Proof.
  induction s as [|c s IH]; simpl; [done|]. by destruct (Js.is_space c) eqn:E.
Qed.

Lemma trimEnd_head s :
  match s with String c _ => Js.is_space c = false | EmptyString => True end →
  match Js.trimEnd s with String c _ => Js.is_space c = false | EmptyString => True end.
Proof.
  destruct s as [|c s]; simpl; [done|]. intros Hc.
  destruct (Js.trimEnd s); [by rewrite Hc|done].
Qed.

Lemma trimStart_id s :
  match s with String c _ => Js.is_space c = false | EmptyString => True end →
  Js.trimStart s = s.
Proof. destruct s as [|c s]; simpl; [done|]. by intros ->. Qed.

Lemma trimEnd_idem s : Js.trimEnd (Js.trimEnd s) = Js.trimEnd s.
Proof.
  induction s as [|c s IH]; simpl; [done|].
  destruct (Js.trimEnd s) as [|d r] eqn:E.
  - destruct (Js.is_space c) eqn:Ec; simpl; [done|by rewrite Ec].
  - simpl in *. by rewrite IH.
Qed.

Lemma trim_idem s : Js.trim (Js.trim s) = Js.trim s.
Proof.
  unfold Js.trim. rewrite (trimStart_id (Js.trimEnd _)).
  - apply trimEnd_idem.
  - apply trimEnd_head, trimStart_no_lead.
Qed.

(** X22.  A normalised claim is plain and trimmed: [normalizeClaim]
    returns only lower-case letters, digits, underscores and spaces, with
    no space at either end (trimming it again changes nothing). *)
Theorem normalised_claim_is_plain claim :
  Json.all_chars claim_char (normalizeClaim claim) = true ∧
  Js.trim (normalizeClaim claim) = normalizeClaim claim.
Proof.
  unfold normalizeClaim. split; [|apply trim_idem].
  unfold Js.trim. apply all_chars_trimEnd, all_chars_trimStart.
  eapply all_chars_impl; [apply folded_word_is_claim_char|].
  apply all_chars_and; [|apply all_chars_filtered].
  apply all_chars_filter, folded_replace_runs, lowered_toLowerCase.
Qed.
End NormalisationFacts.

Section ListingFacts.
Import VerificationPlugin Documented Listing.

Lemma insert_by_count_Permutation x l : insert_by_count x l ≡ₚ x :: l.
Proof.
  induction l as [|y l IH]; simpl; [done|].
  destruct (count x <? count y)%nat; [|done].
  rewrite IH. apply Permutation_swap.
Qed.

Lemma sort_by_count_Permutation l : sort_by_count l ≡ₚ l.
Proof.
  unfold sort_by_count. induction l as [|x l IH]; simpl; [done|].
  by rewrite insert_by_count_Permutation, IH.
Qed.

Lemma insert_by_count_sorted x l :
  StronglySorted outnumbers l → StronglySorted outnumbers (insert_by_count x l).
Proof.
  induction 1 as [|y l Hl IH Hy]; simpl; [repeat constructor|].
  destruct (Nat.ltb_spec (count x) (count y)) as [Hlt|Hle].
  - constructor; [done|].
    rewrite insert_by_count_Permutation. constructor; [|done].
    unfold outnumbers. lia.
  - constructor; [by constructor|]. constructor; [done|].
    eapply Forall_impl; [exact Hy|]. unfold outnumbers. intros z Hz. lia.
Qed.

Lemma sort_by_count_sorted l : StronglySorted outnumbers (sort_by_count l).
Proof.
  unfold sort_by_count. induction l as [|x l IH]; simpl; [constructor|].
  by apply insert_by_count_sorted.
Qed.

Lemma kept_claims_sublist (m : list (string * list ClaimRef)) :
  claim <$> omap (λ '(claim, sources),
                    if (1 <? length sources)%nat
                    then Some {| claim := claim; sources := sources;
                                 count := length sources |}
                    else None) m
  `sublist_of` m.*1.
Proof.
  induction m as [|[k rs] m IH]; simpl; [done|].
  destruct (1 <? length rs)%nat; simpl; [by apply sublist_skip|by apply sublist_cons].
Qed.

Lemma push_claim_see m k r : (push_claim m k r).*1 = see m.*1 k.
Proof.
  unfold see. induction m as [|[k' rs] m IH]; [done|].
  cbn [push_claim]. destruct (String.eqb_spec k' k) as [->|Hne].
  - rewrite !fmap_cons. cbn [fst]. rewrite bool_decide_eq_true_2 by (by left). done.
  - rewrite !fmap_cons, IH. cbn [fst]. destruct (decide (k ∈ m.*1)) as [Hin|Hin].
    + rewrite !bool_decide_eq_true_2; [done|by right|done].
    + rewrite !bool_decide_eq_false_2; [done| |done].
      rewrite not_elem_of_cons. naive_solver.
Qed.

Lemma collect_result_see m result :
  (collect_result m result).*1 =
  fold_left see (normalizeClaim <$> sentences (Content.content (Result.content result))) m.*1.
Proof.
  unfold collect_result.
  generalize (sentences (Content.content (Result.content result))) as ss.
  intros ss. revert m. induction ss as [|s ss IH]; intros m; simpl; [done|].
  by rewrite IH, push_claim_see.
Qed.

Lemma collect_claims_see m results :
  (fold_left collect_result results m).*1 = fold_left see (stated results) m.*1.
Proof.
  unfold stated. revert m. induction results as [|r results IH]; intros m; simpl; [done|].
  by rewrite IH, collect_result_see, fold_left_app.
Qed.

Lemma insert_by_count_counted n x l :
  counted n (insert_by_count x l) = counted n (x :: l).
Proof.
  unfold counted. induction l as [|y l IH]; simpl; [done|].
  destruct (Nat.ltb_spec (count x) (count y)) as [Hlt|Hle]; [|done].
  rewrite filter_cons, IH, !filter_cons.
  destruct (decide (count y = n)) as [Hy|Hy];
    destruct (decide (count x = n)) as [Hx|Hx]; try done. lia.
Qed.

Lemma sort_by_count_counted n l : counted n (sort_by_count l) = counted n l.
Proof.
  unfold sort_by_count. induction l as [|x l IH]; simpl; [done|].
  rewrite insert_by_count_counted. unfold counted in *. by rewrite !filter_cons, IH.
Qed.

(** The claims kept of a claims map whose entries hold the occurrences of
    their key. *)
Lemma kept_claims results n (m : list (string * list ClaimRef)) :
  (2 ≤ n)%nat →
  Forall (λ kv, kv.2 = occurrences kv.1 results) m →
  claim <$> counted n
              (omap (λ '(claim, sources),
                       if (1 <? length sources)%nat
                       then Some {| claim := claim; sources := sources;
                                    count := length sources |}
                       else None) m)
  = filter (λ k, length (occurrences k results) = n) m.*1.
Proof.
  intros Hn. unfold counted.
  induction 1 as [|[k rs] m Hk Hm IH]; [done|]. simpl in Hk. subst rs.
  rewrite fmap_cons, (filter_cons _ k). cbn [omap list_omap fst].
  destruct (Nat.ltb_spec 1 (length (occurrences k results))) as [H1|H1].
  - rewrite filter_cons. cbn [count].
    destruct (decide (length (occurrences k results) = n));
      [rewrite fmap_cons|]; cbn [claim]; by rewrite <- IH.
  - rewrite decide_False by lia. exact IH.
Qed.

Lemma collect_claims_entries results :
  Forall (λ kv, kv.2 = occurrences kv.1 results) (collect_claims results).
Proof.
  apply Forall_forall. intros [k rs] Hin. simpl.
  destruct (collect_claims_from [] results k) as [Hwf Hrefs]; [split; constructor|].
  simpl in Hrefs. fold (collect_claims results) in Hwf, Hrefs.
  apply (well_formed_lookup _ _ _ Hwf) in Hin as [<- _]. done.
Qed.

Lemma cross_references_order results n :
  (2 ≤ n)%nat →
  claim <$> counted n (performCrossReferencing results) =
  filter (λ k, length (occurrences k results) = n) (first_seen (stated results)).
Proof.
  intros Hn. unfold performCrossReferencing. rewrite sort_by_count_counted.
  rewrite (kept_claims results n _ Hn (collect_claims_entries results)).
  unfold collect_claims, first_seen. by rewrite collect_claims_see.
Qed.
(** X23.  [performCrossReferencing] lists each normalised claim at most
    once, in descending order of count, and lists a claim exactly when at
    least two sentences of the results normalise to it, whichever sources
    they come from; the claims of equal count are listed in the order in
    which they are first stated. *)
Theorem cross_references_listing results :
  StronglySorted outnumbers (performCrossReferencing results) ∧
  NoDup (claim <$> performCrossReferencing results) ∧
  (∀ k, (∃ c, c ∈ performCrossReferencing results ∧ claim c = k) ↔
        (2 ≤ length (occurrences k results))%nat) ∧
  (∀ n, (2 ≤ n)%nat →
        claim <$> counted n (performCrossReferencing results) =
        filter (λ k, length (occurrences k results) = n) (first_seen (stated results))).
Proof.
  split; [apply sort_by_count_sorted|]. split; [|split].
  - unfold performCrossReferencing. rewrite sort_by_count_Permutation.
    destruct (collect_claims_from [] results EmptyString) as [[Hnd _] _].
    { split; constructor. }
    eapply sublist_NoDup; [exact Hnd|apply kept_claims_sublist].
  - intros k. split.
    + intros (c & Hc & <-).
      apply performCrossReferencing_occurrences in Hc as (Hs & Hn & H2).
      by rewrite <- Hs, <- Hn.
    + intros H2.
      exists {| claim := k; sources := occurrences k results;
                count := length (occurrences k results) |}.
      split; [|done]. by apply performCrossReferencing_occurrences.
  - intros n Hn. by apply cross_references_order.
Qed.
End ListingFacts.

Section VerifyFacts.
Import VerificationPlugin Documented Listing.
Local Open Scope Q_scope.

Lemma sum_bounds (scores : list Credibility) :
  Forall bounded scores →
  0 <= foldr (fun s acc => credibility s + acc) 0 scores
    <= inject_Z (Z.of_nat (length scores)).
Proof.
  induction 1 as [|s l [H0 H1] Hl IH]; [split; apply Qle_refl|].
  cbn [foldr length]. rewrite Nat2Z.inj_succ, <- Z.add_1_r, inject_Z_plus.
  change (inject_Z 1) with 1. lra.
Qed.

Lemma mean_credibility_bounds scores :
  Forall bounded scores → 0 <= mean_credibility scores <= 1.
Proof.
  intros H. destruct scores as [|s l]; [simpl; lra|].
  pose proof (sum_bounds _ H) as [H0 H1]. unfold mean_credibility.
  set (n := inject_Z (Z.of_nat (length (s :: l)))) in *.
  assert (0 < n).
  { subst n. change 0 with (inject_Z 0). rewrite <- Zlt_Qlt. simpl. lia. }
  split.
  - apply Qle_shift_div_l; [done|]. lra.
  - apply Qle_shift_div_r; [done|]. lra.
Qed.

Lemma calculateCredibility_bounded now results :
  Forall bounded (calculateCredibility now results).
Proof.
  unfold calculateCredibility. apply Forall_forall.
  intros s (r & -> & _)%list_elem_of_fmap. apply clamp01_bounds.
Qed.

(** X24.  The outcome of [verify] is bounded: it has one credibility score
    for each analysed result, in order and under the result's title and
    URL, every score lies between 0 and 1, and so does the overall
    confidence. *)
Theorem verify_outcome_is_bounded now results :
  status (verify now results) = "completed" ∧
  (λ s, (cred_source s, cred_url s)) <$> credibility_scores (verify now results) =
    (λ r, (Source.title (Result.source r), Source.url (Result.source r))) <$> results ∧
  Forall bounded (credibility_scores (verify now results)) ∧
  0 <= confidence (verify now results) <= 1.
Proof.
  split; [done|]. split.
  { cbn [verify credibility_scores]. unfold calculateCredibility.
    rewrite <- list_fmap_compose. done. }
  split; [apply calculateCredibility_bounded|].
  cbn [verify confidence credibility_scores cross_references].
  rewrite calculateOverallConfidence_formula. cbn [credibility_scores cross_references].
  pose proof (mean_credibility_bounds _ (calculateCredibility_bounded now results)).
  unfold confidence_formula.
  set (n := inject_Z _).
  assert (0 <= n).
  { subst n. change 0 with (inject_Z 0). rewrite <- Zle_Qle. lia. }
  destruct (Q.min_spec 1 (n * 0.3)) as [[? ->]|[? ->]]; lra.
Qed.
End VerifyFacts.

(** ** The capabilities in the research call *)

Section Composition.
Import ResearchAgent Frames.
Variable config : Config.t.

(** What the first stages of a pipeline that returns have produced. *)
Lemma runPipeline_front plugins topic options key w ctx w' :
  runPipeline config plugins topic options key w = (Ok ctx, w') →
  ∃ w1 w2 c w3,
    performSearch plugins topic options w = (Ok (Context.sources ctx), w1) ∧
    analyzeSources plugins topic
      (Js.slice0 (Context.sources ctx) (Config.maxSources config)) [] w1
      = (Ok (Context.results ctx), w2) ∧
    now w2 = now w ∧
    Context.results c = Context.results ctx ∧
    (if Config.verificationEnabled config
     then v ← verifyInformation plugins c; mret (Some v)
     else mret None) w2 = (Ok (Context.verification ctx), w3).
Proof.
  unfold runPipeline. intros H.
  apply bind_Ok_inv in H as (searchResults & w1 & H1 & H).
  apply bind_Ok_inv in H as (results & w2 & H2 & H).
  apply bind_Ok_inv in H as (verification & w3 & H3 & H).
  apply bind_Ok_inv in H as (a & w4 & H4 & H).
  apply bind_Ok_inv in H as (r & w5 & H5 & H).
  set (c := {| Context.topic := topic; Context.analysis := Some a;
               Context.report := Some r |}) in *.
  destruct (store_effect config topic key c w5) as (w6 & E & _).
  assert (ctx = c) as -> by (rewrite E in H; by injection H as <- <-).
  exists w1, w2. eexists _, w3.
  split; [exact H1|]. split; [exact H2|]. split; [|split; [|exact H3]]; [|done].
  pose proof (steady_performSearch _ _ _ _ _ _ H1) as (N1 & _).
  pose proof (steady_analyzeSources _ _ _ _ _ _ _ H2) as (N2 & _).
  by rewrite N2, N1.
Qed.

(** X25.  With the search plugin loaded, the sources of a context that a
    research call computes are exactly what [search] returns for the topic
    and the options at the time of the call: deduplicated, ranked and
    filtered by the quality threshold. *)
Theorem computed_sources_come_from_search threshold engines plugins
    topic options w ctx w' :
  research config (Engines.with_search threshold engines plugins) topic options w
    = (Ok ctx, w') →
  last (trace w') = Some (Emitted "research:complete") →
  ∃ t, topic = VStr t ∧
       Engines.search threshold engines (now w) t options = Ok (Context.sources ctx).
Proof.
  intros H%research_course Hlast.
  inversion H as [t w1 d -> Ht Hen Hc | t w1 ctx0 w0 -> Ht S1 Hp |]; subst.
  - cbn in Hlast. by apply last_snoc_inv in Hlast.
  - exists t. split; [done|].
    apply runPipeline_front in Hp as (w2 & _ & _ & _ & Hs & _).
    unfold performSearch, invoke in Hs. cbn [search Engines.with_search] in Hs.
    destruct S1 as (N1 & _). cbn in N1. rewrite N1 in Hs.
    destruct (Engines.search threshold engines (now w) t options) as [rs|e]; [|done].
    by injection Hs as <- _.
Qed.

Lemma runPipeline_options plugins topic options key w ctx w' :
  runPipeline config plugins topic options key w = (Ok ctx, w') →
  Context.topic ctx = topic ∧
  Context.options ctx = Json.spread (Config.customization config) options.
Proof.
  unfold runPipeline. intros H.
  repeat (apply bind_Ok_inv in H as (? & ? & _ & H)).
  by injection H as <- _.
Qed.

Lemma field_set_field fields k k' v :
  Json.field k (Json.set_field fields k' v) =
  if String.eqb k' k then Some v else Json.field k fields.
Proof.
  induction fields as [|[k0 v0] fields IH]; simpl; [done|].
  destruct (String.eqb_spec k0 k') as [->|Hne]; simpl.
  - by destruct (String.eqb k' k).
  - rewrite IH. destruct (String.eqb_spec k0 k) as [->|?]; [|done].
    by rewrite (proj2 (String.eqb_neq _ _)) by done.
Qed.

Lemma field_absent k fields : k ∉ fields.*1 → Json.field k fields = None.
Proof.
  induction fields as [|[k0 v0] fields IH]; simpl; [done|].
  rewrite not_elem_of_cons. intros [Hne Hk].
  rewrite (proj2 (String.eqb_neq _ _)) by done. by apply IH.
Qed.

Lemma field_spread k a b :
  NoDup b.*1 →
  Json.field k (Json.spread a b) =
  match Json.field k b with
  | Some v => Some v
  | None => Json.field k a
  end.
Proof.
  unfold Json.spread. revert a. induction b as [|[k' v] b IH]; intros a Hnd; [done|].
  inversion_clear Hnd as [|? ? Hk Hnd']. simpl. rewrite (IH _ Hnd'), field_set_field.
  destruct (String.eqb_spec k' k) as [->|Hne]; [|done].
  by rewrite (field_absent _ _ Hk).
Qed.

(** X26.  The options of the caller take precedence over the configured
    customization: in the context that a research call computes, an option
    has the value the caller gave it, and otherwise the value the
    customization gives it, if any. *)
Theorem caller_options_take_precedence plugins topic options w ctx w' k :
  NoDup options.*1 →
  research config plugins topic options w = (Ok ctx, w') →
  last (trace w') = Some (Emitted "research:complete") →
  Json.field k (Context.options ctx) =
    match Json.field k options with
    | Some v => Some v
    | None => Json.field k (Config.customization config)
    end.
Proof.
  intros Hnd H%research_course Hlast.
  inversion H as [t w1 d -> Ht _ Hc | t w1 ctx0 w0 -> Ht S1 Hp |]; subst.
  - cbn in Hlast. by apply last_snoc_inv in Hlast.
  - apply runPipeline_options in Hp as [_ ->]. by apply field_spread.
Qed.

(** X27.  An agent without plugins still answers: when no search,
    analysis or verification capability is installed, the context that a
    research call computes holds the one fallback source for the topic,
    with the URL [#]; when [maxSources] is at least 1, one analysed result
    for it, whose content is the fallback snippet and whose analysis is the
    default one (relevance 0.8, quality 0.7, neutral, the topic itself);
    and, when verification is enabled, the outcome [not_verified] with
    confidence 0.5. *)
Theorem bare_agent_returns_the_fallback_source plugins t options w ctx w' :
  search plugins = None →
  analysis plugins = None →
  verification plugins = None →
  research config plugins (VStr t) options w = (Ok ctx, w') →
  last (trace w') = Some (Emitted "research:complete") →
  ∃ source,
    Context.sources ctx = [source] ∧
    Source.title source = Some ("General search results for: " +:+ t) ∧
    Source.url source = "#" ∧
    Source.snippet source = Some ("Search results for " +:+ t) ∧
    ((1 ≤ Config.maxSources config)%Z →
     Context.results ctx =
       [ {| Result.source := source;
            Result.content :=
              {| Content.title := "General search results for: " +:+ t;
                 Content.content := "Search results for " +:+ t;
                 Content.url := "#";
                 Content.extractedAt := now w |};
            Result.analysis :=
              Some {| Analysis.relevance := Some 0.8%Q;
                      Analysis.sentiment := Some "neutral";
                      Analysis.topics := [t];
                      Analysis.quality := Some 0.7%Q;
                      Analysis.bias := None;
                      Analysis.readability := None |} |} ]) ∧
    (Config.verificationEnabled config = true →
     Context.verification ctx =
       Some {| VerificationPlugin.status := "not_verified";
               VerificationPlugin.confidence := 0.5%Q;
               VerificationPlugin.cross_references := [];
               VerificationPlugin.fact_checks := [];
               VerificationPlugin.credibility_scores := [] |}).
Proof.
  intros Hs Ha Hv H%research_course Hlast.
  inversion H as [t0 w1 d Et Ht _ Hc | t0 w1 ctx0 w0 Et Ht S1 Hp |]; subst.
  - cbn in Hlast. by apply last_snoc_inv in Hlast.
  - injection Et as <-.
    apply runPipeline_front in Hp as (w2 & w3 & c & w4 & Hsearch & Hloop & N & Hr & Hver).
    unfold performSearch in Hsearch. rewrite Hs in Hsearch.
    unfold fallbackSearch, uuidv4, mbind, M_bind in Hsearch. cbn [mret M_ret] in Hsearch.
    injection Hsearch as Hsrc Hw2. rewrite <- Hsrc in *. eexists. split; [reflexivity|].
    cbn [Source.title Source.url Source.snippet]. repeat split.
    + intros Hmax. unfold Js.slice0 in Hloop.
      destruct (Z.ltb_spec (Config.maxSources config) 0) as [?|_]; [lia|].
      replace (Z.to_nat (Config.maxSources config))
        with (S (Z.to_nat (Config.maxSources config - 1))) in Hloop by lia.
      cbn [take analyzeSources] in Hloop.
      unfold mbind, M_bind in Hloop. rewrite extractContent_total in Hloop.
      unfold analyzeContent in Hloop. rewrite Ha in Hloop.
      rewrite take_nil in Hloop. cbn [mret M_ret analyzeSources] in Hloop.
      injection Hloop as <- _.
      destruct S1 as (N1 & _). cbn in N1. rewrite <- Hw2.
      cbn [app Source.title Source.snippet Source.url now set_next_id].
      by rewrite N1.
    + intros Hen. rewrite Hen in Hver.
      unfold verifyInformation, mbind, M_bind in Hver. rewrite Hv in Hver.
      cbn [mret M_ret] in Hver. by injection Hver as <- _.
Qed.

(** X28.  With the verification plugin loaded and verification enabled,
    the context that a research call computes holds the outcome of
    [verify] on its own analysed results, taken at the time of the
    call. *)
Theorem computed_verification_covers_results plugins topic options w ctx w' :
  Config.verificationEnabled config = true →
  research config (Listing.with_verification plugins) topic options w = (Ok ctx, w') →
  last (trace w') = Some (Emitted "research:complete") →
  Context.verification ctx =
    Some (VerificationPlugin.verify (now w) (Context.results ctx)).
Proof.
  intros Hen H%research_course Hlast.
  inversion H as [t w1 d -> Ht _ Hc | t w1 ctx0 w0 -> Ht S1 Hp |]; subst.
  - cbn in Hlast. by apply last_snoc_inv in Hlast.
  - apply runPipeline_front in Hp as (w2 & w3 & c & w4 & _ & _ & N & Hr & Hv).
    rewrite Hen in Hv. unfold verifyInformation, invoke, mbind, M_bind in Hv.
    cbn [verification Listing.with_verification] in Hv.
    destruct S1 as (N1 & _). cbn in N1. injection Hv as <- _.
    by rewrite N, N1, Hr.
Qed.
End Composition.

(** ** The logger *)

Section LoggerFacts.
Import Logger.

(** X29.  No level name enables debug messages: whatever own level the
    logger is configured with or set to ([debug] included, since its
    number 0 is falsy and replaced by that of [info]), an entry of level
    [debug] is dropped and an entry of level [error] is written; the level
    [debug] filters exactly as [info] does. *)
Theorem debug_entries_are_never_written name :
  levels name ≠ Inherited →
  admits (setLevel name) "debug" = false ∧
  admits (setLevel name) "error" = true ∧
  setLevel "debug" = setLevel "info".
Proof.
  intros Hown.
  assert (Hv : ∃ v, levels name = v ∧
                    (v = Num 0 ∨ v = Num 1 ∨ v = Num 2 ∨ v = Num 3 ∨ v = Undefined)).
  { unfold levels in *.
    repeat (destruct (String.eqb name _); [eexists; split; [done|]; auto 6|]).
    destruct (bool_decide _); [done|]. eexists. split; [done|]. auto 6. }
  destruct Hv as (v & E & Hv). unfold setLevel, admits. rewrite E.
  change (levels "debug") with (Num 0). change (levels "error") with (Num 3).
  destruct Hv as [-> | [-> | [-> | [-> | ->]]]]; done.
Qed.
End LoggerFacts.

(** ** The properties on the samples *)

Section CapabilityWitnesses.
Import ResearchAgent Frames Loaded.
Local Open Scope Q_scope.

Lemma computed_sources_come_from_search_witness :
  ∃ ctx, searching_call = (Ok ctx, searching_call.2) ∧
  last (trace searching_call.2) = Some (Emitted "research:complete") ∧
  ∃ t, VStr "solar" = VStr t ∧
       Engines.search 0.7 engines (now Samples.empty_world) t [] = Ok (Context.sources ctx).
Proof.
  assert (L : last (trace searching_call.2) = Some (Emitted "research:complete"))
    by (vm_compute; reflexivity).
  destruct searching_call as [[ctx|e] w'] eqn:E; [|vm_compute in E; discriminate E].
  exists ctx. split; [reflexivity|]. split; [exact L|].
  exact (computed_sources_come_from_search Samples.config 0.7 engines Samples.no_plugins
           (VStr "solar") [] Samples.empty_world ctx w' E L).
Defined.

Lemma computed_verification_covers_results_witness :
  Config.verificationEnabled Samples.config = true ∧
  ∃ ctx, verifying_call = (Ok ctx, verifying_call.2) ∧
  last (trace verifying_call.2) = Some (Emitted "research:complete") ∧
  Context.verification ctx =
    Some (VerificationPlugin.verify (now Samples.empty_world) (Context.results ctx)).
Proof.
  split; [reflexivity|].
  assert (L : last (trace verifying_call.2) = Some (Emitted "research:complete"))
    by (vm_compute; reflexivity).
  destruct verifying_call as [[ctx|e] w'] eqn:E; [|vm_compute in E; discriminate E].
  exists ctx. split; [reflexivity|]. split; [exact L|].
  exact (computed_verification_covers_results Samples.config Scenarios.one_source
           (VStr "solar") [] Samples.empty_world ctx w' eq_refl E L).
Defined.

Lemma caller_options_take_precedence_witness :
  NoDup briefing.*1 ∧
  ∃ ctx, briefing_call = (Ok ctx, briefing_call.2) ∧
  last (trace briefing_call.2) = Some (Emitted "research:complete") ∧
  Json.field "persona" (Context.options ctx) = Some (Json.JStr "journalist").
Proof.
  assert (N : NoDup briefing.*1) by (vm_compute; repeat constructor; set_solver).
  split; [exact N|].
  assert (L : last (trace briefing_call.2) = Some (Emitted "research:complete"))
    by (vm_compute; reflexivity).
  destruct briefing_call as [[ctx|e] w'] eqn:E; [|vm_compute in E; discriminate E].
  exists ctx. split; [reflexivity|]. split; [exact L|].
  exact (caller_options_take_precedence Samples.config Scenarios.one_source
           (VStr "solar") briefing Samples.empty_world ctx w' "persona" N E L).
Defined.

Lemma bare_agent_returns_the_fallback_source_witness :
  ∃ ctx, bare_call = (Ok ctx, bare_call.2) ∧
  last (trace bare_call.2) = Some (Emitted "research:complete") ∧
  ∃ source,
    Context.sources ctx = [source] ∧
    Source.title source = Some "General search results for: solar" ∧
    Source.url source = "#" ∧
    length (Context.results ctx) = 1%nat.
Proof.
  assert (L : last (trace bare_call.2) = Some (Emitted "research:complete"))
    by (vm_compute; reflexivity).
  destruct bare_call as [[ctx|e] w'] eqn:E; [|vm_compute in E; discriminate E].
  exists ctx. split; [reflexivity|]. split; [exact L|].
  destruct (bare_agent_returns_the_fallback_source Samples.config Samples.no_plugins
              "solar" [] Samples.empty_world ctx w' eq_refl eq_refl eq_refl E L)
    as (source & Hs & Ht & Hu & _ & Hr & _).
  exists source. split; [exact Hs|]. split; [exact Ht|]. split; [exact Hu|].
  rewrite Hr; [reflexivity|]. vm_compute. discriminate.
Defined.

Lemma relevance_of_padded_text_witness :
  AnalysisPlugin.padded " solar power" ∧
  AnalysisPlugin.calculateRelevance " solar power" "wind turbines" == 1.
Proof.
  assert (H : AnalysisPlugin.padded " solar power").
  { right. left. by exists " "%char, "solar power". }
  split; [exact H|].
  exact (proj2 (relevance_of_padded_text " solar power" "wind turbines") H).
Defined.


Lemma short_loaded_text_is_high_bias_witness :
  (length (AnalysisPlugin.words (Js.toLowerCase slogan)) < 20)%nat ∧
  AnalysisPlugin.loaded slogan ∧
  AnalysisPlugin.detectBias slogan = "high".
Proof.
  assert (H1 : (length (AnalysisPlugin.words (Js.toLowerCase slogan)) < 20)%nat)
    by (vm_compute; lia).
  assert (H2 : AnalysisPlugin.loaded slogan).
  { exists "only", "only". split; [|split]; [| |reflexivity].
    - apply list_elem_of_In. vm_compute. tauto.
    - apply list_elem_of_In. vm_compute. tauto. }
  split; [exact H1|]. split; [exact H2|].
  exact (short_loaded_text_is_high_bias slogan H1 H2).
Defined.

Lemma dense_text_escapes_readability_penalty_witness :
  (8 * AnalysisPlugin.wordCount jargon ≤ AnalysisPlugin.characterCount jargon)%nat ∧
  0 <= AnalysisPlugin.assessReadability jargon <= 1 ∧
  AnalysisPlugin.assessReadability jargon == 0 ∧
  VerificationPlugin.readability_bonus (Some (scores_of jargon)) = 0.
Proof.
  assert (H : (8 * AnalysisPlugin.wordCount jargon
               ≤ AnalysisPlugin.characterCount jargon)%nat) by (vm_compute; lia).
  split; [exact H|].
  apply (dense_text_escapes_readability_penalty jargon (scores_of jargon)).
  - vm_compute. lia.
  - vm_compute. lia.
  - exact H.
  - reflexivity.
Defined.

Lemma debug_entries_are_never_written_witness :
  Logger.levels "debug" ≠ Logger.Inherited ∧
  Logger.admits (Logger.setLevel "debug") "debug" = false ∧
  Logger.admits (Logger.setLevel "debug") "error" = true ∧
  Logger.setLevel "debug" = Logger.setLevel "info".
Proof.
  assert (H : Logger.levels "debug" ≠ Logger.Inherited) by discriminate.
  split; [exact H|].
  exact (debug_entries_are_never_written "debug" H).
Defined.
End CapabilityWitnesses.

(** ** The merge of configurations *)

Section MergeFacts.
Import Json Merge.

Lemma fold_assign_None fields entries : fold_left (assign fields) entries None = None.
Proof. by induction entries. Qed.

(** [deepMerge] on two objects is the fold of the assignments. *)
Lemma deepMerge_fold fields entries :
  deepMerge (JObj fields) (JObj entries) =
  JObj <$> fold_left (assign fields) entries (Some fields).
Proof.
  cbn [deepMerge own].
  match goal with |- ?f entries fields = _ => set (forEach := f) end.
  assert (G : ∀ output, forEach entries output
                        = JObj <$> fold_left (assign fields) entries (Some output));
    [|apply G].
  subst forEach.
  induction entries as [|[key value] entries IH]; intros output; [done|].
  cbn [fold_left assign fst snd]. destruct (inherited key).
  - by rewrite fold_assign_None.
  - destruct value as [| | | | |inner]; cbn [isObject]; try apply IH.
    destruct (field key fields) as [under|]; [|apply IH].
    destruct (deepMerge under (JObj inner)); [apply IH|by rewrite fold_assign_None].
Qed.

(** When the target or the source is not an object, the result is the
    copy of the target's own properties. *)
Lemma deepMerge_scalar target source :
  isObject target = false ∨ isObject source = false →
  deepMerge target source = Some (JObj (own target)).
Proof.
  intros [H|H].
  - destruct source; try done. by destruct target.
  - by destruct source.
Qed.

Lemma plain_cons key value rest :
  plain (JObj ((key, value) :: rest)) = negb (inherited key) && plain value && plain (JObj rest).
Proof. reflexivity. Qed.

Lemma deepMerge_total source :
  ∀ target, plain source = true → is_Some (deepMerge target source).
Proof.
  induction source as [| | | | |entries IH] using json_nested_ind; intros target Hp;
    try (by eexists).
  destruct target as [| | | | |fields]; try (by eexists).
  rewrite deepMerge_fold.
  assert (G : ∀ output, is_Some (JObj <$> fold_left (assign fields) entries (Some output)));
    [|apply G].
  induction entries as [|[key value] entries IHe]; intros output; [by eexists|].
  rewrite plain_cons in Hp. apply andb_true_iff in Hp as [[Hk Hv]%andb_true_iff Hrest].
  apply negb_true_iff in Hk. inversion_clear IH as [|? ? IHv IHrest].
  cbn [fold_left assign fst snd]. rewrite Hk.
  destruct (isObject value); [|by apply IHe].
  destruct (field key fields) as [under|]; [|by apply IHe].
  simpl in IHv. destruct (IHv under Hv) as [merged Hm]. rewrite Hm. by apply IHe.
Qed.

Lemma fold_assign_field fields entries output out k :
  NoDup entries.*1 →
  fold_left (assign fields) entries (Some output) = Some out →
  field k out =
    match field k entries with
    | None => field k output
    | Some value =>
        if isObject value then
          match field k fields with
          | None => Some value
          | Some under => deepMerge under value
          end
        else Some value
    end.
Proof.
  revert output. induction entries as [|[key value] entries IH]; intros output Hnd.
  - by intros [= ->].
  - inversion_clear Hnd as [|? ? Hk Hnd']. cbn [fold_left assign fst snd field].
    destruct (inherited key); [by rewrite fold_assign_None|].
    assert (Hstep : ∀ x, fold_left (assign fields) entries (Some (set_field output key x))
                         = Some out →
                         field k out = if String.eqb key k then Some x
                                       else match field k entries with
                                            | None => field k output
                                            | Some value0 =>
                                                if isObject value0 then
                                                  match field k fields with
                                                  | None => Some value0
                                                  | Some under => deepMerge under value0
                                                  end
                                                else Some value0
                                            end).
    { intros x Hx. rewrite (IH _ Hnd' Hx), field_set_field.
      destruct (String.eqb_spec key k) as [->|Hne]; [|done].
      by rewrite (field_absent _ _ Hk). }
    destruct (isObject value) eqn:Ho.
    + destruct (field key fields) as [under|] eqn:Hf.
      * destruct (deepMerge under value) as [merged|] eqn:Hm;
          [|by rewrite fold_assign_None].
        intros Hx. rewrite (Hstep _ Hx).
        destruct (String.eqb_spec key k) as [->|Hne]; [|done]. by rewrite Ho, Hf, Hm.
      * intros Hx. rewrite (Hstep _ Hx).
        destruct (String.eqb_spec key k) as [->|Hne]; [|done]. by rewrite Ho, Hf.
    + intros Hx. rewrite (Hstep _ Hx).
      destruct (String.eqb_spec key k) as [->|Hne]; [|done]. by rewrite Ho.
Qed.

(** X30.  [deepMerge] of a configuration object and a source object
    (whose keys name no member of [Object.prototype]) returns an object in
    which a key that the source does not have keeps the target's value; a
    key that the source binds to a value that is not an object (a scalar,
    [null], an array) has the source's value; and a key that the source
    binds to an object has the merge of the target's value with that
    object, or the object itself when the target lacks the key.  When the
    target's value under such a key is not an object, that merge discards
    the source's object: the key is bound to the copy of the own properties
    of the target's value (the indexed code units of a string, for
    one). *)
Theorem deepMerge_overrides_and_keeps fields entries :
  NoDup entries.*1 →
  plain (JObj entries) = true →
  ∃ merged,
    deepMerge (JObj fields) (JObj entries) = Some (JObj merged) ∧
    (∀ k, field k merged =
          match field k entries with
          | None => field k fields
          | Some value =>
              if isObject value then
                match field k fields with
                | None => Some value
                | Some under => deepMerge under value
                end
              else Some value
          end) ∧
    (∀ k under value,
       field k fields = Some under → isObject under = false →
       field k entries = Some value → isObject value = true →
       field k merged = Some (JObj (own under))).
Proof.
  intros Hnd Hp. destruct (deepMerge_total _ (JObj fields) Hp) as [out Hout].
  rewrite deepMerge_fold in Hout.
  destruct (fold_left _ _ _) as [merged|] eqn:E; [|done]. injection Hout as <-.
  exists merged. rewrite deepMerge_fold, E. split; [done|].
  assert (L := λ k, fold_assign_field fields entries fields merged k Hnd E).
  split; [exact L|].
  intros k under value Hf Hu He Hv. rewrite L, He, Hv, Hf.
  apply deepMerge_scalar. by left.
Qed.

Lemma deepMerge_overrides_and_keeps_witness :
  NoDup overrides.*1 ∧ plain (JObj overrides) = true ∧
  ∃ merged,
    deepMerge (JObj defaults) (JObj overrides) = Some (JObj merged) ∧
    field "storage" merged =
      Some (JObj [("cacheEnabled", JBool false); ("cacheTtl", JNum 86400)]).
Proof.
  assert (N : NoDup overrides.*1) by (vm_compute; repeat constructor; set_solver).
  assert (P : plain (JObj overrides) = true) by (vm_compute; reflexivity).
  split; [exact N|]. split; [exact P|].
  destruct (deepMerge_overrides_and_keeps defaults overrides N P) as (merged & E & L & _).
  exists merged. split; [exact E|]. rewrite L. vm_compute. reflexivity.
Defined.
End MergeFacts.
